(** * x-tools: the peer-to-peer session layer (WebrtcApp)

    A shallow embedding of the React component [WebrtcApp] that carries the
    data channel (text and file frames), the message log and the audio/video
    call state machine, in its two variants: the base chat component and the
    component extended with media calls.

    JavaScript strings are sequences of UTF-16 code units, so [jsstring] is
    [list N]; bytes of an [ArrayBuffer] are [list byte].  React state
    ([useState]) and refs ([useRef]) are fields of one record that every
    handler takes and returns.  The objects handed out by PeerJS and by the
    browser (data connections, media connections, media streams) live in
    stores inside that record and are named by their index, so that two
    references to one object stay aliases.  [Date.now()] and [Math.random()]
    are inputs of the handlers that call them. *)

From Stdlib Require Import NArith ZArith String Ascii DecimalN.
From Stdlib Require SpecFloat.
From Stdlib.Strings Require Import Byte.
From stdpp Require Import base decidable option numbers list.

Local Open Scope N_scope.

(** ** JavaScript strings *)

Definition jschar : Type := N.
Definition jsstring : Type := list jschar.

(** An ASCII literal as a JavaScript string. *)
Definition js (s : string) : jsstring :=
  (λ a, N_of_ascii a) <$> list_ascii_of_string s.

(** [String.prototype.substring(start, end)]: the arguments are swapped when
    [start > end] and clamped to the length of the string. *)
Definition substring (start stop : nat) (s : jsstring) : jsstring :=
  let lo := Nat.min start stop in
  let hi := Nat.max start stop in
  take (hi - lo) (drop lo s).

Definition is_lower (c : jschar) : bool := (97 <=? c) && (c <=? 122).

(** *** [String.prototype.toUpperCase]

    The string is read as code points, a high surrogate followed by a low
    surrogate making one code point; every code point is replaced by its
    [Uppercase_Mapping], the full, locale-insensitive mapping of the Unicode
    Character Database; the result is written back as code units. *)

Definition is_high_surrogate (c : jschar) : bool := (55296 <=? c) && (c <=? 56319).
Definition is_low_surrogate (c : jschar) : bool := (56320 <=? c) && (c <=? 57343).

(** The code point of a surrogate pair. *)
Definition code_point (hi lo : jschar) : N :=
  65536 + (hi - 55296) * 1024 + (lo - 56320).

(** The code units of a code point. *)
Definition code_units (cp : N) : jsstring :=
  if cp <? 65536 then [cp]
  else [55296 + (cp - 65536) / 1024; 56320 + (cp - 65536) mod 1024].

(** The code points outside [a-z] that do not map to themselves, with their
    mappings: the uppercase mappings of UnicodeData.txt and the unconditional
    ones of SpecialCasing.txt, Unicode 14.0. *)
Definition UPPERCASE_MAPPING : list (N * list N) :=
  [(181, [924]); (223, [83; 83]); (224, [192]); (225, [193]); (226, [194]);
   (227, [195]); (228, [196]); (229, [197]); (230, [198]); (231, [199]);
   (232, [200]); (233, [201]); (234, [202]); (235, [203]); (236, [204]);
   (237, [205]); (238, [206]); (239, [207]); (240, [208]); (241, [209]);
   (242, [210]); (243, [211]); (244, [212]); (245, [213]); (246, [214]);
   (248, [216]); (249, [217]); (250, [218]); (251, [219]); (252, [220]);
   (253, [221]); (254, [222]); (255, [376]); (257, [256]); (259, [258]);
   (261, [260]); (263, [262]); (265, [264]); (267, [266]); (269, [268]);
   (271, [270]); (273, [272]); (275, [274]); (277, [276]); (279, [278]);
   (281, [280]); (283, [282]); (285, [284]); (287, [286]); (289, [288]);
   (291, [290]); (293, [292]); (295, [294]); (297, [296]); (299, [298]);
   (301, [300]); (303, [302]); (305, [73]); (307, [306]); (309, [308]);
   (311, [310]); (314, [313]); (316, [315]); (318, [317]); (320, [319]);
   (322, [321]); (324, [323]); (326, [325]); (328, [327]); (329, [700; 78]);
   (331, [330]); (333, [332]); (335, [334]); (337, [336]); (339, [338]);
   (341, [340]); (343, [342]); (345, [344]); (347, [346]); (349, [348]);
   (351, [350]); (353, [352]); (355, [354]); (357, [356]); (359, [358]);
   (361, [360]); (363, [362]); (365, [364]); (367, [366]); (369, [368]);
   (371, [370]); (373, [372]); (375, [374]); (378, [377]); (380, [379]);
   (382, [381]); (383, [83]); (384, [579]); (387, [386]); (389, [388]);
   (392, [391]); (396, [395]); (402, [401]); (405, [502]); (409, [408]);
   (410, [573]); (414, [544]); (417, [416]); (419, [418]); (421, [420]);
   (424, [423]); (429, [428]); (432, [431]); (436, [435]); (438, [437]);
   (441, [440]); (445, [444]); (447, [503]); (453, [452]); (454, [452]);
   (456, [455]); (457, [455]); (459, [458]); (460, [458]); (462, [461]);
   (464, [463]); (466, [465]); (468, [467]); (470, [469]); (472, [471]);
   (474, [473]); (476, [475]); (477, [398]); (479, [478]); (481, [480]);
   (483, [482]); (485, [484]); (487, [486]); (489, [488]); (491, [490]);
   (493, [492]); (495, [494]); (496, [74; 780]); (498, [497]); (499, [497]);
   (501, [500]); (505, [504]); (507, [506]); (509, [508]); (511, [510]);
   (513, [512]); (515, [514]); (517, [516]); (519, [518]); (521, [520]);
   (523, [522]); (525, [524]); (527, [526]); (529, [528]); (531, [530]);
   (533, [532]); (535, [534]); (537, [536]); (539, [538]); (541, [540]);
   (543, [542]); (547, [546]); (549, [548]); (551, [550]); (553, [552]);
   (555, [554]); (557, [556]); (559, [558]); (561, [560]); (563, [562]);
   (572, [571]); (575, [11390]); (576, [11391]); (578, [577]); (583, [582]);
   (585, [584]); (587, [586]); (589, [588]); (591, [590]); (592, [11375]);
   (593, [11373]); (594, [11376]); (595, [385]); (596, [390]); (598, [393]);
   (599, [394]); (601, [399]); (603, [400]); (604, [42923]); (608, [403]);
   (609, [42924]); (611, [404]); (613, [42893]); (614, [42922]);
   (616, [407]); (617, [406]); (618, [42926]); (619, [11362]);
   (620, [42925]); (623, [412]); (625, [11374]); (626, [413]); (629, [415]);
   (637, [11364]); (640, [422]); (642, [42949]); (643, [425]);
   (647, [42929]); (648, [430]); (649, [580]); (650, [433]); (651, [434]);
   (652, [581]); (658, [439]); (669, [42930]); (670, [42928]); (837, [921]);
   (881, [880]); (883, [882]); (887, [886]); (891, [1021]); (892, [1022]);
   (893, [1023]); (912, [921; 776; 769]); (940, [902]); (941, [904]);
   (942, [905]); (943, [906]); (944, [933; 776; 769]); (945, [913]);
   (946, [914]); (947, [915]); (948, [916]); (949, [917]); (950, [918]);
   (951, [919]); (952, [920]); (953, [921]); (954, [922]); (955, [923]);
   (956, [924]); (957, [925]); (958, [926]); (959, [927]); (960, [928]);
   (961, [929]); (962, [931]); (963, [931]); (964, [932]); (965, [933]);
   (966, [934]); (967, [935]); (968, [936]); (969, [937]); (970, [938]);
   (971, [939]); (972, [908]); (973, [910]); (974, [911]); (976, [914]);
   (977, [920]); (981, [934]); (982, [928]); (983, [975]); (985, [984]);
   (987, [986]); (989, [988]); (991, [990]); (993, [992]); (995, [994]);
   (997, [996]); (999, [998]); (1001, [1000]); (1003, [1002]);
   (1005, [1004]); (1007, [1006]); (1008, [922]); (1009, [929]);
   (1010, [1017]); (1011, [895]); (1013, [917]); (1016, [1015]);
   (1019, [1018]); (1072, [1040]); (1073, [1041]); (1074, [1042]);
   (1075, [1043]); (1076, [1044]); (1077, [1045]); (1078, [1046]);
   (1079, [1047]); (1080, [1048]); (1081, [1049]); (1082, [1050]);
   (1083, [1051]); (1084, [1052]); (1085, [1053]); (1086, [1054]);
   (1087, [1055]); (1088, [1056]); (1089, [1057]); (1090, [1058]);
   (1091, [1059]); (1092, [1060]); (1093, [1061]); (1094, [1062]);
   (1095, [1063]); (1096, [1064]); (1097, [1065]); (1098, [1066]);
   (1099, [1067]); (1100, [1068]); (1101, [1069]); (1102, [1070]);
   (1103, [1071]); (1104, [1024]); (1105, [1025]); (1106, [1026]);
   (1107, [1027]); (1108, [1028]); (1109, [1029]); (1110, [1030]);
   (1111, [1031]); (1112, [1032]); (1113, [1033]); (1114, [1034]);
   (1115, [1035]); (1116, [1036]); (1117, [1037]); (1118, [1038]);
   (1119, [1039]); (1121, [1120]); (1123, [1122]); (1125, [1124]);
   (1127, [1126]); (1129, [1128]); (1131, [1130]); (1133, [1132]);
   (1135, [1134]); (1137, [1136]); (1139, [1138]); (1141, [1140]);
   (1143, [1142]); (1145, [1144]); (1147, [1146]); (1149, [1148]);
   (1151, [1150]); (1153, [1152]); (1163, [1162]); (1165, [1164]);
   (1167, [1166]); (1169, [1168]); (1171, [1170]); (1173, [1172]);
   (1175, [1174]); (1177, [1176]); (1179, [1178]); (1181, [1180]);
   (1183, [1182]); (1185, [1184]); (1187, [1186]); (1189, [1188]);
   (1191, [1190]); (1193, [1192]); (1195, [1194]); (1197, [1196]);
   (1199, [1198]); (1201, [1200]); (1203, [1202]); (1205, [1204]);
   (1207, [1206]); (1209, [1208]); (1211, [1210]); (1213, [1212]);
   (1215, [1214]); (1218, [1217]); (1220, [1219]); (1222, [1221]);
   (1224, [1223]); (1226, [1225]); (1228, [1227]); (1230, [1229]);
   (1231, [1216]); (1233, [1232]); (1235, [1234]); (1237, [1236]);
   (1239, [1238]); (1241, [1240]); (1243, [1242]); (1245, [1244]);
   (1247, [1246]); (1249, [1248]); (1251, [1250]); (1253, [1252]);
   (1255, [1254]); (1257, [1256]); (1259, [1258]); (1261, [1260]);
   (1263, [1262]); (1265, [1264]); (1267, [1266]); (1269, [1268]);
   (1271, [1270]); (1273, [1272]); (1275, [1274]); (1277, [1276]);
   (1279, [1278]); (1281, [1280]); (1283, [1282]); (1285, [1284]);
   (1287, [1286]); (1289, [1288]); (1291, [1290]); (1293, [1292]);
   (1295, [1294]); (1297, [1296]); (1299, [1298]); (1301, [1300]);
   (1303, [1302]); (1305, [1304]); (1307, [1306]); (1309, [1308]);
   (1311, [1310]); (1313, [1312]); (1315, [1314]); (1317, [1316]);
   (1319, [1318]); (1321, [1320]); (1323, [1322]); (1325, [1324]);
   (1327, [1326]); (1377, [1329]); (1378, [1330]); (1379, [1331]);
   (1380, [1332]); (1381, [1333]); (1382, [1334]); (1383, [1335]);
   (1384, [1336]); (1385, [1337]); (1386, [1338]); (1387, [1339]);
   (1388, [1340]); (1389, [1341]); (1390, [1342]); (1391, [1343]);
   (1392, [1344]); (1393, [1345]); (1394, [1346]); (1395, [1347]);
   (1396, [1348]); (1397, [1349]); (1398, [1350]); (1399, [1351]);
   (1400, [1352]); (1401, [1353]); (1402, [1354]); (1403, [1355]);
   (1404, [1356]); (1405, [1357]); (1406, [1358]); (1407, [1359]);
   (1408, [1360]); (1409, [1361]); (1410, [1362]); (1411, [1363]);
   (1412, [1364]); (1413, [1365]); (1414, [1366]); (1415, [1333; 1362]);
   (4304, [7312]); (4305, [7313]); (4306, [7314]); (4307, [7315]);
   (4308, [7316]); (4309, [7317]); (4310, [7318]); (4311, [7319]);
   (4312, [7320]); (4313, [7321]); (4314, [7322]); (4315, [7323]);
   (4316, [7324]); (4317, [7325]); (4318, [7326]); (4319, [7327]);
   (4320, [7328]); (4321, [7329]); (4322, [7330]); (4323, [7331]);
   (4324, [7332]); (4325, [7333]); (4326, [7334]); (4327, [7335]);
   (4328, [7336]); (4329, [7337]); (4330, [7338]); (4331, [7339]);
   (4332, [7340]); (4333, [7341]); (4334, [7342]); (4335, [7343]);
   (4336, [7344]); (4337, [7345]); (4338, [7346]); (4339, [7347]);
   (4340, [7348]); (4341, [7349]); (4342, [7350]); (4343, [7351]);
   (4344, [7352]); (4345, [7353]); (4346, [7354]); (4349, [7357]);
   (4350, [7358]); (4351, [7359]); (5112, [5104]); (5113, [5105]);
   (5114, [5106]); (5115, [5107]); (5116, [5108]); (5117, [5109]);
   (7296, [1042]); (7297, [1044]); (7298, [1054]); (7299, [1057]);
   (7300, [1058]); (7301, [1058]); (7302, [1066]); (7303, [1122]);
   (7304, [42570]); (7545, [42877]); (7549, [11363]); (7566, [42950]);
   (7681, [7680]); (7683, [7682]); (7685, [7684]); (7687, [7686]);
   (7689, [7688]); (7691, [7690]); (7693, [7692]); (7695, [7694]);
   (7697, [7696]); (7699, [7698]); (7701, [7700]); (7703, [7702]);
   (7705, [7704]); (7707, [7706]); (7709, [7708]); (7711, [7710]);
   (7713, [7712]); (7715, [7714]); (7717, [7716]); (7719, [7718]);
   (7721, [7720]); (7723, [7722]); (7725, [7724]); (7727, [7726]);
   (7729, [7728]); (7731, [7730]); (7733, [7732]); (7735, [7734]);
   (7737, [7736]); (7739, [7738]); (7741, [7740]); (7743, [7742]);
   (7745, [7744]); (7747, [7746]); (7749, [7748]); (7751, [7750]);
   (7753, [7752]); (7755, [7754]); (7757, [7756]); (7759, [7758]);
   (7761, [7760]); (7763, [7762]); (7765, [7764]); (7767, [7766]);
   (7769, [7768]); (7771, [7770]); (7773, [7772]); (7775, [7774]);
   (7777, [7776]); (7779, [7778]); (7781, [7780]); (7783, [7782]);
   (7785, [7784]); (7787, [7786]); (7789, [7788]); (7791, [7790]);
   (7793, [7792]); (7795, [7794]); (7797, [7796]); (7799, [7798]);
   (7801, [7800]); (7803, [7802]); (7805, [7804]); (7807, [7806]);
   (7809, [7808]); (7811, [7810]); (7813, [7812]); (7815, [7814]);
   (7817, [7816]); (7819, [7818]); (7821, [7820]); (7823, [7822]);
   (7825, [7824]); (7827, [7826]); (7829, [7828]); (7830, [72; 817]);
   (7831, [84; 776]); (7832, [87; 778]); (7833, [89; 778]);
   (7834, [65; 702]); (7835, [7776]); (7841, [7840]); (7843, [7842]);
   (7845, [7844]); (7847, [7846]); (7849, [7848]); (7851, [7850]);
   (7853, [7852]); (7855, [7854]); (7857, [7856]); (7859, [7858]);
   (7861, [7860]); (7863, [7862]); (7865, [7864]); (7867, [7866]);
   (7869, [7868]); (7871, [7870]); (7873, [7872]); (7875, [7874]);
   (7877, [7876]); (7879, [7878]); (7881, [7880]); (7883, [7882]);
   (7885, [7884]); (7887, [7886]); (7889, [7888]); (7891, [7890]);
   (7893, [7892]); (7895, [7894]); (7897, [7896]); (7899, [7898]);
   (7901, [7900]); (7903, [7902]); (7905, [7904]); (7907, [7906]);
   (7909, [7908]); (7911, [7910]); (7913, [7912]); (7915, [7914]);
   (7917, [7916]); (7919, [7918]); (7921, [7920]); (7923, [7922]);
   (7925, [7924]); (7927, [7926]); (7929, [7928]); (7931, [7930]);
   (7933, [7932]); (7935, [7934]); (7936, [7944]); (7937, [7945]);
   (7938, [7946]); (7939, [7947]); (7940, [7948]); (7941, [7949]);
   (7942, [7950]); (7943, [7951]); (7952, [7960]); (7953, [7961]);
   (7954, [7962]); (7955, [7963]); (7956, [7964]); (7957, [7965]);
   (7968, [7976]); (7969, [7977]); (7970, [7978]); (7971, [7979]);
   (7972, [7980]); (7973, [7981]); (7974, [7982]); (7975, [7983]);
   (7984, [7992]); (7985, [7993]); (7986, [7994]); (7987, [7995]);
   (7988, [7996]); (7989, [7997]); (7990, [7998]); (7991, [7999]);
   (8000, [8008]); (8001, [8009]); (8002, [8010]); (8003, [8011]);
   (8004, [8012]); (8005, [8013]); (8016, [933; 787]); (8017, [8025]);
   (8018, [933; 787; 768]); (8019, [8027]); (8020, [933; 787; 769]);
   (8021, [8029]); (8022, [933; 787; 834]); (8023, [8031]); (8032, [8040]);
   (8033, [8041]); (8034, [8042]); (8035, [8043]); (8036, [8044]);
   (8037, [8045]); (8038, [8046]); (8039, [8047]); (8048, [8122]);
   (8049, [8123]); (8050, [8136]); (8051, [8137]); (8052, [8138]);
   (8053, [8139]); (8054, [8154]); (8055, [8155]); (8056, [8184]);
   (8057, [8185]); (8058, [8170]); (8059, [8171]); (8060, [8186]);
   (8061, [8187]); (8064, [7944; 921]); (8065, [7945; 921]);
   (8066, [7946; 921]); (8067, [7947; 921]); (8068, [7948; 921]);
   (8069, [7949; 921]); (8070, [7950; 921]); (8071, [7951; 921]);
   (8072, [7944; 921]); (8073, [7945; 921]); (8074, [7946; 921]);
   (8075, [7947; 921]); (8076, [7948; 921]); (8077, [7949; 921]);
   (8078, [7950; 921]); (8079, [7951; 921]); (8080, [7976; 921]);
   (8081, [7977; 921]); (8082, [7978; 921]); (8083, [7979; 921]);
   (8084, [7980; 921]); (8085, [7981; 921]); (8086, [7982; 921]);
   (8087, [7983; 921]); (8088, [7976; 921]); (8089, [7977; 921]);
   (8090, [7978; 921]); (8091, [7979; 921]); (8092, [7980; 921]);
   (8093, [7981; 921]); (8094, [7982; 921]); (8095, [7983; 921]);
   (8096, [8040; 921]); (8097, [8041; 921]); (8098, [8042; 921]);
   (8099, [8043; 921]); (8100, [8044; 921]); (8101, [8045; 921]);
   (8102, [8046; 921]); (8103, [8047; 921]); (8104, [8040; 921]);
   (8105, [8041; 921]); (8106, [8042; 921]); (8107, [8043; 921]);
   (8108, [8044; 921]); (8109, [8045; 921]); (8110, [8046; 921]);
   (8111, [8047; 921]); (8112, [8120]); (8113, [8121]); (8114, [8122; 921]);
   (8115, [913; 921]); (8116, [902; 921]); (8118, [913; 834]);
   (8119, [913; 834; 921]); (8124, [913; 921]); (8126, [921]);
   (8130, [8138; 921]); (8131, [919; 921]); (8132, [905; 921]);
   (8134, [919; 834]); (8135, [919; 834; 921]); (8140, [919; 921]);
   (8144, [8152]); (8145, [8153]); (8146, [921; 776; 768]);
   (8147, [921; 776; 769]); (8150, [921; 834]); (8151, [921; 776; 834]);
   (8160, [8168]); (8161, [8169]); (8162, [933; 776; 768]);
   (8163, [933; 776; 769]); (8164, [929; 787]); (8165, [8172]);
   (8166, [933; 834]); (8167, [933; 776; 834]); (8178, [8186; 921]);
   (8179, [937; 921]); (8180, [911; 921]); (8182, [937; 834]);
   (8183, [937; 834; 921]); (8188, [937; 921]); (8526, [8498]);
   (8560, [8544]); (8561, [8545]); (8562, [8546]); (8563, [8547]);
   (8564, [8548]); (8565, [8549]); (8566, [8550]); (8567, [8551]);
   (8568, [8552]); (8569, [8553]); (8570, [8554]); (8571, [8555]);
   (8572, [8556]); (8573, [8557]); (8574, [8558]); (8575, [8559]);
   (8580, [8579]); (9424, [9398]); (9425, [9399]); (9426, [9400]);
   (9427, [9401]); (9428, [9402]); (9429, [9403]); (9430, [9404]);
   (9431, [9405]); (9432, [9406]); (9433, [9407]); (9434, [9408]);
   (9435, [9409]); (9436, [9410]); (9437, [9411]); (9438, [9412]);
   (9439, [9413]); (9440, [9414]); (9441, [9415]); (9442, [9416]);
   (9443, [9417]); (9444, [9418]); (9445, [9419]); (9446, [9420]);
   (9447, [9421]); (9448, [9422]); (9449, [9423]); (11312, [11264]);
   (11313, [11265]); (11314, [11266]); (11315, [11267]); (11316, [11268]);
   (11317, [11269]); (11318, [11270]); (11319, [11271]); (11320, [11272]);
   (11321, [11273]); (11322, [11274]); (11323, [11275]); (11324, [11276]);
   (11325, [11277]); (11326, [11278]); (11327, [11279]); (11328, [11280]);
   (11329, [11281]); (11330, [11282]); (11331, [11283]); (11332, [11284]);
   (11333, [11285]); (11334, [11286]); (11335, [11287]); (11336, [11288]);
   (11337, [11289]); (11338, [11290]); (11339, [11291]); (11340, [11292]);
   (11341, [11293]); (11342, [11294]); (11343, [11295]); (11344, [11296]);
   (11345, [11297]); (11346, [11298]); (11347, [11299]); (11348, [11300]);
   (11349, [11301]); (11350, [11302]); (11351, [11303]); (11352, [11304]);
   (11353, [11305]); (11354, [11306]); (11355, [11307]); (11356, [11308]);
   (11357, [11309]); (11358, [11310]); (11359, [11311]); (11361, [11360]);
   (11365, [570]); (11366, [574]); (11368, [11367]); (11370, [11369]);
   (11372, [11371]); (11379, [11378]); (11382, [11381]); (11393, [11392]);
   (11395, [11394]); (11397, [11396]); (11399, [11398]); (11401, [11400]);
   (11403, [11402]); (11405, [11404]); (11407, [11406]); (11409, [11408]);
   (11411, [11410]); (11413, [11412]); (11415, [11414]); (11417, [11416]);
   (11419, [11418]); (11421, [11420]); (11423, [11422]); (11425, [11424]);
   (11427, [11426]); (11429, [11428]); (11431, [11430]); (11433, [11432]);
   (11435, [11434]); (11437, [11436]); (11439, [11438]); (11441, [11440]);
   (11443, [11442]); (11445, [11444]); (11447, [11446]); (11449, [11448]);
   (11451, [11450]); (11453, [11452]); (11455, [11454]); (11457, [11456]);
   (11459, [11458]); (11461, [11460]); (11463, [11462]); (11465, [11464]);
   (11467, [11466]); (11469, [11468]); (11471, [11470]); (11473, [11472]);
   (11475, [11474]); (11477, [11476]); (11479, [11478]); (11481, [11480]);
   (11483, [11482]); (11485, [11484]); (11487, [11486]); (11489, [11488]);
   (11491, [11490]); (11500, [11499]); (11502, [11501]); (11507, [11506]);
   (11520, [4256]); (11521, [4257]); (11522, [4258]); (11523, [4259]);
   (11524, [4260]); (11525, [4261]); (11526, [4262]); (11527, [4263]);
   (11528, [4264]); (11529, [4265]); (11530, [4266]); (11531, [4267]);
   (11532, [4268]); (11533, [4269]); (11534, [4270]); (11535, [4271]);
   (11536, [4272]); (11537, [4273]); (11538, [4274]); (11539, [4275]);
   (11540, [4276]); (11541, [4277]); (11542, [4278]); (11543, [4279]);
   (11544, [4280]); (11545, [4281]); (11546, [4282]); (11547, [4283]);
   (11548, [4284]); (11549, [4285]); (11550, [4286]); (11551, [4287]);
   (11552, [4288]); (11553, [4289]); (11554, [4290]); (11555, [4291]);
   (11556, [4292]); (11557, [4293]); (11559, [4295]); (11565, [4301]);
   (42561, [42560]); (42563, [42562]); (42565, [42564]); (42567, [42566]);
   (42569, [42568]); (42571, [42570]); (42573, [42572]); (42575, [42574]);
   (42577, [42576]); (42579, [42578]); (42581, [42580]); (42583, [42582]);
   (42585, [42584]); (42587, [42586]); (42589, [42588]); (42591, [42590]);
   (42593, [42592]); (42595, [42594]); (42597, [42596]); (42599, [42598]);
   (42601, [42600]); (42603, [42602]); (42605, [42604]); (42625, [42624]);
   (42627, [42626]); (42629, [42628]); (42631, [42630]); (42633, [42632]);
   (42635, [42634]); (42637, [42636]); (42639, [42638]); (42641, [42640]);
   (42643, [42642]); (42645, [42644]); (42647, [42646]); (42649, [42648]);
   (42651, [42650]); (42787, [42786]); (42789, [42788]); (42791, [42790]);
   (42793, [42792]); (42795, [42794]); (42797, [42796]); (42799, [42798]);
   (42803, [42802]); (42805, [42804]); (42807, [42806]); (42809, [42808]);
   (42811, [42810]); (42813, [42812]); (42815, [42814]); (42817, [42816]);
   (42819, [42818]); (42821, [42820]); (42823, [42822]); (42825, [42824]);
   (42827, [42826]); (42829, [42828]); (42831, [42830]); (42833, [42832]);
   (42835, [42834]); (42837, [42836]); (42839, [42838]); (42841, [42840]);
   (42843, [42842]); (42845, [42844]); (42847, [42846]); (42849, [42848]);
   (42851, [42850]); (42853, [42852]); (42855, [42854]); (42857, [42856]);
   (42859, [42858]); (42861, [42860]); (42863, [42862]); (42874, [42873]);
   (42876, [42875]); (42879, [42878]); (42881, [42880]); (42883, [42882]);
   (42885, [42884]); (42887, [42886]); (42892, [42891]); (42897, [42896]);
   (42899, [42898]); (42900, [42948]); (42903, [42902]); (42905, [42904]);
   (42907, [42906]); (42909, [42908]); (42911, [42910]); (42913, [42912]);
   (42915, [42914]); (42917, [42916]); (42919, [42918]); (42921, [42920]);
   (42933, [42932]); (42935, [42934]); (42937, [42936]); (42939, [42938]);
   (42941, [42940]); (42943, [42942]); (42945, [42944]); (42947, [42946]);
   (42952, [42951]); (42954, [42953]); (42961, [42960]); (42967, [42966]);
   (42969, [42968]); (42998, [42997]); (43859, [42931]); (43888, [5024]);
   (43889, [5025]); (43890, [5026]); (43891, [5027]); (43892, [5028]);
   (43893, [5029]); (43894, [5030]); (43895, [5031]); (43896, [5032]);
   (43897, [5033]); (43898, [5034]); (43899, [5035]); (43900, [5036]);
   (43901, [5037]); (43902, [5038]); (43903, [5039]); (43904, [5040]);
   (43905, [5041]); (43906, [5042]); (43907, [5043]); (43908, [5044]);
   (43909, [5045]); (43910, [5046]); (43911, [5047]); (43912, [5048]);
   (43913, [5049]); (43914, [5050]); (43915, [5051]); (43916, [5052]);
   (43917, [5053]); (43918, [5054]); (43919, [5055]); (43920, [5056]);
   (43921, [5057]); (43922, [5058]); (43923, [5059]); (43924, [5060]);
   (43925, [5061]); (43926, [5062]); (43927, [5063]); (43928, [5064]);
   (43929, [5065]); (43930, [5066]); (43931, [5067]); (43932, [5068]);
   (43933, [5069]); (43934, [5070]); (43935, [5071]); (43936, [5072]);
   (43937, [5073]); (43938, [5074]); (43939, [5075]); (43940, [5076]);
   (43941, [5077]); (43942, [5078]); (43943, [5079]); (43944, [5080]);
   (43945, [5081]); (43946, [5082]); (43947, [5083]); (43948, [5084]);
   (43949, [5085]); (43950, [5086]); (43951, [5087]); (43952, [5088]);
   (43953, [5089]); (43954, [5090]); (43955, [5091]); (43956, [5092]);
   (43957, [5093]); (43958, [5094]); (43959, [5095]); (43960, [5096]);
   (43961, [5097]); (43962, [5098]); (43963, [5099]); (43964, [5100]);
   (43965, [5101]); (43966, [5102]); (43967, [5103]); (64256, [70; 70]);
   (64257, [70; 73]); (64258, [70; 76]); (64259, [70; 70; 73]);
   (64260, [70; 70; 76]); (64261, [83; 84]); (64262, [83; 84]);
   (64275, [1348; 1350]); (64276, [1348; 1333]); (64277, [1348; 1339]);
   (64278, [1358; 1350]); (64279, [1348; 1341]); (65345, [65313]);
   (65346, [65314]); (65347, [65315]); (65348, [65316]); (65349, [65317]);
   (65350, [65318]); (65351, [65319]); (65352, [65320]); (65353, [65321]);
   (65354, [65322]); (65355, [65323]); (65356, [65324]); (65357, [65325]);
   (65358, [65326]); (65359, [65327]); (65360, [65328]); (65361, [65329]);
   (65362, [65330]); (65363, [65331]); (65364, [65332]); (65365, [65333]);
   (65366, [65334]); (65367, [65335]); (65368, [65336]); (65369, [65337]);
   (65370, [65338]); (66600, [66560]); (66601, [66561]); (66602, [66562]);
   (66603, [66563]); (66604, [66564]); (66605, [66565]); (66606, [66566]);
   (66607, [66567]); (66608, [66568]); (66609, [66569]); (66610, [66570]);
   (66611, [66571]); (66612, [66572]); (66613, [66573]); (66614, [66574]);
   (66615, [66575]); (66616, [66576]); (66617, [66577]); (66618, [66578]);
   (66619, [66579]); (66620, [66580]); (66621, [66581]); (66622, [66582]);
   (66623, [66583]); (66624, [66584]); (66625, [66585]); (66626, [66586]);
   (66627, [66587]); (66628, [66588]); (66629, [66589]); (66630, [66590]);
   (66631, [66591]); (66632, [66592]); (66633, [66593]); (66634, [66594]);
   (66635, [66595]); (66636, [66596]); (66637, [66597]); (66638, [66598]);
   (66639, [66599]); (66776, [66736]); (66777, [66737]); (66778, [66738]);
   (66779, [66739]); (66780, [66740]); (66781, [66741]); (66782, [66742]);
   (66783, [66743]); (66784, [66744]); (66785, [66745]); (66786, [66746]);
   (66787, [66747]); (66788, [66748]); (66789, [66749]); (66790, [66750]);
   (66791, [66751]); (66792, [66752]); (66793, [66753]); (66794, [66754]);
   (66795, [66755]); (66796, [66756]); (66797, [66757]); (66798, [66758]);
   (66799, [66759]); (66800, [66760]); (66801, [66761]); (66802, [66762]);
   (66803, [66763]); (66804, [66764]); (66805, [66765]); (66806, [66766]);
   (66807, [66767]); (66808, [66768]); (66809, [66769]); (66810, [66770]);
   (66811, [66771]); (66967, [66928]); (66968, [66929]); (66969, [66930]);
   (66970, [66931]); (66971, [66932]); (66972, [66933]); (66973, [66934]);
   (66974, [66935]); (66975, [66936]); (66976, [66937]); (66977, [66938]);
   (66979, [66940]); (66980, [66941]); (66981, [66942]); (66982, [66943]);
   (66983, [66944]); (66984, [66945]); (66985, [66946]); (66986, [66947]);
   (66987, [66948]); (66988, [66949]); (66989, [66950]); (66990, [66951]);
   (66991, [66952]); (66992, [66953]); (66993, [66954]); (66995, [66956]);
   (66996, [66957]); (66997, [66958]); (66998, [66959]); (66999, [66960]);
   (67000, [66961]); (67001, [66962]); (67003, [66964]); (67004, [66965]);
   (68800, [68736]); (68801, [68737]); (68802, [68738]); (68803, [68739]);
   (68804, [68740]); (68805, [68741]); (68806, [68742]); (68807, [68743]);
   (68808, [68744]); (68809, [68745]); (68810, [68746]); (68811, [68747]);
   (68812, [68748]); (68813, [68749]); (68814, [68750]); (68815, [68751]);
   (68816, [68752]); (68817, [68753]); (68818, [68754]); (68819, [68755]);
   (68820, [68756]); (68821, [68757]); (68822, [68758]); (68823, [68759]);
   (68824, [68760]); (68825, [68761]); (68826, [68762]); (68827, [68763]);
   (68828, [68764]); (68829, [68765]); (68830, [68766]); (68831, [68767]);
   (68832, [68768]); (68833, [68769]); (68834, [68770]); (68835, [68771]);
   (68836, [68772]); (68837, [68773]); (68838, [68774]); (68839, [68775]);
   (68840, [68776]); (68841, [68777]); (68842, [68778]); (68843, [68779]);
   (68844, [68780]); (68845, [68781]); (68846, [68782]); (68847, [68783]);
   (68848, [68784]); (68849, [68785]); (68850, [68786]); (71872, [71840]);
   (71873, [71841]); (71874, [71842]); (71875, [71843]); (71876, [71844]);
   (71877, [71845]); (71878, [71846]); (71879, [71847]); (71880, [71848]);
   (71881, [71849]); (71882, [71850]); (71883, [71851]); (71884, [71852]);
   (71885, [71853]); (71886, [71854]); (71887, [71855]); (71888, [71856]);
   (71889, [71857]); (71890, [71858]); (71891, [71859]); (71892, [71860]);
   (71893, [71861]); (71894, [71862]); (71895, [71863]); (71896, [71864]);
   (71897, [71865]); (71898, [71866]); (71899, [71867]); (71900, [71868]);
   (71901, [71869]); (71902, [71870]); (71903, [71871]); (93792, [93760]);
   (93793, [93761]); (93794, [93762]); (93795, [93763]); (93796, [93764]);
   (93797, [93765]); (93798, [93766]); (93799, [93767]); (93800, [93768]);
   (93801, [93769]); (93802, [93770]); (93803, [93771]); (93804, [93772]);
   (93805, [93773]); (93806, [93774]); (93807, [93775]); (93808, [93776]);
   (93809, [93777]); (93810, [93778]); (93811, [93779]); (93812, [93780]);
   (93813, [93781]); (93814, [93782]); (93815, [93783]); (93816, [93784]);
   (93817, [93785]); (93818, [93786]); (93819, [93787]); (93820, [93788]);
   (93821, [93789]); (93822, [93790]); (93823, [93791]); (125218, [125184]);
   (125219, [125185]); (125220, [125186]); (125221, [125187]);
   (125222, [125188]); (125223, [125189]); (125224, [125190]);
   (125225, [125191]); (125226, [125192]); (125227, [125193]);
   (125228, [125194]); (125229, [125195]); (125230, [125196]);
   (125231, [125197]); (125232, [125198]); (125233, [125199]);
   (125234, [125200]); (125235, [125201]); (125236, [125202]);
   (125237, [125203]); (125238, [125204]); (125239, [125205]);
   (125240, [125206]); (125241, [125207]); (125242, [125208]);
   (125243, [125209]); (125244, [125210]); (125245, [125211]);
   (125246, [125212]); (125247, [125213]); (125248, [125214]);
   (125249, [125215]); (125250, [125216]); (125251, [125217])].

Fixpoint mapping_of (cp : N) (table : list (N * list N)) : option (list N) :=
  match table with
  | [] => None
  | (c, upper) :: table' => if c =? cp then Some upper else mapping_of cp table'
  end.

Definition Uppercase_Mapping (cp : N) : list N :=
  if is_lower cp then [cp - 32]
  else default [cp] (mapping_of cp UPPERCASE_MAPPING).

(** The code units that a code point becomes. *)
Definition toUpperCase_point (cp : N) : jsstring :=
  Uppercase_Mapping cp ≫= code_units.

Fixpoint toUpperCase (s : jsstring) : jsstring :=
  match s with
  | [] => []
  | c :: s' =>
      match s' with
      | d :: s'' =>
          if is_high_surrogate c && is_low_surrogate d
          then toUpperCase_point (code_point c d) ++ toUpperCase s''
          else toUpperCase_point c ++ toUpperCase s'
      | [] => toUpperCase_point c
      end
  end.

(** White space and line terminators of ECMAScript, as removed by
    [String.prototype.trim]. *)
Definition is_white_space (c : jschar) : bool :=
  (c =? 9) || (c =? 10) || (c =? 11) || (c =? 12) || (c =? 13) || (c =? 32)
  || (c =? 160) || (c =? 5760) || ((8192 <=? c) && (c <=? 8202))
  || (c =? 8232) || (c =? 8233) || (c =? 8239) || (c =? 8287)
  || (c =? 12288) || (c =? 65279).

Fixpoint trimStart (s : jsstring) : jsstring :=
  match s with
  | c :: s' => if is_white_space c then trimStart s' else s
  | [] => []
  end.

Definition trimEnd (s : jsstring) : jsstring := reverse (trimStart (reverse s)).

Definition trim (s : jsstring) : jsstring := trimEnd (trimStart s).

(** Truthiness of a string: the empty string is falsy. *)
Definition truthy (s : jsstring) : bool :=
  match s with [] => false | _ :: _ => true end.

(** [n.toString()] for a non-negative integer: its decimal digits. *)
Fixpoint uint_digits (d : Decimal.uint) : jsstring :=
  match d with
  | Decimal.Nil => []
  | Decimal.D0 d => 48 :: uint_digits d
  | Decimal.D1 d => 49 :: uint_digits d
  | Decimal.D2 d => 50 :: uint_digits d
  | Decimal.D3 d => 51 :: uint_digits d
  | Decimal.D4 d => 52 :: uint_digits d
  | Decimal.D5 d => 53 :: uint_digits d
  | Decimal.D6 d => 54 :: uint_digits d
  | Decimal.D7 d => 55 :: uint_digits d
  | Decimal.D8 d => 56 :: uint_digits d
  | Decimal.D9 d => 57 :: uint_digits d
  end.

Definition toString10 (n : N) : jsstring := uint_digits (N.to_uint n).

(** ** The session identifier

    [Math.random()] returns a double in [[0, 1)]; the engines draw a multiple
    of [2^-53], written here as its numerator [m] with [m < 2^53]. *)

Definition RANDOM_DENOMINATOR : N := 2 ^ 53.

Definition random_ok (m : N) : Prop := m < RANDOM_DENOMINATOR.

(** *** Doubles

    IEEE 754 binary64 values and their operations, rounding to nearest with
    ties to even, as the Standard Library specifies them. *)

Definition double : Type := SpecFloat.spec_float.

Definition double_mul : double → double → double := SpecFloat.SFmul 53 1024.
Definition double_add : double → double → double := SpecFloat.SFadd 53 1024.
Definition double_sub : double → double → double := SpecFloat.SFsub 53 1024.
Definition double_lt : double → double → bool := SpecFloat.SFltb.
Definition double_le : double → double → bool := SpecFloat.SFleb.
Definition double_eq : double → double → bool := SpecFloat.SFeqb.

(** The double [n * 2^e], rounded. *)
Definition double_of (n : N) (e : Z) : double :=
  SpecFloat.binary_normalize 53 1024 (Z.of_N n) e false.

(** [Double(x).NextDouble()] *)
Definition NextDouble (x : double) : double := SpecFloat.SFsucc 53 1024 x.

(** [static_cast<int>(x)] on a double that is not negative: its integer
    part. *)
Definition double_to_int (x : double) : N :=
  match x with
  | SpecFloat.S754_finite false m e =>
      match e with
      | Z0 => Npos m
      | Zpos p => N.shiftl (Npos m) (Npos p)
      | Zneg p => N.shiftr (Npos m) (Npos p)
      end
  | _ => 0
  end.

(** The value that [Math.random()] returns for the draw [m]. *)
Definition random_value (m : N) : double := double_of m (-53).

(** *** [Number.prototype.toString(36)]

    ECMAScript leaves the digits of [toString(radix)] to the implementation
    and asks for a generalisation of its decimal algorithm, which prints the
    shortest digits that identify the double. What follows is the algorithm
    of V8, the engine of Chrome, Edge and Node ([DoubleToRadixCString]), for
    a value of [[0, 1)]: fraction digits are written while the remainder is
    not below [delta], half the distance to the next double; the last digit
    is rounded, with a carry into the digits before it. *)

(** The digit characters of radix 36: [0-9] then [a-z]. *)
Definition digit36 (d : N) : jschar := if d <? 10 then 48 + d else 87 + d.

(** The carry of the rounding, over the digits written so far, the last one
    first: a digit [z] is dropped and the one before it is raised; [None]
    when the carry reaches the integer part. *)
Fixpoint carry_over (written : list N) : option (list N) :=
  match written with
  | [] => None
  | d :: rest => if d + 1 <? 36 then Some (d + 1 :: rest) else carry_over rest
  end.

(** The [do ... while (fraction >= delta)] loop; [written] holds the digits
    written so far, the last one first. *)
Fixpoint fraction_digits36
    (fuel : nat) (fraction delta : double) (written : list N)
    : option (list N) :=
  match fuel with
  | O => Some written
  | S fuel' =>
      let fraction := double_mul fraction (double_of 36 0) in
      let delta := double_mul delta (double_of 36 0) in
      let digit := double_to_int fraction in
      let written := digit :: written in
      let fraction := double_sub fraction (double_of digit 0) in
      if (double_lt (double_of 1 (-1)) fraction
          || double_eq fraction (double_of 1 (-1)) && N.odd digit)
         && double_lt (double_of 1 0) (double_add fraction delta)
      then carry_over written
      else if double_le delta fraction
           then fraction_digits36 fuel' fraction delta written
           else Some written
  end.

(** [Math.random().toString(36)] for the draw [m]: ["0"] when no digit is
    written, ["0."] and the digits otherwise, ["1"] when the rounding
    carries into the integer part. The buffer of V8 has room for 1100
    fraction digits. *)
Definition toString36 (m : N) : jsstring :=
  let value := random_value m in
  let delta :=
    double_mul (double_of 1 (-1)) (double_sub (NextDouble value) value) in
  let delta :=
    if double_lt delta (NextDouble (SpecFloat.S754_zero false))
    then NextDouble (SpecFloat.S754_zero false) else delta in
  if double_le delta value then
    match fraction_digits36 1100 value delta [] with
    | Some written => js "0." ++ (digit36 <$> reverse written)
    | None => js "1"
    end
  else js "0".

(** [Math.random().toString(36).substring(2, 8).toUpperCase()] *)
Definition generate_id (m : N) : jsstring :=
  toUpperCase (substring 2 8 (toString36 m)).


(** ** The message log *)

Inductive Sender := sender_me | sender_remote | sender_system.

Inductive MessageType := type_text | type_file | type_system.

Record Message := mkMessage {
  msg_id : jsstring;
  sender : Sender;
  msg_type : MessageType;
  content : jsstring;
  timestamp : N;
  fileName : option jsstring;
  fileSize : option N;
  fileData : option (list byte);
}.

(** What one appended message reads from the clock and the random source:
    [Date.now()] for the id, the text that [Math.random()] contributes to the
    id by string concatenation, and [Date.now()] again for the timestamp. *)
Record Tick := mkTick {
  id_now : N;
  id_random : jsstring;
  stamp_now : N;
}.

(** ** Frames of the data channel

    The frames that the component sends ([sendMessage], [sendFile]), and a
    frame of any other type. The [data] listener takes [data: any] and reads
    the fields of a frame without checking them; what it does with a frame
    of one of the three types that lacks a field is not modelled, and no
    property below rests on the fields of a received frame being there. *)

Inductive Frame :=
  | frame_text (content : jsstring)
  | frame_file_start (fileName : jsstring) (fileSize : N)
  | frame_file (file : list byte) (fileName : jsstring) (fileSize : N)
  | frame_other (type : jsstring).

(** A [File] of the browser: [size] is the number of its bytes. *)
Record File := mkFile {
  name : jsstring;
  file_bytes : list byte;
}.

Definition size (f : File) : N := N.of_nat (length (file_bytes f)).

(** ** Connection and call states *)

Inductive Status := disconnected | connecting | connected.

Inductive CallState := idle | calling | incoming | active.

Inductive CallMode := audio | video.

(** ** Objects of PeerJS and of the browser *)

(** A [DataConnection]: the remote id and the frames handed to [send], in
    order. [handleDataConnection] registers its four listeners on every
    connection at the moment the component obtains it, so an event on a
    connection always reaches them. *)
Record DataConnection := mkDataConnection {
  dc_peer : jsstring;
  dc_sent : list Frame;
}.

(** A [MediaConnection]: the remote id, the mode of its metadata, how many
    times [setupMediaCall] registered its listeners on it, whether [answer]
    and [close] were called on it. *)
Record MediaConnection := mkMediaConnection {
  mc_peer : jsstring;
  mc_metadata : option CallMode;
  mc_listeners : nat;
  mc_answered : bool;
  mc_closed : bool;
}.

Inductive TrackKind := kind_audio | kind_video.

Inductive ReadyState := live | ended.

Record MediaStreamTrack := mkTrack {
  kind : TrackKind;
  enabled : bool;
  readyState : ReadyState;
}.

(** A local [MediaStream] from [getUserMedia]. *)
Record MediaStream := mkMediaStream {
  getTracks : list MediaStreamTrack;
}.

(** What a media element plays: a local stream of the store, or the remote
    stream of a call. *)
Inductive StreamRef := local_stream (i : nat) | remote_stream (r : nat).

Record MediaElement := mkMediaElement {
  srcObject : option StreamRef;
}.

Record Peer := mkPeer {
  peer_id : jsstring;
}.

(** What is captured by a promise that has not settled: the rest of
    [startCall] and of [answerCall] after [getUserMedia], and [reader.onload]
    of [sendFile]. *)
Inductive Continuation :=
  | K_startCall (mode : CallMode) (targetId : jsstring)
  | K_answerCall (call : nat) (callMode : CallMode)
  | K_fileRead (conn : nat) (file : File).

(** ** The component with calls

    The state of [WebrtcApp]: the values of [useState], the [current] of
    each [useRef] (a media element ref is [None] while its element is not
    mounted), the stores of the objects the component holds references to,
    and the promises that have not settled. The counters that only feed the
    display ([callDuration], [copied], [isDragging]) are left out. *)

Module WebrtcApp.

Record State := mkState {
  peerId : jsstring;
  targetId : jsstring;
  connection : option nat;
  status : Status;
  messages : list Message;
  inputText : jsstring;
  callState : CallState;
  callMode : CallMode;
  isMuted : bool;
  isCamOff : bool;
  peerRef : option Peer;
  connectionRef : option nat;
  mediaCallRef : option nat;
  localStreamRef : option nat;
  localVideoRef : option MediaElement;
  remoteVideoRef : option MediaElement;
  remoteAudioRef : option MediaElement;
  dataConnections : list DataConnection;
  mediaConnections : list MediaConnection;
  mediaStreams : list MediaStream;
  pending : list Continuation;
}.

Definition set_peerId (v : jsstring) (s : State) : State :=
  {| peerId := v; targetId := targetId s; connection := connection s;
     status := status s; messages := messages s; inputText := inputText s;
     callState := callState s; callMode := callMode s; isMuted := isMuted s;
     isCamOff := isCamOff s; peerRef := peerRef s;
     connectionRef := connectionRef s; mediaCallRef := mediaCallRef s;
     localStreamRef := localStreamRef s; localVideoRef := localVideoRef s;
     remoteVideoRef := remoteVideoRef s; remoteAudioRef := remoteAudioRef s;
     dataConnections := dataConnections s;
     mediaConnections := mediaConnections s; mediaStreams := mediaStreams s;
     pending := pending s |}.

Definition set_targetId (v : jsstring) (s : State) : State :=
  {| peerId := peerId s; targetId := v; connection := connection s;
     status := status s; messages := messages s; inputText := inputText s;
     callState := callState s; callMode := callMode s; isMuted := isMuted s;
     isCamOff := isCamOff s; peerRef := peerRef s;
     connectionRef := connectionRef s; mediaCallRef := mediaCallRef s;
     localStreamRef := localStreamRef s; localVideoRef := localVideoRef s;
     remoteVideoRef := remoteVideoRef s; remoteAudioRef := remoteAudioRef s;
     dataConnections := dataConnections s;
     mediaConnections := mediaConnections s; mediaStreams := mediaStreams s;
     pending := pending s |}.

Definition set_connection (v : option nat) (s : State) : State :=
  {| peerId := peerId s; targetId := targetId s; connection := v;
     status := status s; messages := messages s; inputText := inputText s;
     callState := callState s; callMode := callMode s; isMuted := isMuted s;
     isCamOff := isCamOff s; peerRef := peerRef s;
     connectionRef := connectionRef s; mediaCallRef := mediaCallRef s;
     localStreamRef := localStreamRef s; localVideoRef := localVideoRef s;
     remoteVideoRef := remoteVideoRef s; remoteAudioRef := remoteAudioRef s;
     dataConnections := dataConnections s;
     mediaConnections := mediaConnections s; mediaStreams := mediaStreams s;
     pending := pending s |}.

Definition set_status (v : Status) (s : State) : State :=
  {| peerId := peerId s; targetId := targetId s; connection := connection s;
     status := v; messages := messages s; inputText := inputText s;
     callState := callState s; callMode := callMode s; isMuted := isMuted s;
     isCamOff := isCamOff s; peerRef := peerRef s;
     connectionRef := connectionRef s; mediaCallRef := mediaCallRef s;
     localStreamRef := localStreamRef s; localVideoRef := localVideoRef s;
     remoteVideoRef := remoteVideoRef s; remoteAudioRef := remoteAudioRef s;
     dataConnections := dataConnections s;
     mediaConnections := mediaConnections s; mediaStreams := mediaStreams s;
     pending := pending s |}.

Definition set_messages (v : list Message) (s : State) : State :=
  {| peerId := peerId s; targetId := targetId s; connection := connection s;
     status := status s; messages := v; inputText := inputText s;
     callState := callState s; callMode := callMode s; isMuted := isMuted s;
     isCamOff := isCamOff s; peerRef := peerRef s;
     connectionRef := connectionRef s; mediaCallRef := mediaCallRef s;
     localStreamRef := localStreamRef s; localVideoRef := localVideoRef s;
     remoteVideoRef := remoteVideoRef s; remoteAudioRef := remoteAudioRef s;
     dataConnections := dataConnections s;
     mediaConnections := mediaConnections s; mediaStreams := mediaStreams s;
     pending := pending s |}.

Definition set_inputText (v : jsstring) (s : State) : State :=
  {| peerId := peerId s; targetId := targetId s; connection := connection s;
     status := status s; messages := messages s; inputText := v;
     callState := callState s; callMode := callMode s; isMuted := isMuted s;
     isCamOff := isCamOff s; peerRef := peerRef s;
     connectionRef := connectionRef s; mediaCallRef := mediaCallRef s;
     localStreamRef := localStreamRef s; localVideoRef := localVideoRef s;
     remoteVideoRef := remoteVideoRef s; remoteAudioRef := remoteAudioRef s;
     dataConnections := dataConnections s;
     mediaConnections := mediaConnections s; mediaStreams := mediaStreams s;
     pending := pending s |}.

Definition set_callState (v : CallState) (s : State) : State :=
  {| peerId := peerId s; targetId := targetId s; connection := connection s;
     status := status s; messages := messages s; inputText := inputText s;
     callState := v; callMode := callMode s; isMuted := isMuted s;
     isCamOff := isCamOff s; peerRef := peerRef s;
     connectionRef := connectionRef s; mediaCallRef := mediaCallRef s;
     localStreamRef := localStreamRef s; localVideoRef := localVideoRef s;
     remoteVideoRef := remoteVideoRef s; remoteAudioRef := remoteAudioRef s;
     dataConnections := dataConnections s;
     mediaConnections := mediaConnections s; mediaStreams := mediaStreams s;
     pending := pending s |}.

Definition set_callMode (v : CallMode) (s : State) : State :=
  {| peerId := peerId s; targetId := targetId s; connection := connection s;
     status := status s; messages := messages s; inputText := inputText s;
     callState := callState s; callMode := v; isMuted := isMuted s;
     isCamOff := isCamOff s; peerRef := peerRef s;
     connectionRef := connectionRef s; mediaCallRef := mediaCallRef s;
     localStreamRef := localStreamRef s; localVideoRef := localVideoRef s;
     remoteVideoRef := remoteVideoRef s; remoteAudioRef := remoteAudioRef s;
     dataConnections := dataConnections s;
     mediaConnections := mediaConnections s; mediaStreams := mediaStreams s;
     pending := pending s |}.

Definition set_isMuted (v : bool) (s : State) : State :=
  {| peerId := peerId s; targetId := targetId s; connection := connection s;
     status := status s; messages := messages s; inputText := inputText s;
     callState := callState s; callMode := callMode s; isMuted := v;
     isCamOff := isCamOff s; peerRef := peerRef s;
     connectionRef := connectionRef s; mediaCallRef := mediaCallRef s;
     localStreamRef := localStreamRef s; localVideoRef := localVideoRef s;
     remoteVideoRef := remoteVideoRef s; remoteAudioRef := remoteAudioRef s;
     dataConnections := dataConnections s;
     mediaConnections := mediaConnections s; mediaStreams := mediaStreams s;
     pending := pending s |}.

Definition set_isCamOff (v : bool) (s : State) : State :=
  {| peerId := peerId s; targetId := targetId s; connection := connection s;
     status := status s; messages := messages s; inputText := inputText s;
     callState := callState s; callMode := callMode s; isMuted := isMuted s;
     isCamOff := v; peerRef := peerRef s; connectionRef := connectionRef s;
     mediaCallRef := mediaCallRef s; localStreamRef := localStreamRef s;
     localVideoRef := localVideoRef s; remoteVideoRef := remoteVideoRef s;
     remoteAudioRef := remoteAudioRef s;
     dataConnections := dataConnections s;
     mediaConnections := mediaConnections s; mediaStreams := mediaStreams s;
     pending := pending s |}.

Definition set_peerRef (v : option Peer) (s : State) : State :=
  {| peerId := peerId s; targetId := targetId s; connection := connection s;
     status := status s; messages := messages s; inputText := inputText s;
     callState := callState s; callMode := callMode s; isMuted := isMuted s;
     isCamOff := isCamOff s; peerRef := v; connectionRef := connectionRef s;
     mediaCallRef := mediaCallRef s; localStreamRef := localStreamRef s;
     localVideoRef := localVideoRef s; remoteVideoRef := remoteVideoRef s;
     remoteAudioRef := remoteAudioRef s;
     dataConnections := dataConnections s;
     mediaConnections := mediaConnections s; mediaStreams := mediaStreams s;
     pending := pending s |}.

Definition set_connectionRef (v : option nat) (s : State) : State :=
  {| peerId := peerId s; targetId := targetId s; connection := connection s;
     status := status s; messages := messages s; inputText := inputText s;
     callState := callState s; callMode := callMode s; isMuted := isMuted s;
     isCamOff := isCamOff s; peerRef := peerRef s; connectionRef := v;
     mediaCallRef := mediaCallRef s; localStreamRef := localStreamRef s;
     localVideoRef := localVideoRef s; remoteVideoRef := remoteVideoRef s;
     remoteAudioRef := remoteAudioRef s;
     dataConnections := dataConnections s;
     mediaConnections := mediaConnections s; mediaStreams := mediaStreams s;
     pending := pending s |}.

Definition set_mediaCallRef (v : option nat) (s : State) : State :=
  {| peerId := peerId s; targetId := targetId s; connection := connection s;
     status := status s; messages := messages s; inputText := inputText s;
     callState := callState s; callMode := callMode s; isMuted := isMuted s;
     isCamOff := isCamOff s; peerRef := peerRef s;
     connectionRef := connectionRef s; mediaCallRef := v;
     localStreamRef := localStreamRef s; localVideoRef := localVideoRef s;
     remoteVideoRef := remoteVideoRef s; remoteAudioRef := remoteAudioRef s;
     dataConnections := dataConnections s;
     mediaConnections := mediaConnections s; mediaStreams := mediaStreams s;
     pending := pending s |}.

Definition set_localStreamRef (v : option nat) (s : State) : State :=
  {| peerId := peerId s; targetId := targetId s; connection := connection s;
     status := status s; messages := messages s; inputText := inputText s;
     callState := callState s; callMode := callMode s; isMuted := isMuted s;
     isCamOff := isCamOff s; peerRef := peerRef s;
     connectionRef := connectionRef s; mediaCallRef := mediaCallRef s;
     localStreamRef := v; localVideoRef := localVideoRef s;
     remoteVideoRef := remoteVideoRef s; remoteAudioRef := remoteAudioRef s;
     dataConnections := dataConnections s;
     mediaConnections := mediaConnections s; mediaStreams := mediaStreams s;
     pending := pending s |}.

Definition set_localVideoRef (v : option MediaElement) (s : State) : State :=
  {| peerId := peerId s; targetId := targetId s; connection := connection s;
     status := status s; messages := messages s; inputText := inputText s;
     callState := callState s; callMode := callMode s; isMuted := isMuted s;
     isCamOff := isCamOff s; peerRef := peerRef s;
     connectionRef := connectionRef s; mediaCallRef := mediaCallRef s;
     localStreamRef := localStreamRef s; localVideoRef := v;
     remoteVideoRef := remoteVideoRef s; remoteAudioRef := remoteAudioRef s;
     dataConnections := dataConnections s;
     mediaConnections := mediaConnections s; mediaStreams := mediaStreams s;
     pending := pending s |}.

Definition set_remoteVideoRef (v : option MediaElement) (s : State) : State :=
  {| peerId := peerId s; targetId := targetId s; connection := connection s;
     status := status s; messages := messages s; inputText := inputText s;
     callState := callState s; callMode := callMode s; isMuted := isMuted s;
     isCamOff := isCamOff s; peerRef := peerRef s;
     connectionRef := connectionRef s; mediaCallRef := mediaCallRef s;
     localStreamRef := localStreamRef s; localVideoRef := localVideoRef s;
     remoteVideoRef := v; remoteAudioRef := remoteAudioRef s;
     dataConnections := dataConnections s;
     mediaConnections := mediaConnections s; mediaStreams := mediaStreams s;
     pending := pending s |}.

Definition set_remoteAudioRef (v : option MediaElement) (s : State) : State :=
  {| peerId := peerId s; targetId := targetId s; connection := connection s;
     status := status s; messages := messages s; inputText := inputText s;
     callState := callState s; callMode := callMode s; isMuted := isMuted s;
     isCamOff := isCamOff s; peerRef := peerRef s;
     connectionRef := connectionRef s; mediaCallRef := mediaCallRef s;
     localStreamRef := localStreamRef s; localVideoRef := localVideoRef s;
     remoteVideoRef := remoteVideoRef s; remoteAudioRef := v;
     dataConnections := dataConnections s;
     mediaConnections := mediaConnections s; mediaStreams := mediaStreams s;
     pending := pending s |}.

Definition set_dataConnections (v : list DataConnection) (s : State) : State :=
  {| peerId := peerId s; targetId := targetId s; connection := connection s;
     status := status s; messages := messages s; inputText := inputText s;
     callState := callState s; callMode := callMode s; isMuted := isMuted s;
     isCamOff := isCamOff s; peerRef := peerRef s;
     connectionRef := connectionRef s; mediaCallRef := mediaCallRef s;
     localStreamRef := localStreamRef s; localVideoRef := localVideoRef s;
     remoteVideoRef := remoteVideoRef s; remoteAudioRef := remoteAudioRef s;
     dataConnections := v; mediaConnections := mediaConnections s;
     mediaStreams := mediaStreams s; pending := pending s |}.

Definition set_mediaConnections (v : list MediaConnection) (s : State) : State :=
  {| peerId := peerId s; targetId := targetId s; connection := connection s;
     status := status s; messages := messages s; inputText := inputText s;
     callState := callState s; callMode := callMode s; isMuted := isMuted s;
     isCamOff := isCamOff s; peerRef := peerRef s;
     connectionRef := connectionRef s; mediaCallRef := mediaCallRef s;
     localStreamRef := localStreamRef s; localVideoRef := localVideoRef s;
     remoteVideoRef := remoteVideoRef s; remoteAudioRef := remoteAudioRef s;
     dataConnections := dataConnections s; mediaConnections := v;
     mediaStreams := mediaStreams s; pending := pending s |}.

Definition set_mediaStreams (v : list MediaStream) (s : State) : State :=
  {| peerId := peerId s; targetId := targetId s; connection := connection s;
     status := status s; messages := messages s; inputText := inputText s;
     callState := callState s; callMode := callMode s; isMuted := isMuted s;
     isCamOff := isCamOff s; peerRef := peerRef s;
     connectionRef := connectionRef s; mediaCallRef := mediaCallRef s;
     localStreamRef := localStreamRef s; localVideoRef := localVideoRef s;
     remoteVideoRef := remoteVideoRef s; remoteAudioRef := remoteAudioRef s;
     dataConnections := dataConnections s;
     mediaConnections := mediaConnections s; mediaStreams := v;
     pending := pending s |}.

Definition set_pending (v : list Continuation) (s : State) : State :=
  {| peerId := peerId s; targetId := targetId s; connection := connection s;
     status := status s; messages := messages s; inputText := inputText s;
     callState := callState s; callMode := callMode s; isMuted := isMuted s;
     isCamOff := isCamOff s; peerRef := peerRef s;
     connectionRef := connectionRef s; mediaCallRef := mediaCallRef s;
     localStreamRef := localStreamRef s; localVideoRef := localVideoRef s;
     remoteVideoRef := remoteVideoRef s; remoteAudioRef := remoteAudioRef s;
     dataConnections := dataConnections s;
     mediaConnections := mediaConnections s; mediaStreams := mediaStreams s;
     pending := v |}.

(** *** Texts of the notices (UTF-16 code units of the literals) *)

(** ["已与 "] *)
Definition txt_connected_with : jsstring := [24050; 19982; 32].
(** [" 建立数据通道"] *)
Definition txt_channel_up : jsstring :=
  [32; 24314; 31435; 25968; 25454; 36890; 36947].
(** [" 正在发送文件: "] *)
Definition txt_is_sending_file : jsstring :=
  [32; 27491; 22312; 21457; 36865; 25991; 20214; 58; 32].
(** ["文件已接收"] *)
Definition txt_file_received : jsstring := [25991; 20214; 24050; 25509; 25910].
(** ["文件已发送"] *)
Definition txt_file_sent : jsstring := [25991; 20214; 24050; 21457; 36865].
(** ["数据通道已断开"] *)
Definition txt_channel_closed : jsstring :=
  [25968; 25454; 36890; 36947; 24050; 26029; 24320].
(** ["连接错误: "] *)
Definition txt_connection_error : jsstring :=
  [36830; 25509; 38169; 35823; 58; 32].
(** ["连接异常: "] *)
Definition txt_peer_error : jsstring := [36830; 25509; 24322; 24120; 58; 32].
(** ["找不到该 ID，请确认对方在线"] *)
Definition txt_peer_unavailable : jsstring :=
  [25214; 19981; 21040; 35813; 32; 73; 68; 65292; 35831; 30830; 35748; 23545;
   26041; 22312; 32447].
(** ["收到来自 "] *)
Definition txt_received_from : jsstring := [25910; 21040; 26469; 33258; 32].
(** [" 的"] *)
Definition txt_of : jsstring := [32; 30340].
(** ["视频"] *)
Definition txt_video : jsstring := [35270; 39057].
(** ["语音"] *)
Definition txt_audio : jsstring := [35821; 38899].
(** ["通话请求"] *)
Definition txt_call_request : jsstring := [36890; 35805; 35831; 27714].
(** ["通话已接通"] *)
Definition txt_call_connected : jsstring :=
  [36890; 35805; 24050; 25509; 36890].
(** ["对方已挂断"] *)
Definition txt_remote_hung_up : jsstring :=
  [23545; 26041; 24050; 25346; 26029].
(** ["通话错误: "] *)
Definition txt_call_error : jsstring := [36890; 35805; 38169; 35823; 58; 32].
(** ["正在呼叫 "] *)
Definition txt_calling : jsstring := [27491; 22312; 21628; 21483; 32].
(** ["视频通话"] *)
Definition txt_video_call : jsstring := [35270; 39057; 36890; 35805].
(** ["语音通话"] *)
Definition txt_audio_call : jsstring := [35821; 38899; 36890; 35805].
(** [")…"] *)
Definition txt_close_paren_ellipsis : jsstring := [41; 8230].
(** ["无法获取媒体设备: "] *)
Definition txt_no_media_device : jsstring :=
  [26080; 27861; 33719; 21462; 23186; 20307; 35774; 22791; 58; 32].
(** ["已拒绝通话"] *)
Definition txt_call_rejected : jsstring :=
  [24050; 25298; 32477; 36890; 35805].
(** ["通话已结束"] *)
Definition txt_call_ended : jsstring := [36890; 35805; 24050; 32467; 26463].

(** *** Helpers *)

Definition append_message (m : Message) (s : State) : State :=
  set_messages (messages s ++ [m]) s.

(** [id: Date.now().toString() + Math.random()] *)
Definition system_message (text : jsstring) (tk : Tick) : Message :=
  {| msg_id := toString10 (id_now tk) ++ id_random tk;
     sender := sender_system; msg_type := type_system; content := text;
     timestamp := stamp_now tk;
     fileName := None; fileSize := None; fileData := None |}.

Definition addSystemMessage (text : jsstring) (tk : Tick) (s : State) : State :=
  append_message (system_message text tk) s.

(** [t.stop()] *)
Definition stop (t : MediaStreamTrack) : MediaStreamTrack :=
  {| kind := kind t; enabled := enabled t; readyState := ended |}.

Definition stop_all (ms : MediaStream) : MediaStream :=
  {| getTracks := stop <$> getTracks ms |}.

Definition stopLocalStream (s : State) : State :=
  match localStreamRef s with
  | Some i =>
      set_localStreamRef None
        (set_mediaStreams (alter stop_all i (mediaStreams s)) s)
  | None => s
  end.

(** *** Data connection *)

(** [conn.send(data)] *)
Definition send (conn : nat) (data : Frame) (s : State) : State :=
  set_dataConnections
    (alter (λ dc, {| dc_peer := dc_peer dc; dc_sent := dc_sent dc ++ [data] |})
       conn (dataConnections s)) s.

Definition remote_text_message (text : jsstring) (tk : Tick) : Message :=
  {| msg_id := toString10 (id_now tk) ++ id_random tk;
     sender := sender_remote; msg_type := type_text; content := text;
     timestamp := stamp_now tk;
     fileName := None; fileSize := None; fileData := None |}.

Definition remote_file_message
    (file : list byte) (fname : jsstring) (fsize : N) (tk : Tick) : Message :=
  {| msg_id := toString10 (id_now tk) ++ id_random tk;
     sender := sender_remote; msg_type := type_file;
     content := txt_file_received;
     timestamp := stamp_now tk;
     fileName := Some fname; fileSize := Some fsize; fileData := Some file |}.

(** The body of [handleDataConnection]; its listeners follow. *)
Definition handleDataConnection (conn : nat) (s : State) : State :=
  set_connection (Some conn) (set_connectionRef (Some conn) s).

(** [conn.on('open', ...)] *)
Definition conn_on_open (peer : jsstring) (tk : Tick) (s : State) : State :=
  addSystemMessage (txt_connected_with ++ peer ++ txt_channel_up) tk
    (set_status connected s).

(** [conn.on('data', ...)] *)
Definition conn_on_data
    (peer : jsstring) (data : Frame) (tk : Tick) (s : State) : State :=
  match data with
  | frame_text c => append_message (remote_text_message c tk) s
  | frame_file_start fname _ =>
      addSystemMessage (peer ++ txt_is_sending_file ++ fname) tk s
  | frame_file file fname fsize =>
      append_message (remote_file_message file fname fsize tk) s
  | frame_other _ => s
  end.

(** [conn.on('close', ...)] *)
Definition conn_on_close (tk : Tick) (s : State) : State :=
  addSystemMessage txt_channel_closed tk
    (set_connectionRef None (set_connection None (set_status disconnected s))).

(** [conn.on('error', ...)] *)
Definition conn_on_error (message : jsstring) (tk : Tick) (s : State) : State :=
  addSystemMessage (txt_connection_error ++ message) tk
    (set_connectionRef None (set_connection None (set_status disconnected s))).

(** [peerRef.current.connect(id, { reliable: true })]: a new connection
    object, at the end of the store. *)
Definition peer_connect (id : jsstring) (s : State) : nat * State :=
  (length (dataConnections s),
   set_dataConnections
     (dataConnections s ++ [{| dc_peer := id; dc_sent := [] |}]) s).

Definition connectToPeer (s : State) : State :=
  match peerRef s with
  | None => s
  | Some _ =>
      if truthy (trim (targetId s)) then
        let s1 := set_status connecting s in
        let '(conn, s2) := peer_connect (trim (targetId s)) s1 in
        handleDataConnection conn s2
      else s
  end.

(** The connect button:
    [disabled={!targetId || status === 'connected' || status === 'connecting'}] *)
Definition connect_disabled (s : State) : bool :=
  negb (truthy (targetId s))
  || match status s with connected | connecting => true | disconnected => false end.

(** *** Media call helpers *)

(** [attachStream(ref, stream)]: nothing happens while the element is not
    mounted ([if (!ref.current) return]). *)
Definition attachStream
    (ref : option MediaElement) (stream : StreamRef) : option MediaElement :=
  match ref with
  | None => None
  | Some _ => Some {| srcObject := Some stream |}
  end.

(** [if (ref.current) ref.current.srcObject = null] *)
Definition detach (ref : option MediaElement) : option MediaElement :=
  match ref with
  | None => None
  | Some _ => Some {| srcObject := None |}
  end.

(** [call.metadata?.mode ?? 'audio'] *)
Definition metadata_mode (metadata : option CallMode) : CallMode :=
  default audio metadata.

(** [setupMediaCall(call, localStream)] registers the three listeners;
    [localStream] is not read. *)
Definition setupMediaCall (call : nat) (s : State) : State :=
  set_mediaConnections
    (alter (λ mc, {| mc_peer := mc_peer mc; mc_metadata := mc_metadata mc;
                     mc_listeners := S (mc_listeners mc);
                     mc_answered := mc_answered mc;
                     mc_closed := mc_closed mc |})
       call (mediaConnections s)) s.

(** [call.on('stream', ...)], for the [mode] the listener captured. *)
Definition call_on_stream
    (mode : CallMode) (remoteStream : nat) (tk : Tick) (s : State) : State :=
  let s1 :=
    match mode with
    | video =>
        set_remoteVideoRef
          (attachStream (remoteVideoRef s) (remote_stream remoteStream)) s
    | audio =>
        set_remoteAudioRef
          (attachStream (remoteAudioRef s) (remote_stream remoteStream)) s
    end in
  addSystemMessage txt_call_connected tk (set_callState active s1).

Definition handleCallEnded (reason : jsstring) (tk : Tick) (s : State) : State :=
  let s1 := stopLocalStream s in
  let s2 := set_localVideoRef (detach (localVideoRef s1)) s1 in
  let s3 := set_remoteVideoRef (detach (remoteVideoRef s2)) s2 in
  let s4 := set_remoteAudioRef (detach (remoteAudioRef s3)) s3 in
  let s5 := set_mediaCallRef None s4 in
  let s6 := set_callState idle s5 in
  let s7 := set_isMuted false s6 in
  let s8 := set_isCamOff false s7 in
  addSystemMessage reason tk s8.

(** [call.on('close', ...)] *)
Definition call_on_close (tk : Tick) (s : State) : State :=
  handleCallEnded txt_remote_hung_up tk s.

(** [call.on('error', ...)] *)
Definition call_on_error (message : jsstring) (tk : Tick) (s : State) : State :=
  handleCallEnded (txt_call_error ++ message) tk s.

(** The stream that [getUserMedia({ audio: true, video })] resolves with:
    one track for each requested kind, enabled and live. *)
Definition getUserMedia (with_video : bool) : MediaStream :=
  {| getTracks :=
       {| kind := kind_audio; enabled := true; readyState := live |}
       :: (if with_video
           then [{| kind := kind_video; enabled := true; readyState := live |}]
           else []) |}.

Definition is_video (mode : CallMode) : bool :=
  match mode with video => true | audio => false end.

(** *** Incoming call: [peer.on('call', ...)] *)

Definition peer_on_call
    (peer : jsstring) (metadata : option CallMode) (tk : Tick) (s : State)
    : State :=
  let call := length (mediaConnections s) in
  let s0 :=
    set_mediaConnections
      (mediaConnections s ++
         [{| mc_peer := peer; mc_metadata := metadata; mc_listeners := 0;
             mc_answered := false; mc_closed := false |}]) s in
  let s1 := set_mediaCallRef (Some call) s0 in
  let mode := metadata_mode metadata in
  let s2 := set_callMode mode s1 in
  let s3 := set_callState incoming s2 in
  addSystemMessage
    (txt_received_from ++ peer ++ txt_of
       ++ (if is_video mode then txt_video else txt_audio) ++ txt_call_request)
    tk s3.

(** *** Initiate call *)

(** [startCall(mode)] up to its [await]. *)
Definition startCall (mode : CallMode) (s : State) : State :=
  match peerRef s with
  | None => s
  | Some _ =>
      if truthy (trim (targetId s)) then
        set_pending (pending s ++ [K_startCall mode (targetId s)])
          (set_callState calling (set_callMode mode s))
      else s
  end.

(** The [catch] branch of [startCall] and of [answerCall]. *)
Definition media_failed (message : jsstring) (tk : Tick) (s : State) : State :=
  addSystemMessage (txt_no_media_device ++ message) tk (set_callState idle s).

(** What V8 reports when [peerRef.current] is [null] at
    [peerRef.current.call(...)]; the [try] block turns it into the [catch]
    branch. *)
Definition null_peer_message : jsstring :=
  js "Cannot read properties of null (reading 'call')".

(** The rest of [startCall] once [getUserMedia] resolved; [targetId] is the
    value its closure captured. *)
Definition startCall_resolved
    (mode : CallMode) (targetId : jsstring) (tk : Tick) (s : State) : State :=
  let stream := length (mediaStreams s) in
  let s1 := set_mediaStreams (mediaStreams s ++ [getUserMedia (is_video mode)]) s in
  let s2 := set_localStreamRef (Some stream) s1 in
  let s3 :=
    if is_video mode
    then set_localVideoRef (attachStream (localVideoRef s2) (local_stream stream)) s2
    else s2 in
  match peerRef s3 with
  | None => media_failed null_peer_message tk s3
  | Some _ =>
      let call := length (mediaConnections s3) in
      let s4 :=
        set_mediaConnections
          (mediaConnections s3 ++
             [{| mc_peer := trim targetId; mc_metadata := Some mode;
                 mc_listeners := 0; mc_answered := false;
                 mc_closed := false |}]) s3 in
      let s5 := set_mediaCallRef (Some call) s4 in
      let s6 := setupMediaCall call s5 in
      addSystemMessage
        (txt_calling ++ trim targetId ++ js " ("
           ++ (if is_video mode then txt_video_call else txt_audio_call)
           ++ txt_close_paren_ellipsis)
        tk s6
  end.

(** *** Answer incoming call *)

(** [answerCall()] up to its [await]. *)
Definition answerCall (s : State) : State :=
  match mediaCallRef s with
  | None => s
  | Some call => set_pending (pending s ++ [K_answerCall call (callMode s)]) s
  end.

(** [call.answer(stream)] *)
Definition answer (call : nat) (s : State) : State :=
  set_mediaConnections
    (alter (λ mc, {| mc_peer := mc_peer mc; mc_metadata := mc_metadata mc;
                     mc_listeners := mc_listeners mc;
                     mc_answered := true;
                     mc_closed := mc_closed mc |})
       call (mediaConnections s)) s.

(** The rest of [answerCall] once [getUserMedia] resolved; [call] and
    [callMode] are the values its closure captured. *)
Definition answerCall_resolved
    (call : nat) (callMode : CallMode) (s : State) : State :=
  let stream := length (mediaStreams s) in
  let s1 :=
    set_mediaStreams (mediaStreams s ++ [getUserMedia (is_video callMode)]) s in
  let s2 := set_localStreamRef (Some stream) s1 in
  let s3 :=
    if is_video callMode
    then set_localVideoRef (attachStream (localVideoRef s2) (local_stream stream)) s2
    else s2 in
  setupMediaCall call (answer call s3).

(** *** Reject / hang up *)

(** [mediaCallRef.current?.close()]. The [close] event that PeerJS emits on
    a call it closes reaches the component as a [CallClose] event. *)
Definition close_current_call (s : State) : State :=
  match mediaCallRef s with
  | None => s
  | Some call =>
      set_mediaConnections
        (alter (λ mc, {| mc_peer := mc_peer mc; mc_metadata := mc_metadata mc;
                         mc_listeners := mc_listeners mc;
                         mc_answered := mc_answered mc;
                         mc_closed := true |})
           call (mediaConnections s)) s
  end.

Definition rejectCall (tk : Tick) (s : State) : State :=
  addSystemMessage txt_call_rejected tk
    (set_callState idle (set_mediaCallRef None (close_current_call s))).

Definition hangUp (tk : Tick) (s : State) : State :=
  handleCallEnded txt_call_ended tk (close_current_call s).

(** *** In-call controls *)

(** [t.enabled = v] on every track of one kind. *)
Definition set_enabled (k : TrackKind) (v : bool) (ms : MediaStream) : MediaStream :=
  {| getTracks :=
       (λ t, match k, kind t with
             | kind_audio, kind_audio | kind_video, kind_video =>
                 {| kind := kind t; enabled := v; readyState := readyState t |}
             | _, _ => t
             end) <$> getTracks ms |}.

Definition toggleMute (s : State) : State :=
  match localStreamRef s with
  | None => s
  | Some stream =>
      set_isMuted (negb (isMuted s))
        (set_mediaStreams
           (alter (set_enabled kind_audio (isMuted s)) stream (mediaStreams s)) s)
  end.

Definition toggleCamera (s : State) : State :=
  match localStreamRef s with
  | None => s
  | Some stream =>
      set_isCamOff (negb (isCamOff s))
        (set_mediaStreams
           (alter (set_enabled kind_video (isCamOff s)) stream (mediaStreams s)) s)
  end.

(** *** Text / file send *)

Definition own_text_message (text : jsstring) (tk : Tick) : Message :=
  {| msg_id := toString10 (id_now tk) ++ id_random tk;
     sender := sender_me; msg_type := type_text; content := text;
     timestamp := stamp_now tk;
     fileName := None; fileSize := None; fileData := None |}.

Definition sendMessage (tk : Tick) (s : State) : State :=
  match connectionRef s with
  | None => s
  | Some conn =>
      if truthy (trim (inputText s)) then
        let s1 := send conn (frame_text (inputText s)) s in
        let s2 := append_message (own_text_message (inputText s) tk) s1 in
        set_inputText [] s2
      else s
  end.

Definition own_file_message (f : File) (tk : Tick) : Message :=
  {| msg_id := toString10 (id_now tk) ++ id_random tk;
     sender := sender_me; msg_type := type_file; content := txt_file_sent;
     timestamp := stamp_now tk;
     fileName := Some (name f); fileSize := Some (size f);
     fileData := Some (file_bytes f) |}.

(** [sendFile(file)] up to [reader.readAsArrayBuffer(file)]. *)
Definition sendFile (f : File) (s : State) : State :=
  match connectionRef s with
  | None => s
  | Some conn =>
      set_pending (pending s ++ [K_fileRead conn f])
        (send conn (frame_file_start (name f) (size f)) s)
  end.

(** [reader.onload] of [sendFile], for the [conn] and the [file] its closure
    captured; the result of the read is the bytes of the file. *)
Definition sendFile_onload (conn : nat) (f : File) (tk : Tick) (s : State) : State :=
  append_message (own_file_message f tk)
    (send conn (frame_file (file_bytes f) (name f) (size f)) s).

(** [handleDrop]: [if (status !== 'connected') return], then
    [Array.from(files).forEach(sendFile)]. *)
Definition handleDrop (files : list File) (s : State) : State :=
  match status s with
  | connected => foldl (λ s f, sendFile f s) s files
  | _ => s
  end.

(** *** Peer events *)

(** [peer.on('error', ...)]; the id of this notice is [Date.now().toString()]
    alone. *)
Definition peer_on_error
    (type message : jsstring) (tk : Tick) (s : State) : State :=
  append_message
    {| msg_id := toString10 (id_now tk);
       sender := sender_system; msg_type := type_system;
       content :=
         txt_peer_error ++
           (if bool_decide (type = js "peer-unavailable")
            then txt_peer_unavailable else message);
       timestamp := stamp_now tk;
       fileName := None; fileSize := None; fileData := None |}
    (set_status disconnected s).

(** [peer.on('connection', ...)]: the connection object of the remote
    initiator enters the store and goes to [handleDataConnection]. *)
Definition peer_on_connection (peer : jsstring) (s : State) : State :=
  let '(conn, s1) := peer_connect peer s in
  handleDataConnection conn s1.

(** *** Rendering

    The two [<video>] elements are rendered only under
    [(callState === 'active' || callState === 'calling') && callMode === 'video'];
    the [<audio>] element is always rendered. A ref is [None] while its
    element is not mounted, and a newly mounted element plays nothing. *)

Definition video_panel_shown (s : State) : bool :=
  match callState s, callMode s with
  | active, video | calling, video => true
  | _, _ => false
  end.

Definition mounted (shown : bool) (ref : option MediaElement) : option MediaElement :=
  if shown then Some (default {| srcObject := None |} ref) else None.

Definition render (s : State) : State :=
  let shown := video_panel_shown s in
  set_remoteAudioRef (mounted true (remoteAudioRef s))
    (set_remoteVideoRef (mounted shown (remoteVideoRef s))
       (set_localVideoRef (mounted shown (localVideoRef s)) s)).

(** The component after its first render and its mount effect, which creates
    the peer under the generated id; [m] is the draw of [Math.random()]. *)
Definition init (m : N) : State :=
  render
    {| peerId := []; targetId := []; connection := None;
       status := disconnected; messages := []; inputText := [];
       callState := idle; callMode := audio; isMuted := false;
       isCamOff := false;
       peerRef := Some {| peer_id := generate_id m |};
       connectionRef := None; mediaCallRef := None; localStreamRef := None;
       localVideoRef := None; remoteVideoRef := None; remoteAudioRef := None;
       dataConnections := []; mediaConnections := []; mediaStreams := [];
       pending := [] |}.

(** *** Events *)

Inductive Outcome := fulfilled | rejected (message : jsstring).

Inductive Event :=
  (* the user *)
  | ChangeTargetId (value : jsstring)
  | ChangeInputText (value : jsstring)
  | ClickConnect
  | SubmitMessage (tk : Tick)
  | ChooseFile (f : File)
  | DropFiles (files : list File)
  | ClickStartCall (mode : CallMode)
  | ClickAnswer
  | ClickReject (tk : Tick)
  | ClickHangUp (tk : Tick)
  | ClickToggleMute
  | ClickToggleCamera
  (* a promise or a file read settles: the [i]-th pending continuation runs *)
  | Settle (i : nat) (o : Outcome) (tk : Tick)
  (* the peer *)
  | PeerOpen (id : jsstring)
  | PeerConnection (peer : jsstring)
  | PeerCall (peer : jsstring) (metadata : option CallMode) (tk : Tick)
  | PeerError (type message : jsstring) (tk : Tick)
  (* a data connection *)
  | ConnOpen (conn : nat) (tk : Tick)
  | ConnData (conn : nat) (data : Frame) (tk : Tick)
  | ConnClose (conn : nat) (tk : Tick)
  | ConnError (conn : nat) (message : jsstring) (tk : Tick)
  (* a media connection; each registered listener draws its own tick *)
  | CallStream (call : nat) (remoteStream : nat) (ticks : nat → Tick)
  | CallClose (call : nat) (ticks : nat → Tick)
  | CallError (call : nat) (message : jsstring) (ticks : nat → Tick).

(** An event emitted on an object runs every listener registered for it, in
    order of registration. *)
Definition emit
    (n : nat) (listener : Tick → State → State) (ticks : nat → Tick)
    (s : State) : State :=
  foldl (λ s i, listener (ticks i) s) s (seq 0 n).

Definition settle (k : Continuation) (o : Outcome) (tk : Tick) (s : State) : State :=
  match k, o with
  | K_startCall mode tid, fulfilled => startCall_resolved mode tid tk s
  | K_startCall _ _, rejected message => media_failed message tk s
  | K_answerCall call mode, fulfilled => answerCall_resolved call mode s
  | K_answerCall _ _, rejected message => media_failed message tk s
  | K_fileRead conn f, fulfilled => sendFile_onload conn f tk s
  | K_fileRead _ _, rejected _ => s
  end.

(** The handler that an event runs. *)
Definition handle (e : Event) (s : State) : State :=
  match e with
  | ChangeTargetId v => set_targetId (toUpperCase v) s
  | ChangeInputText v => set_inputText v s
  | ClickConnect => connectToPeer s
  | SubmitMessage tk => sendMessage tk s
  | ChooseFile f => sendFile f s
  | DropFiles files => handleDrop files s
  | ClickStartCall mode => startCall mode s
  | ClickAnswer => answerCall s
  | ClickReject tk => rejectCall tk s
  | ClickHangUp tk => hangUp tk s
  | ClickToggleMute => toggleMute s
  | ClickToggleCamera => toggleCamera s
  | Settle i o tk =>
      match pending s !! i with
      | Some k => settle k o tk (set_pending (delete i (pending s)) s)
      | None => s
      end
  | PeerOpen id => set_peerId id s
  | PeerConnection peer => peer_on_connection peer s
  | PeerCall peer metadata tk => peer_on_call peer metadata tk s
  | PeerError type message tk => peer_on_error type message tk s
  | ConnOpen conn tk =>
      match dataConnections s !! conn with
      | Some dc => conn_on_open (dc_peer dc) tk s
      | None => s
      end
  | ConnData conn data tk =>
      match dataConnections s !! conn with
      | Some dc => conn_on_data (dc_peer dc) data tk s
      | None => s
      end
  | ConnClose conn tk =>
      match dataConnections s !! conn with
      | Some _ => conn_on_close tk s
      | None => s
      end
  | ConnError conn message tk =>
      match dataConnections s !! conn with
      | Some _ => conn_on_error message tk s
      | None => s
      end
  | CallStream call remoteStream ticks =>
      match mediaConnections s !! call with
      | Some mc =>
          emit (mc_listeners mc)
            (call_on_stream (metadata_mode (mc_metadata mc)) remoteStream)
            ticks s
      | None => s
      end
  | CallClose call ticks =>
      match mediaConnections s !! call with
      | Some mc => emit (mc_listeners mc) call_on_close ticks s
      | None => s
      end
  | CallError call message ticks =>
      match mediaConnections s !! call with
      | Some mc => emit (mc_listeners mc) (call_on_error message) ticks s
      | None => s
      end
  end.

(** One turn of the event loop: the handler, then the render it causes. *)
Definition step (s : State) (e : Event) : State := render (handle e s).

Definition run (s : State) (es : list Event) : State := foldl step s es.

(** Whether the rendered page lets the user raise the event: the control is
    rendered and not disabled. Events of the environment are not gated. *)
Definition available (s : State) (e : Event) : bool :=
  match e with
  | ChangeTargetId _ =>
      match status s with connected => false | _ => true end
  | ChangeInputText _ | SubmitMessage _ | ChooseFile _ =>
      match status s with connected => true | _ => false end
  | ClickConnect => negb (connect_disabled s)
  | ClickStartCall _ =>
      match status s, callState s with connected, idle => true | _, _ => false end
  | ClickAnswer | ClickReject _ =>
      match callState s with incoming => true | _ => false end
  | ClickHangUp _ =>
      match callState s with calling | active => true | _ => false end
  | ClickToggleMute =>
      match callState s with active => true | _ => false end
  | ClickToggleCamera =>
      match callState s, callMode s with active, video => true | _, _ => false end
  | _ => true
  end.

(** A trace all of whose events the page lets happen. *)
Fixpoint feasible (s : State) (es : list Event) : bool :=
  match es with
  | [] => true
  | e :: es' => available s e && feasible (step s e) es'
  end.

(** *** Observations *)




(** The log of [s'] is the log of [s] followed by new entries. *)
Definition extends (s s' : State) : Prop :=
  ∃ new, messages s' = messages s ++ new.


Definition is_live (t : MediaStreamTrack) : bool :=
  match readyState t with live => true | ended => false end.

(** The live tracks of every stream that [getUserMedia] ever handed out. *)
Definition live_tracks (s : State) : list MediaStreamTrack :=
  filter (λ t, is_live t = true) (mjoin (getTracks <$> mediaStreams s)).

(** The tracks of the stream the call holds in [localStreamRef]. *)
Definition local_tracks (s : State) : list MediaStreamTrack :=
  match localStreamRef s with
  | Some i => default [] (getTracks <$> mediaStreams s !! i)
  | None => []
  end.

(** The tracks that stream [i] of the store has in state [s]. *)
Definition tracks_of (i : nat) (s : State) : list MediaStreamTrack :=
  default [] (getTracks <$> mediaStreams s !! i).

Definition all_ended (ts : list MediaStreamTrack) : Prop :=
  Forall (λ t, readyState t = ended) ts.

(** The audio tracks of the local stream are enabled exactly when the mute
    flag is off. *)
Definition audio_follows_mute (s : State) : Prop :=
  ∀ t, t ∈ local_tracks s → kind t = kind_audio → enabled t = negb (isMuted s).

(** While no local stream was ever acquired, no call has listeners. *)
Definition listeners_need_stream (s : State) : Prop :=
  mediaStreams s = [] →
  Forall (λ mc, mc_listeners mc = 0%nat) (mediaConnections s).

Definition is_attached (ref : option MediaElement) : bool :=
  match ref with
  | Some {| srcObject := Some _ |} => true
  | _ => false
  end.

End WebrtcApp.

(** ** The base component

    The chat component without calls. It keeps the connection in React state
    only, and numbers its text and system messages with [Date.now()] alone. *)

Module Base.

Record State := mkState {
  peerId : jsstring;
  targetId : jsstring;
  connection : option nat;
  status : Status;
  messages : list Message;
  inputText : jsstring;
  peerRef : option Peer;
  dataConnections : list DataConnection;
  pending : list (nat * File);
}.

Definition set_peerId (v : jsstring) (s : State) : State :=
  {| peerId := v; targetId := targetId s; connection := connection s;
     status := status s; messages := messages s; inputText := inputText s;
     peerRef := peerRef s; dataConnections := dataConnections s;
     pending := pending s |}.

Definition set_targetId (v : jsstring) (s : State) : State :=
  {| peerId := peerId s; targetId := v; connection := connection s;
     status := status s; messages := messages s; inputText := inputText s;
     peerRef := peerRef s; dataConnections := dataConnections s;
     pending := pending s |}.

Definition set_connection (v : option nat) (s : State) : State :=
  {| peerId := peerId s; targetId := targetId s; connection := v;
     status := status s; messages := messages s; inputText := inputText s;
     peerRef := peerRef s; dataConnections := dataConnections s;
     pending := pending s |}.

Definition set_status (v : Status) (s : State) : State :=
  {| peerId := peerId s; targetId := targetId s; connection := connection s;
     status := v; messages := messages s; inputText := inputText s;
     peerRef := peerRef s; dataConnections := dataConnections s;
     pending := pending s |}.

Definition set_messages (v : list Message) (s : State) : State :=
  {| peerId := peerId s; targetId := targetId s; connection := connection s;
     status := status s; messages := v; inputText := inputText s;
     peerRef := peerRef s; dataConnections := dataConnections s;
     pending := pending s |}.

Definition set_inputText (v : jsstring) (s : State) : State :=
  {| peerId := peerId s; targetId := targetId s; connection := connection s;
     status := status s; messages := messages s; inputText := v;
     peerRef := peerRef s; dataConnections := dataConnections s;
     pending := pending s |}.

Definition set_peerRef (v : option Peer) (s : State) : State :=
  {| peerId := peerId s; targetId := targetId s; connection := connection s;
     status := status s; messages := messages s; inputText := inputText s;
     peerRef := v; dataConnections := dataConnections s;
     pending := pending s |}.

Definition set_dataConnections (v : list DataConnection) (s : State) : State :=
  {| peerId := peerId s; targetId := targetId s; connection := connection s;
     status := status s; messages := messages s; inputText := inputText s;
     peerRef := peerRef s; dataConnections := v; pending := pending s |}.

Definition set_pending (v : list (nat * File)) (s : State) : State :=
  {| peerId := peerId s; targetId := targetId s; connection := connection s;
     status := status s; messages := messages s; inputText := inputText s;
     peerRef := peerRef s; dataConnections := dataConnections s;
     pending := v |}.

(** [" 建立连接"] *)
Definition txt_connection_up : jsstring := [32; 24314; 31435; 36830; 25509].
(** ["连接已断开"] *)
Definition txt_connection_closed : jsstring :=
  [36830; 25509; 24050; 26029; 24320].
(** ["找不到该连接 ID 的伙伴，请确认在线"] *)
Definition txt_peer_unavailable : jsstring :=
  [25214; 19981; 21040; 35813; 36830; 25509; 32; 73; 68; 32; 30340; 20249;
   20276; 65292; 35831; 30830; 35748; 22312; 32447].

Definition append_message (m : Message) (s : State) : State :=
  set_messages (messages s ++ [m]) s.

(** [id: Date.now().toString()] *)
Definition system_message (text : jsstring) (tk : Tick) : Message :=
  {| msg_id := toString10 (id_now tk);
     sender := sender_system; msg_type := type_system; content := text;
     timestamp := stamp_now tk;
     fileName := None; fileSize := None; fileData := None |}.

Definition addSystemMessage (text : jsstring) (tk : Tick) (s : State) : State :=
  append_message (system_message text tk) s.

Definition send (conn : nat) (data : Frame) (s : State) : State :=
  set_dataConnections
    (alter (λ dc, {| dc_peer := dc_peer dc; dc_sent := dc_sent dc ++ [data] |})
       conn (dataConnections s)) s.

(** [Math.random().toString(36).substring(2, 9)], the suffix of the id of a
    file message; [m] is the draw of [Math.random()]. *)
Definition random_suffix (m : N) : jsstring := substring 2 9 (toString36 m).

Definition handleConnection (conn : nat) (s : State) : State :=
  set_connection (Some conn) s.

Definition conn_on_open (peer : jsstring) (tk : Tick) (s : State) : State :=
  addSystemMessage (WebrtcApp.txt_connected_with ++ peer ++ txt_connection_up) tk
    (set_status connected s).

Definition conn_on_data
    (peer : jsstring) (data : Frame) (tk : Tick) (m : N) (s : State) : State :=
  match data with
  | frame_text c =>
      append_message
        {| msg_id := toString10 (id_now tk);
           sender := sender_remote; msg_type := type_text; content := c;
           timestamp := stamp_now tk;
           fileName := None; fileSize := None; fileData := None |} s
  | frame_file_start fname _ =>
      addSystemMessage (peer ++ WebrtcApp.txt_is_sending_file ++ fname) tk s
  | frame_file file fname fsize =>
      append_message
        {| msg_id := toString10 (id_now tk) ++ random_suffix m;
           sender := sender_remote; msg_type := type_file;
           content := WebrtcApp.txt_file_received;
           timestamp := stamp_now tk;
           fileName := Some fname; fileSize := Some fsize;
           fileData := Some file |} s
  | frame_other _ => s
  end.

Definition conn_on_close (tk : Tick) (s : State) : State :=
  addSystemMessage txt_connection_closed tk
    (set_connection None (set_status disconnected s)).

Definition conn_on_error (message : jsstring) (tk : Tick) (s : State) : State :=
  addSystemMessage (WebrtcApp.txt_connection_error ++ message) tk
    (set_connection None (set_status disconnected s)).

Definition connectToPeer (s : State) : State :=
  match peerRef s with
  | None => s
  | Some _ =>
      if truthy (trim (targetId s)) then
        let s1 := set_status connecting s in
        let conn := length (dataConnections s1) in
        let s2 :=
          set_dataConnections
            (dataConnections s1 ++
               [{| dc_peer := trim (targetId s); dc_sent := [] |}]) s1 in
        handleConnection conn s2
      else s
  end.

Definition sendMessage (tk : Tick) (s : State) : State :=
  match connection s with
  | None => s
  | Some conn =>
      if truthy (trim (inputText s)) then
        let s1 := send conn (frame_text (inputText s)) s in
        let s2 :=
          append_message
            {| msg_id := toString10 (id_now tk);
               sender := sender_me; msg_type := type_text;
               content := inputText s;
               timestamp := stamp_now tk;
               fileName := None; fileSize := None; fileData := None |} s1 in
        set_inputText [] s2
      else s
  end.

Definition sendFile (f : File) (s : State) : State :=
  match connection s with
  | None => s
  | Some conn =>
      set_pending (pending s ++ [(conn, f)])
        (send conn (frame_file_start (name f) (size f)) s)
  end.

(** [handleDrop]: [if (status !== 'connected') return], then [sendFile] for
    each of the files. *)
Definition handleDrop (files : list File) (s : State) : State :=
  match status s with
  | connected => foldl (λ s f, sendFile f s) s files
  | _ => s
  end.

Definition sendFile_onload
    (conn : nat) (f : File) (tk : Tick) (m : N) (s : State) : State :=
  append_message
    {| msg_id := toString10 (id_now tk) ++ random_suffix m;
       sender := sender_me; msg_type := type_file;
       content := WebrtcApp.txt_file_sent;
       timestamp := stamp_now tk;
       fileName := Some (name f); fileSize := Some (size f);
       fileData := Some (file_bytes f) |}
    (send conn (frame_file (file_bytes f) (name f) (size f)) s).

Definition peer_on_error
    (type message : jsstring) (tk : Tick) (s : State) : State :=
  append_message
    {| msg_id := toString10 (id_now tk);
       sender := sender_system; msg_type := type_system;
       content :=
         WebrtcApp.txt_peer_error ++
           (if bool_decide (type = js "peer-unavailable")
            then txt_peer_unavailable else message);
       timestamp := stamp_now tk;
       fileName := None; fileSize := None; fileData := None |}
    (set_status disconnected s).

Definition peer_on_connection (peer : jsstring) (s : State) : State :=
  let conn := length (dataConnections s) in
  handleConnection conn
    (set_dataConnections
       (dataConnections s ++ [{| dc_peer := peer; dc_sent := [] |}]) s).

Definition init (m : N) : State :=
  {| peerId := []; targetId := []; connection := None;
     status := disconnected; messages := []; inputText := [];
     peerRef := Some {| peer_id := generate_id m |};
     dataConnections := []; pending := [] |}.

Inductive Event :=
  | ChangeTargetId (value : jsstring)
  | ChangeInputText (value : jsstring)
  | ClickConnect
  | SubmitMessage (tk : Tick)
  | ChooseFile (f : File)
  | DropFiles (files : list File)
  | FileLoaded (i : nat) (tk : Tick) (m : N)
  | PeerOpen (id : jsstring)
  | PeerConnection (peer : jsstring)
  | PeerError (type message : jsstring) (tk : Tick)
  | ConnOpen (conn : nat) (tk : Tick)
  | ConnData (conn : nat) (data : Frame) (tk : Tick) (m : N)
  | ConnClose (conn : nat) (tk : Tick)
  | ConnError (conn : nat) (message : jsstring) (tk : Tick).

Definition step (s : State) (e : Event) : State :=
  match e with
  | ChangeTargetId v => set_targetId (toUpperCase v) s
  | ChangeInputText v => set_inputText v s
  | ClickConnect => connectToPeer s
  | SubmitMessage tk => sendMessage tk s
  | ChooseFile f => sendFile f s
  | DropFiles files => handleDrop files s
  | FileLoaded i tk m =>
      match pending s !! i with
      | Some (conn, f) =>
          sendFile_onload conn f tk m (set_pending (delete i (pending s)) s)
      | None => s
      end
  | PeerOpen id => set_peerId id s
  | PeerConnection peer => peer_on_connection peer s
  | PeerError type message tk => peer_on_error type message tk s
  | ConnOpen conn tk =>
      match dataConnections s !! conn with
      | Some dc => conn_on_open (dc_peer dc) tk s
      | None => s
      end
  | ConnData conn data tk m =>
      match dataConnections s !! conn with
      | Some dc => conn_on_data (dc_peer dc) data tk m s
      | None => s
      end
  | ConnClose conn tk =>
      match dataConnections s !! conn with
      | Some _ => conn_on_close tk s
      | None => s
      end
  | ConnError conn message tk =>
      match dataConnections s !! conn with
      | Some _ => conn_on_error message tk s
      | None => s
      end
  end.

Definition run (s : State) (es : list Event) : State := foldl step s es.

(** The connect button, as in the component with calls. *)
Definition connect_disabled (s : State) : bool :=
  negb (truthy (targetId s))
  || match status s with connected | connecting => true | disconnected => false end.

End Base.

(** Every id of the log occurs once. *)
Definition unique_ids (log : list Message) : Prop := NoDup (msg_id <$> log).

(** ** Two peers, a file and a clock, for the examples *)

Module Example.
Import WebrtcApp.

Definition tick (n : N) : Tick :=
  {| id_now := 1730000000000 + n; id_random := js "0.42";
     stamp_now := 1730000000000 + n |}.

Definition ticks (n : N) : nat → Tick := λ i, tick (n + N.of_nat i).

(** A peer that typed the id of the other one, connected, and saw the
    channel open. *)
Definition caller : State :=
  run (init 1234567890123)
    [ChangeTargetId (js "01f5q5"); ClickConnect; ConnOpen 0 (tick 0)].

(** The peer that was connected to. *)
Definition callee : State :=
  run (init 9876543210987) [PeerConnection (js "006E7R"); ConnOpen 0 (tick 1)].


(** The second peer while the first one rings it for a video call. *)
Definition ringing : State :=
  run callee [PeerCall (js "006E7R") (Some video) (tick 2)].

(** The first peer in a voice call that the second one answered. *)
Definition in_call : list Event :=
  [ClickStartCall audio; Settle 0 fulfilled (tick 2); CallStream 0 7 (ticks 3)].

Definition talking : State := run caller in_call.

(** A second call rings and is answered while the first one is on and muted:
    the page shows the answer button whenever the call is [incoming]. *)
Definition muted_then_called : list Event :=
  in_call
    ++ [ClickToggleMute;
        PeerCall (js "ZZ9999") (Some audio) (tick 5);
        ClickAnswer;
        Settle 0 fulfilled (tick 6);
        CallStream 1 8 (ticks 7)].

Definition second_call : State := run caller muted_then_called.

(** The second peer picks up the video call it is rung for: it answers, and
    the camera and the microphone are granted. *)
Definition answer_video : list Event :=
  [PeerCall (js "006E7R") (Some video) (tick 2);
   ClickAnswer;
   Settle 0 fulfilled (tick 3)].

Definition answering : State := run callee answer_video.

(** The second peer clicks the answer button twice while the voice call
    rings; both requests for the microphone are granted, the call connects,
    and the peer hangs up. *)
Definition answer_twice : list Event :=
  [PeerCall (js "006E7R") (Some audio) (tick 2);
   ClickAnswer;
   ClickAnswer;
   Settle 0 fulfilled (tick 3);
   Settle 0 fulfilled (tick 4);
   CallStream 0 7 (ticks 5)].

Definition answered_twice : State := run callee answer_twice.

(** The first peer before the channel opened. *)
Definition dialling : State :=
  run (init 1234567890123) [ChangeTargetId (js "01f5q5"); ClickConnect].


Definition note : File :=
  {| name := js "note.txt"; file_bytes := [x68; x69; x0a] |}.

(** The base component of the second peer, connected to. *)
Definition base_callee : Base.State :=
  Base.run (Base.init 9876543210987)
    [Base.PeerConnection (js "006E7R"); Base.ConnOpen 0 (tick 1)].

End Example.

(** ** What the page shows *)

Module Display.

(** [s.padStart(targetLength, fill)] for a fill of one code unit. *)
Definition padStart (targetLength : nat) (fill : jschar) (s : jsstring) : jsstring :=
  replicate (targetLength - length s) fill ++ s.

(** The whole numbers that a JavaScript number holds exactly and prints in
    decimal digits: those below [2^53]. *)
Definition safe_integer (n : N) : Prop := n < 2 ^ 53.

(** [formatDuration(s)] for a number of seconds that is a safe integer, as
    the call timer counts them: [Math.floor(s / 60)] and [s % 60], each
    written in decimal and padded to two digits, around a colon. On these
    numbers the floor of the rounded quotient is the integer quotient. *)
Definition formatDuration (s : N) : jsstring :=
  let m := padStart 2 48 (toString10 (s / 60)) in
  let ss := padStart 2 48 (toString10 (s mod 60)) in
  m ++ [58] ++ ss.

(** [x.toFixed(digits)] for the quotient [x = num / den] of an integer by a
    power of two, which is an exact double: the integer [n] nearest to
    [x * 10^digits], the larger one of two, written with a point before its
    last [digits] digits. *)
Definition toFixed (digits : nat) (num den : N) : jsstring :=
  let scale := 10 ^ N.of_nat digits in
  let n := (2 * num * scale + den) / (2 * den) in
  toString10 (n / scale)
    ++ match digits with
       | O => []
       | S _ => 46 :: padStart digits 48 (toString10 (n mod scale))
       end.

Definition formatSize (bytes : N) : jsstring :=
  if bytes <? 1024 then toString10 bytes ++ js " B"
  else if bytes <? 1024 * 1024 then toFixed 1 bytes 1024 ++ js " KB"
  else toFixed 2 bytes (1024 * 1024) ++ js " MB".

(** [downloadFile(message)]: the name and the content of the file that the
    browser saves, or nothing when the message has no payload or no name. *)
Definition downloadFile (m : Message) : option (jsstring * list byte) :=
  match fileData m, fileName m with
  | Some data, Some fname => if truthy fname then Some (fname, data) else None
  | _, _ => None
  end.

(** The number that a string of decimal digits writes. *)
Fixpoint digits_uint (s : jsstring) : Decimal.uint :=
  match s with
  | [] => Decimal.Nil
  | c :: s' =>
      if c =? 48 then Decimal.D0 (digits_uint s')
      else if c =? 49 then Decimal.D1 (digits_uint s')
      else if c =? 50 then Decimal.D2 (digits_uint s')
      else if c =? 51 then Decimal.D3 (digits_uint s')
      else if c =? 52 then Decimal.D4 (digits_uint s')
      else if c =? 53 then Decimal.D5 (digits_uint s')
      else if c =? 54 then Decimal.D6 (digits_uint s')
      else if c =? 55 then Decimal.D7 (digits_uint s')
      else if c =? 56 then Decimal.D8 (digits_uint s')
      else if c =? 57 then Decimal.D9 (digits_uint s')
      else Decimal.Nil
  end.

Definition parseInt (s : jsstring) : N := N.of_uint (digits_uint s).

End Display.

(** ** The call timer

    The effect on [callState] keeps [callDuration]: when the call becomes
    [active] it sets the counter to zero and starts an interval that adds one
    every second; in any other state it clears the interval and sets the
    counter to zero. React runs the cleanup of the previous effect, then the
    effect, after a render in which [callState] changed. *)

Module CallTimer.

Record Timer := mkTimer {
  callDuration : N;
  callTimerRef : option nat;
  (* the intervals that the browser still fires *)
  intervals : list nat;
  (* the id that [setInterval] returns next *)
  next_interval : nat;
}.

Definition clearInterval (id : nat) (t : Timer) : Timer :=
  {| callDuration := callDuration t; callTimerRef := callTimerRef t;
     intervals := filter (λ i, i ≠ id) (intervals t);
     next_interval := next_interval t |}.

(** [return () => { if (callTimerRef.current) clearInterval(callTimerRef.current); }] *)
Definition cleanup (t : Timer) : Timer :=
  match callTimerRef t with
  | Some id => clearInterval id t
  | None => t
  end.

(** The body of the effect, for the [callState] of the render. *)
Definition effect (cs : CallState) (t : Timer) : Timer :=
  match cs with
  | active =>
      {| callDuration := 0;
         callTimerRef := Some (next_interval t);
         intervals := intervals t ++ [next_interval t];
         next_interval := S (next_interval t) |}
  | _ =>
      let t1 :=
        match callTimerRef t with
        | Some id =>
            {| callDuration := callDuration t; callTimerRef := None;
               intervals := intervals (clearInterval id t);
               next_interval := next_interval t |}
        | None => t
        end in
      {| callDuration := 0; callTimerRef := callTimerRef t1;
         intervals := intervals t1; next_interval := next_interval t1 |}
  end.

(** The callback of an interval: [setCallDuration((d) => d + 1)], as long as
    the interval was not cleared. *)
Definition fire (id : nat) (t : Timer) : Timer :=
  if bool_decide (id ∈ intervals t)
  then {| callDuration := callDuration t + 1; callTimerRef := callTimerRef t;
          intervals := intervals t; next_interval := next_interval t |}
  else t.

Definition same_callState (a b : CallState) : bool :=
  match a, b with
  | idle, idle | calling, calling | incoming, incoming | active, active => true
  | _, _ => false
  end.

(** The component together with its timer. *)
Record Timed := mkTimed {
  app : WebrtcApp.State;
  timer : Timer;
}.

Inductive TimedEvent :=
  | app_event (e : WebrtcApp.Event)
  | interval_fired (id : nat).

Definition timed_step (x : Timed) (e : TimedEvent) : Timed :=
  match e with
  | app_event e =>
      let app' := WebrtcApp.step (app x) e in
      {| app := app';
         timer :=
           if same_callState (WebrtcApp.callState (app x)) (WebrtcApp.callState app')
           then timer x
           else effect (WebrtcApp.callState app') (cleanup (timer x)) |}
  | interval_fired id => {| app := app x; timer := fire id (timer x) |}
  end.

Definition timed_run (x : Timed) (es : list TimedEvent) : Timed :=
  foldl timed_step x es.

(** After the first render: the effect ran once, for [idle]. *)
Definition timed_init (m : N) : Timed :=
  {| app := WebrtcApp.init m;
     timer :=
       effect idle
         {| callDuration := 0; callTimerRef := None; intervals := [];
            next_interval := 0 |} |}.

(** The timer fits the call: one live interval, held in [callTimerRef], while
    the call is [active]; none, and a counter at zero, otherwise. *)
Definition timer_fits (x : Timed) : Prop :=
  match WebrtcApp.callState (app x) with
  | active =>
      ∃ id, callTimerRef (timer x) = Some id ∧ intervals (timer x) = [id]
  | _ =>
      callTimerRef (timer x) = None ∧ intervals (timer x) = []
      ∧ callDuration (timer x) = 0
  end.

End CallTimer.

(** ** Shapes that the component keeps *)

(** A log entry as the component writes it, whatever the frames it was
    sent: a notice is the system's and has no file fields; a text is not the
    system's and has no file fields; a file message is not the system's, and
    one of the component's own carries a name, a size and a payload. The
    file fields of a file message from the remote side are those of the
    frame, which the listener copies unchecked: nothing is said of them. *)
Definition well_formed (m : Message) : Prop :=
  match msg_type m with
  | type_file =>
      sender m ≠ sender_system
      ∧ (sender m = sender_me →
         is_Some (fileName m) ∧ is_Some (fileSize m) ∧ is_Some (fileData m))
  | type_text =>
      fileName m = None ∧ fileSize m = None ∧ fileData m = None
      ∧ sender m ≠ sender_system
  | type_system =>
      fileName m = None ∧ fileSize m = None ∧ fileData m = None
      ∧ sender m = sender_system
  end.

(** The log of [s'] is the log of [s] followed by well-formed entries. *)
Definition appends_well_formed (s s' : WebrtcApp.State) : Prop :=
  ∃ new,
    WebrtcApp.messages s' = WebrtcApp.messages s ++ new
    ∧ Forall well_formed new.

(** A message without its id. *)
Definition without_id (m : Message) : Message :=
  {| msg_id := []; sender := sender m; msg_type := msg_type m;
     content := content m; timestamp := timestamp m;
     fileName := fileName m; fileSize := fileSize m; fileData := fileData m |}.

(** A track but for its [enabled] flag. *)
Definition track_identity (t : MediaStreamTrack) : TrackKind * ReadyState :=
  (kind t, readyState t).

(** No call is on: what [handleCallEnded] leaves behind. *)
Definition call_over (s : WebrtcApp.State) : Prop :=
  WebrtcApp.callState s = idle
  ∧ WebrtcApp.mediaCallRef s = None
  ∧ WebrtcApp.localStreamRef s = None
  ∧ WebrtcApp.isMuted s = false
  ∧ WebrtcApp.isCamOff s = false
  ∧ WebrtcApp.is_attached (WebrtcApp.localVideoRef s) = false
  ∧ WebrtcApp.is_attached (WebrtcApp.remoteVideoRef s) = false
  ∧ WebrtcApp.is_attached (WebrtcApp.remoteAudioRef s) = false.

(** ** The two components side by side *)

(** A message of the conversation, as opposed to a notice. *)
Definition is_chat (m : Message) : bool :=
  match sender m with sender_system => false | _ => true end.

(** The conversation of a log: its texts and files, without their ids. *)
Definition chat_log (log : list Message) : list Message :=
  without_id <$> filter (λ m, is_chat m = true) log.

Definition file_read (p : nat * File) : Continuation := K_fileRead p.1 p.2.

(** An event of the base component, as an event of the component with
    calls. *)
Definition chat_event (e : Base.Event) : WebrtcApp.Event :=
  match e with
  | Base.ChangeTargetId v => WebrtcApp.ChangeTargetId v
  | Base.ChangeInputText v => WebrtcApp.ChangeInputText v
  | Base.ClickConnect => WebrtcApp.ClickConnect
  | Base.SubmitMessage tk => WebrtcApp.SubmitMessage tk
  | Base.ChooseFile f => WebrtcApp.ChooseFile f
  | Base.DropFiles files => WebrtcApp.DropFiles files
  | Base.FileLoaded i tk _ => WebrtcApp.Settle i WebrtcApp.fulfilled tk
  | Base.PeerOpen id => WebrtcApp.PeerOpen id
  | Base.PeerConnection peer => WebrtcApp.PeerConnection peer
  | Base.PeerError type message tk => WebrtcApp.PeerError type message tk
  | Base.ConnOpen conn tk => WebrtcApp.ConnOpen conn tk
  | Base.ConnData conn data tk _ => WebrtcApp.ConnData conn data tk
  | Base.ConnClose conn tk => WebrtcApp.ConnClose conn tk
  | Base.ConnError conn message tk => WebrtcApp.ConnError conn message tk
  end.

(** The base component [b] and the component with calls [w] are at the same
    point of the same conversation. *)
Definition same_chat (b : Base.State) (w : WebrtcApp.State) : Prop :=
  Base.peerId b = WebrtcApp.peerId w
  ∧ Base.targetId b = WebrtcApp.targetId w
  ∧ Base.status b = WebrtcApp.status w
  ∧ Base.inputText b = WebrtcApp.inputText w
  ∧ Base.peerRef b = WebrtcApp.peerRef w
  ∧ Base.connection b = WebrtcApp.connectionRef w
  ∧ Base.dataConnections b = WebrtcApp.dataConnections w
  ∧ file_read <$> Base.pending b = WebrtcApp.pending w
  ∧ chat_log (Base.messages b) = chat_log (WebrtcApp.messages w).

(** * Properties *)

Ltac unfold_handlers :=
  unfold WebrtcApp.connectToPeer, WebrtcApp.peer_connect,
    WebrtcApp.handleDataConnection, WebrtcApp.sendMessage, WebrtcApp.sendFile,
    WebrtcApp.sendFile_onload, WebrtcApp.startCall,
    WebrtcApp.startCall_resolved, WebrtcApp.answerCall,
    WebrtcApp.answerCall_resolved, WebrtcApp.answer, WebrtcApp.rejectCall,
    WebrtcApp.hangUp, WebrtcApp.handleCallEnded, WebrtcApp.stopLocalStream,
    WebrtcApp.close_current_call, WebrtcApp.toggleMute,
    WebrtcApp.toggleCamera, WebrtcApp.peer_on_connection,
    WebrtcApp.peer_on_call, WebrtcApp.peer_on_error, WebrtcApp.conn_on_open,
    WebrtcApp.conn_on_data, WebrtcApp.conn_on_close, WebrtcApp.conn_on_error,
    WebrtcApp.call_on_stream, WebrtcApp.call_on_close,
    WebrtcApp.call_on_error, WebrtcApp.media_failed,
    WebrtcApp.setupMediaCall, WebrtcApp.send, WebrtcApp.addSystemMessage,
    WebrtcApp.append_message in *.

(** Cases on the call and on the local stream that a state holds. *)
Ltac call_cases s :=
  unfold_handlers; simpl;
  destruct (WebrtcApp.mediaCallRef s) eqn:?; simpl;
  destruct (WebrtcApp.localStreamRef s) eqn:?; simpl.

(** ** The session identifier *)

(** C7 fails. [toString(36)] prints the shortest digits that identify the
    draw, [substring(2, 8)] keeps what there is of them up to six, and
    nothing pads the result: the draw [0.5] is printed ["0.i"] and gives the
    identifier ["I"], of one character; the draw [7255799399652466 / 2^53],
    the double nearest to [29/36], gives ["T"]; the draw [0] gives the empty
    identifier. A draw with six digits or more, like [1234567890123 / 2^53],
    gives six characters. *)
Theorem generate_id_not_six :
  random_ok (2 ^ 52)
  ∧ toString36 (2 ^ 52) = js "0.i"
  ∧ generate_id (2 ^ 52) = js "I"
  ∧ length (generate_id (2 ^ 52)) ≠ 6%nat
  ∧ random_ok 7255799399652466
  ∧ toString36 7255799399652466 = js "0.t"
  ∧ generate_id 7255799399652466 = js "T"
  ∧ generate_id 0 = []
  ∧ toString36 1234567890123 = js "0.006e7rqfkakno"
  ∧ generate_id 1234567890123 = js "006E7R".
Proof.
  repeat split; try (vm_compute; reflexivity).
  vm_compute. lia.
Qed.

(** ** The data channel *)

Section DataChannel.
Import WebrtcApp.

(** *** The log only grows *)

Lemma extends_refl s : extends s s.
Proof. exists []. by rewrite app_nil_r. Qed.

Lemma extends_trans s1 s2 s3 : extends s1 s2 → extends s2 s3 → extends s1 s3.
Proof.
  intros [n1 H1] [n2 H2]. exists (n1 ++ n2). by rewrite H2, H1, app_assoc.
Qed.


Lemma extends_one s s' m : messages s' = messages s ++ [m] → extends s s'.
Proof. intros H. by exists [m]. Qed.

Lemma emit_extends n listener ticks s :
  (∀ tk s, extends s (listener tk s)) → extends s (emit n listener ticks s).
Proof.
  intros Hl. unfold emit. generalize (seq 0 n). intros l. revert s.
  induction l as [|i l IH]; intros s; simpl.
  - apply extends_refl.
  - eapply extends_trans; [apply Hl | apply IH].
Qed.

Lemma handleCallEnded_messages reason tk s :
  messages (handleCallEnded reason tk s) = messages s ++ [system_message reason tk].
Proof. unfold_handlers. destruct (localStreamRef s); reflexivity. Qed.

Lemma handleDrop_messages files s : messages (handleDrop files s) = messages s.
Proof.
  unfold handleDrop. destruct (status s); try done.
  revert s. induction files as [|f files IH]; intros s; simpl; [done|].
  rewrite IH. unfold_handlers. by destruct (connectionRef s).
Qed.




(** *** Connections stay, and what was sent on them stays *)


















(** *** What a trace delivers *)





Lemma deliver_file r rc peer file fname fsize tk :
  dc_peer <$> dataConnections r !! rc = Some peer →
  messages (step r (ConnData rc (frame_file file fname fsize) tk))
  = messages r ++ [remote_file_message file fname fsize tk].
Proof.
  intros H. unfold step. simpl.
  by destruct (dataConnections r !! rc) as [dc|].
Qed.



End DataChannel.





(** ** Connecting *)

(** C2, as stated, fails: on a connected component with a peer and a target
    id, [connectToPeer] runs to its end. The state becomes [connecting] and
    the handle is a new connection. *)
Lemma connect_again_not_ignored :
  WebrtcApp.status Example.caller = connected
  ∧ WebrtcApp.connectionRef Example.caller = Some 0%nat
  ∧ WebrtcApp.status (WebrtcApp.connectToPeer Example.caller) = connecting
  ∧ WebrtcApp.connectionRef (WebrtcApp.connectToPeer Example.caller) = Some 1%nat
  ∧ WebrtcApp.connectToPeer Example.caller ≠ Example.caller.
Proof.
  repeat split; try (vm_compute; reflexivity).
  intros H. apply (f_equal WebrtcApp.status) in H. vm_compute in H. discriminate.
Qed.

(** C2, as the code has it: while the connection is [connecting] or
    [connected] the connect button is disabled, so the page does not let the
    user connect again. [connectToPeer] itself does not look at the state:
    it never touches the log; with a peer and a target id that is not blank
    it sets the state to [connecting] and replaces the handle by a new
    connection to the trimmed id; otherwise it does nothing. *)
Theorem connect_guard (s : WebrtcApp.State) :
  WebrtcApp.status s = connecting ∨ WebrtcApp.status s = connected →
  WebrtcApp.connect_disabled s = true
  ∧ WebrtcApp.available s WebrtcApp.ClickConnect = false
  ∧ WebrtcApp.messages (WebrtcApp.connectToPeer s) = WebrtcApp.messages s
  ∧ (is_Some (WebrtcApp.peerRef s) →
     truthy (trim (WebrtcApp.targetId s)) = true →
     let s' := WebrtcApp.connectToPeer s in
     let conn := length (WebrtcApp.dataConnections s) in
     WebrtcApp.status s' = connecting
     ∧ WebrtcApp.connectionRef s' = Some conn
     ∧ WebrtcApp.connection s' = Some conn
     ∧ WebrtcApp.dataConnections s'
       = WebrtcApp.dataConnections s
           ++ [{| dc_peer := trim (WebrtcApp.targetId s); dc_sent := [] |}])
  ∧ (WebrtcApp.peerRef s = None ∨ truthy (trim (WebrtcApp.targetId s)) = false →
     WebrtcApp.connectToPeer s = s).
Proof.
  intros Hst.
  assert (Hd : WebrtcApp.connect_disabled s = true).
  { unfold WebrtcApp.connect_disabled. destruct Hst as [-> | ->];
      apply orb_true_r. }
  split; [exact Hd|]. split; [simpl; by rewrite Hd|].
  unfold WebrtcApp.connectToPeer, WebrtcApp.peer_connect. split; [|split].
  - by repeat case_match.
  - intros [p Hp] Ht. rewrite Hp, Ht. simpl. done.
  - intros [Hp | Ht]; [by rewrite Hp|]. rewrite Ht. by case_match.
Qed.

Lemma connect_guard_witness :
  WebrtcApp.connect_disabled Example.caller = true
  ∧ WebrtcApp.messages (WebrtcApp.connectToPeer Example.caller)
    = WebrtcApp.messages Example.caller.
Proof.
  assert (H : WebrtcApp.status Example.caller = connecting
              ∨ WebrtcApp.status Example.caller = connected)
    by (right; vm_compute; reflexivity).
  destruct (connect_guard Example.caller H) as (H1 & _ & H2 & _).
  split; [exact H1 | exact H2].
Defined.

(** The base component has the same [connectToPeer] and the same button. *)
Lemma base_connect_guard (s : Base.State) :
  Base.status s = connecting ∨ Base.status s = connected →
  Base.connect_disabled s = true
  ∧ Base.messages (Base.connectToPeer s) = Base.messages s
  ∧ (is_Some (Base.peerRef s) →
     truthy (trim (Base.targetId s)) = true →
     Base.status (Base.connectToPeer s) = connecting
     ∧ Base.connection (Base.connectToPeer s)
       = Some (length (Base.dataConnections s))).
Proof.
  intros Hst. split; [|split].
  - unfold Base.connect_disabled. destruct Hst as [-> | ->]; apply orb_true_r.
  - unfold Base.connectToPeer. by repeat case_match.
  - intros [p Hp] Ht. unfold Base.connectToPeer. by rewrite Hp, Ht.
Qed.

(** ** Calls *)

Section Calls.
Import WebrtcApp.

Lemma live_tracks_nil s :
  Forall (λ ms, all_ended (getTracks ms)) (mediaStreams s) → live_tracks s = [].
Proof.
  unfold live_tracks. induction (mediaStreams s) as [|ms l IH]; intros H; [done|].
  change (getTracks <$> ms :: l) with (getTracks ms :: (getTracks <$> l)).
  change (mjoin (getTracks ms :: (getTracks <$> l)))
    with (getTracks ms ++ mjoin (getTracks <$> l)).
  inversion H as [|? ? Hms Hl]; subst. rewrite filter_app, (IH Hl), app_nil_r.
  clear -Hms. induction Hms as [|t ts Ht _ IHt]; [done|].
  rewrite filter_cons_False; [exact IHt|]. unfold is_live. by rewrite Ht.
Qed.

Lemma all_ended_stop_all ms : all_ended (getTracks (stop_all ms)).
Proof. unfold all_ended, stop_all. simpl. by apply Forall_fmap, Forall_true. Qed.

(** What [stopLocalStream] leaves: no held stream, and the stream that was
    held has all its tracks ended. *)
Lemma stopLocalStream_spec s :
  let s' := stopLocalStream s in
  localStreamRef s' = None
  ∧ (∀ i, localStreamRef s = Some i → all_ended (tracks_of i s'))
  ∧ (∀ i, localStreamRef s ≠ Some i → tracks_of i s' = tracks_of i s).
Proof.
  unfold stopLocalStream, tracks_of. destruct (localStreamRef s) as [i|] eqn:E; simpl.
  - split; [done|]. split.
    + intros j [= <-]. rewrite list_lookup_alter_eq.
      destruct (mediaStreams s !! i); simpl; [apply all_ended_stop_all | constructor].
    + intros j Hj. rewrite list_lookup_alter_ne; [done|]. intros ->. by apply Hj.
  - by rewrite E.
Qed.

Lemma is_attached_detach ref : is_attached (detach ref) = false.
Proof. by destruct ref. Qed.

Lemma is_attached_mounted shown ref :
  is_attached ref = false → is_attached (mounted shown ref) = false.
Proof. by destruct shown, ref as [[[?|]]|]. Qed.

Lemma render_localVideoRef s :
  localVideoRef (render s) = mounted (video_panel_shown s) (localVideoRef s).
Proof. reflexivity. Qed.

Lemma render_remoteVideoRef s :
  remoteVideoRef (render s) = mounted (video_panel_shown s) (remoteVideoRef s).
Proof. reflexivity. Qed.

Lemma render_remoteAudioRef s :
  remoteAudioRef (render s) = mounted true (remoteAudioRef s).
Proof. reflexivity. Qed.

Lemma hangUp_detaches s tk :
  is_attached (localVideoRef (hangUp tk s)) = false
  ∧ is_attached (remoteVideoRef (hangUp tk s)) = false
  ∧ is_attached (remoteAudioRef (hangUp tk s)) = false.
Proof. call_cases s; repeat split; apply is_attached_detach. Qed.

Lemma hangUp_streams s tk :
  mediaStreams (step s (ClickHangUp tk)) = mediaStreams (stopLocalStream s).
Proof.
  unfold step. simpl. by call_cases s.
Qed.

Lemma tracks_of_streams i s s' :
  mediaStreams s' = mediaStreams s → tracks_of i s' = tracks_of i s.
Proof. unfold tracks_of. by intros ->. Qed.

End Calls.

(** X25: what [hangUp] does, in any state: the call is [idle]; the component
    holds no local stream any more, and every track of the stream it held is
    stopped, so that no local track is live when the held stream was the only
    one with live tracks; no media element plays a stream; the mute and
    camera-off flags are false. *)
Lemma hangUp_releases (s : WebrtcApp.State) (tk : Tick) :
  let s' := WebrtcApp.step s (WebrtcApp.ClickHangUp tk) in
  WebrtcApp.callState s' = idle
  ∧ WebrtcApp.localStreamRef s' = None
  ∧ WebrtcApp.local_tracks s' = []
  ∧ (∀ i, WebrtcApp.localStreamRef s = Some i →
          WebrtcApp.all_ended (WebrtcApp.tracks_of i s'))
  ∧ ((∀ i, WebrtcApp.localStreamRef s ≠ Some i →
           WebrtcApp.all_ended (WebrtcApp.tracks_of i s)) →
     WebrtcApp.live_tracks s' = [])
  ∧ WebrtcApp.is_attached (WebrtcApp.localVideoRef s') = false
  ∧ WebrtcApp.is_attached (WebrtcApp.remoteVideoRef s') = false
  ∧ WebrtcApp.is_attached (WebrtcApp.remoteAudioRef s') = false
  ∧ WebrtcApp.isMuted s' = false
  ∧ WebrtcApp.isCamOff s' = false.
Proof.
  intros s'.
  pose proof (hangUp_streams s tk) as Hstreams. fold s' in Hstreams.
  destruct (stopLocalStream_spec s) as (_ & Hheld & Hother).
  assert (Href : WebrtcApp.localStreamRef s' = None).
  { unfold s', WebrtcApp.step. simpl. by call_cases s. }
  assert (Hheld' : ∀ i, WebrtcApp.localStreamRef s = Some i →
                        WebrtcApp.all_ended (WebrtcApp.tracks_of i s')).
  { intros i Hi. rewrite (tracks_of_streams i _ _ Hstreams). by apply Hheld. }
  split.
  { unfold s', WebrtcApp.step. simpl. by call_cases s. }
  split; [exact Href|].
  split; [unfold WebrtcApp.local_tracks; by rewrite Href|].
  split; [exact Hheld'|].
  split.
  { intros Hrest. apply live_tracks_nil. apply Forall_lookup. intros j ms Hj.
    assert (Hms : WebrtcApp.tracks_of j s' = getTracks ms)
      by (unfold WebrtcApp.tracks_of; by rewrite Hj).
    rewrite <- Hms.
    destruct (decide (WebrtcApp.localStreamRef s = Some j)) as [Hi|Hni].
    - by apply Hheld'.
    - rewrite (tracks_of_streams j _ _ Hstreams), (Hother j Hni).
      by apply Hrest. }
  destruct (hangUp_detaches s tk) as (Hlv & Hrv & Hra).
  unfold s', WebrtcApp.step. cbn [WebrtcApp.handle].
  rewrite render_localVideoRef, render_remoteVideoRef, render_remoteAudioRef.
  split; [by apply is_attached_mounted|].
  split; [by apply is_attached_mounted|].
  split; [by apply is_attached_mounted|].
  split; simpl; by call_cases s.
Qed.

(** After a call in which one stream was acquired, [hangUp] leaves no live
    track. *)
Lemma hangUp_after_one_stream :
  WebrtcApp.callState Example.talking = active
  ∧ WebrtcApp.live_tracks Example.talking
    = [{| kind := kind_audio; enabled := true; readyState := live |}]
  ∧ WebrtcApp.live_tracks
      (WebrtcApp.step Example.talking (WebrtcApp.ClickHangUp (Example.tick 9)))
    = [].
Proof. repeat split; vm_compute; reflexivity. Qed.

(** C5, on the code: [answerCall] and [startCall] store the stream they
    acquired in [localStreamRef] without stopping the stream that was there,
    and [hangUp] stops the tracks of the stream in [localStreamRef] only.
    After two clicks on the answer button the first stream, the one handed
    to [call.answer], is still live when the call is hung up; everything else
    that C5 says holds there. *)
Theorem hangUp_leaves_live_track :
  WebrtcApp.feasible Example.callee
    (Example.answer_twice ++ [WebrtcApp.ClickHangUp (Example.tick 9)]) = true
  ∧ WebrtcApp.callState Example.answered_twice = active
  ∧ let s' :=
      WebrtcApp.step Example.answered_twice
        (WebrtcApp.ClickHangUp (Example.tick 9)) in
    WebrtcApp.callState s' = idle
    ∧ WebrtcApp.localStreamRef s' = None
    ∧ WebrtcApp.live_tracks s'
      = [{| kind := kind_audio; enabled := true; readyState := live |}]
    ∧ WebrtcApp.tracks_of 0 s'
      = [{| kind := kind_audio; enabled := true; readyState := live |}]
    ∧ WebrtcApp.isMuted s' = false
    ∧ WebrtcApp.isCamOff s' = false.
Proof. repeat split; vm_compute; reflexivity. Qed.

(** ** In-call controls *)

Section Controls.
Import WebrtcApp.

Lemma set_enabled_twice k v ms :
  (∀ t, t ∈ getTracks ms → kind t = k → enabled t = negb v) →
  set_enabled k (negb v) (set_enabled k v ms) = ms.
Proof.
  destruct ms as [ts]. unfold set_enabled. simpl. intros H. f_equal.
  induction ts as [|[kt e r] ts IH]; [done|]. simpl. f_equal.
  - assert (He : kt = k → e = negb v).
    { intros Hk. apply (H {| kind := kt; enabled := e; readyState := r |});
        [apply elem_of_cons; by left | done]. }
    destruct k, kt; simpl; try done; by rewrite He.
  - apply IH. intros t Ht. apply H. apply elem_of_cons. by right.
Qed.

Lemma set_enabled_audio v ms t :
  t ∈ getTracks (set_enabled kind_audio v ms) → kind t = kind_audio →
  enabled t = v.
Proof.
  destruct ms as [ts]. unfold set_enabled. simpl. intros Ht Hk.
  apply list_elem_of_fmap in Ht as ([kt e r] & -> & _).
  by destruct kt.
Qed.

Lemma alter_fix {A} (f : A → A) (l : list A) i :
  (∀ x, l !! i = Some x → f x = x) → alter f i l = l.
Proof.
  intros H. apply list_eq. intros j.
  destruct (decide (i = j)) as [->|Hne].
  - rewrite list_lookup_alter_eq. destruct (l !! j) eqn:E; [|done].
    simpl. by rewrite H.
  - by rewrite list_lookup_alter_ne.
Qed.

(** A stream that is acquired while the mute flag is off agrees with it. *)
Lemma answerCall_resolved_follows call mode s :
  isMuted s = false → audio_follows_mute (answerCall_resolved call mode s).
Proof.
  intros Hm t. unfold audio_follows_mute, local_tracks, answerCall_resolved.
  destruct (is_video mode); simpl; rewrite Hm;
    rewrite lookup_app_r, Nat.sub_diag by done; simpl; intros Ht _;
    repeat (apply elem_of_cons in Ht as [->|Ht]; [done|]);
    by apply elem_of_nil in Ht.
Qed.

Lemma toggleMute_follows s : audio_follows_mute (toggleMute s).
Proof.
  intros t. unfold local_tracks, toggleMute.
  destruct (localStreamRef s) as [i|] eqn:E; simpl; rewrite E; [|by intros ?%elem_of_nil].
  rewrite list_lookup_alter_eq. destruct (mediaStreams s !! i) as [ms|]; simpl;
    [|by intros ?%elem_of_nil].
  intros Ht Hk. rewrite (set_enabled_audio _ _ _ Ht Hk). by destruct (isMuted s).
Qed.

End Controls.

(** C9 fails. The line [t.enabled = isMuted; // toggle] does not flip the
    track: it writes the mute flag into it. The first peer mutes its voice
    call; a second call rings and is answered, which puts a new stream with
    an enabled audio track in [localStreamRef] while the mute flag stays on
    (only [handleCallEnded] resets it). The call is active and has a local
    stream, and the page shows its mute button; two clicks leave the audio
    track disabled although it was enabled. *)
Theorem toggleMute_twice_not_identity :
  WebrtcApp.feasible Example.caller
    (Example.muted_then_called
       ++ [WebrtcApp.ClickToggleMute; WebrtcApp.ClickToggleMute]) = true
  ∧ WebrtcApp.callState Example.second_call = active
  ∧ WebrtcApp.isMuted Example.second_call = true
  ∧ WebrtcApp.local_tracks Example.second_call
    = [{| kind := kind_audio; enabled := true; readyState := live |}]
  ∧ WebrtcApp.local_tracks
      (WebrtcApp.toggleMute (WebrtcApp.toggleMute Example.second_call))
    = [{| kind := kind_audio; enabled := false; readyState := live |}]
  ∧ WebrtcApp.local_tracks
      (WebrtcApp.run Example.second_call
         [WebrtcApp.ClickToggleMute; WebrtcApp.ClickToggleMute])
    = [{| kind := kind_audio; enabled := false; readyState := live |}].
Proof. repeat split; vm_compute; reflexivity. Qed.

(** What two calls of [toggleMute] do in general: they give the mute flag
    its first value and leave every audio track of the local stream enabled
    exactly when the mute flag was off; they give back the state they started
    from when the audio tracks agreed with the mute flag before. *)
Lemma toggleMute_twice (s : WebrtcApp.State) (i : nat) :
  WebrtcApp.callState s = active →
  WebrtcApp.localStreamRef s = Some i →
  let s2 := WebrtcApp.toggleMute (WebrtcApp.toggleMute s) in
  WebrtcApp.isMuted s2 = WebrtcApp.isMuted s
  ∧ (∀ t, t ∈ WebrtcApp.local_tracks s2 → kind t = kind_audio →
          enabled t = negb (WebrtcApp.isMuted s))
  ∧ (WebrtcApp.audio_follows_mute s →
     s2 = s ∧ WebrtcApp.local_tracks s2 = WebrtcApp.local_tracks s).
Proof.
  intros _ Hi s2.
  assert (Hm : WebrtcApp.isMuted s2 = WebrtcApp.isMuted s).
  { unfold s2, WebrtcApp.toggleMute. rewrite Hi. simpl. rewrite Hi. simpl.
    apply negb_involutive. }
  split; [exact Hm|]. split.
  - intros t Ht Hk.
    pose proof (toggleMute_follows (WebrtcApp.toggleMute s) t Ht Hk) as H.
    fold s2 in H. by rewrite H, Hm.
  - intros Hfollow.
    assert (Hs : s2 = s); [|by rewrite Hs].
    unfold s2, WebrtcApp.toggleMute. rewrite Hi. simpl. rewrite Hi. simpl.
    rewrite list_alter_alter_eq.
    rewrite alter_fix.
    + rewrite negb_involutive. by destruct s.
    + intros ms Hms. simpl. apply set_enabled_twice.
      intros t Ht Hk. apply Hfollow; [|done].
      unfold WebrtcApp.local_tracks. by rewrite Hi, Hms.
Qed.

Lemma toggleMute_twice_witness :
  WebrtcApp.local_tracks Example.talking
  = [{| kind := kind_audio; enabled := true; readyState := live |}]
  ∧ WebrtcApp.toggleMute (WebrtcApp.toggleMute Example.talking) = Example.talking.
Proof.
  assert (H1 : WebrtcApp.callState Example.talking = active)
    by (vm_compute; reflexivity).
  assert (H2 : WebrtcApp.localStreamRef Example.talking = Some 0%nat)
    by (vm_compute; reflexivity).
  destruct (toggleMute_twice Example.talking 0 H1 H2) as (_ & _ & H).
  split; [vm_compute; reflexivity|]. apply H.
  intros t Ht _.
  assert (Hl : WebrtcApp.local_tracks Example.talking
               = [{| kind := kind_audio; enabled := true; readyState := live |}])
    by (vm_compute; reflexivity).
  rewrite Hl in Ht. apply list_elem_of_singleton in Ht as ->.
  vm_compute. reflexivity.
Defined.

(** C10: without a local stream, [toggleMute] and [toggleCamera] return the
    state they were given: nothing is raised and nothing changes. *)
Theorem toggles_without_stream (s : WebrtcApp.State) :
  WebrtcApp.localStreamRef s = None →
  WebrtcApp.toggleMute s = s ∧ WebrtcApp.toggleCamera s = s.
Proof.
  intros H. unfold WebrtcApp.toggleMute, WebrtcApp.toggleCamera. by rewrite H.
Qed.

Lemma toggles_without_stream_witness :
  WebrtcApp.callState Example.ringing = incoming
  ∧ WebrtcApp.toggleMute Example.ringing = Example.ringing
  ∧ WebrtcApp.toggleCamera Example.ringing = Example.ringing.
Proof.
  assert (H : WebrtcApp.localStreamRef Example.ringing = None)
    by (vm_compute; reflexivity).
  split; [vm_compute; reflexivity|].
  exact (toggles_without_stream Example.ringing H).
Defined.

(** ** The call state machine *)

Section CallStates.
Import WebrtcApp.

Lemma emit_0 listener ticks s : emit 0 listener ticks s = s.
Proof. reflexivity. Qed.

Lemma emit_S n listener ticks s :
  emit (S n) listener ticks s = listener (ticks n) (emit n listener ticks s).
Proof. unfold emit. by rewrite seq_S, foldl_app. Qed.

Lemma callState_render s : callState (render s) = callState s.
Proof. reflexivity. Qed.

Lemma localStreamRef_render s : localStreamRef (render s) = localStreamRef s.
Proof. reflexivity. Qed.

Lemma isMuted_render s : isMuted (render s) = isMuted s.
Proof. reflexivity. Qed.

Lemma isCamOff_render s : isCamOff (render s) = isCamOff s.
Proof. reflexivity. Qed.

Lemma messages_render s : messages (render s) = messages s.
Proof. reflexivity. Qed.

Lemma handleCallEnded_spec reason tk s :
  let s' := handleCallEnded reason tk s in
  callState s' = idle
  ∧ localStreamRef s' = None
  ∧ isMuted s' = false
  ∧ isCamOff s' = false
  ∧ is_attached (localVideoRef s') = false
  ∧ is_attached (remoteVideoRef s') = false
  ∧ is_attached (remoteAudioRef s') = false.
Proof.
  unfold handleCallEnded, stopLocalStream.
  destruct (localStreamRef s) eqn:E; simpl; rewrite ?E;
    repeat split; apply is_attached_detach.
Qed.

(** An event on a call without listeners changes nothing. *)
Lemma call_event_unheard s call mc :
  mediaConnections s !! call = Some mc → mc_listeners mc = 0%nat →
  ∀ remoteStream message ticks,
    handle (CallStream call remoteStream ticks) s = s
    ∧ handle (CallClose call ticks) s = s
    ∧ handle (CallError call message ticks) s = s.
Proof. intros H H0 r m ticks. simpl. by rewrite H, H0. Qed.

(** What the remote end of a call with listeners gets when it closes the
    call or the call fails: the cleanup of [handleCallEnded]. *)
Lemma remote_termination_cleans s call mc ticks :
  mediaConnections s !! call = Some mc → (0 < mc_listeners mc)%nat →
  ∀ e, e = CallClose call ticks ∨ (∃ message, e = CallError call message ticks) →
    let s' := step s e in
    callState s' = idle
    ∧ localStreamRef s' = None
    ∧ isMuted s' = false
    ∧ isCamOff s' = false
    ∧ is_attached (localVideoRef s') = false
    ∧ is_attached (remoteVideoRef s') = false
    ∧ is_attached (remoteAudioRef s') = false
    ∧ ∃ before notice, messages s' = messages s ++ before ++ [notice]
                       ∧ sender notice = sender_system.
Proof.
  intros Hc Hn e He s'.
  assert (∃ reason tk s0, handle e s = handleCallEnded reason tk s0
                          ∧ extends s s0) as (reason & tk & s0 & Hs' & Hext).
  { destruct (mc_listeners mc) as [|n] eqn:En; [lia|].
    destruct He as [-> | [message ->]]; simpl; rewrite Hc, En, emit_S.
    - eexists _, _, _. split; [reflexivity|]. apply emit_extends.
      intros tk x. eapply extends_one, handleCallEnded_messages.
    - eexists _, _, _. split; [reflexivity|]. apply emit_extends.
      intros tk x. eapply extends_one, handleCallEnded_messages. }
  destruct (handleCallEnded_spec reason tk s0)
    as (Hidle & Href & Hm & Hc' & Hlv & Hrv & Hra).
  unfold s', step. rewrite Hs'.
  rewrite render_localVideoRef, render_remoteVideoRef, render_remoteAudioRef.
  rewrite callState_render, localStreamRef_render, isMuted_render,
    isCamOff_render, messages_render.
  split; [exact Hidle|]. split; [exact Href|]. split; [exact Hm|].
  split; [exact Hc'|].
  split; [by apply is_attached_mounted|].
  split; [by apply is_attached_mounted|].
  split; [by apply is_attached_mounted|].
  destruct Hext as [before Hb].
  exists before, (system_message reason tk).
  rewrite handleCallEnded_messages, Hb. by rewrite <- app_assoc.
Qed.

(** *** How the call becomes [active] *)

Lemma startCall_callState mode s :
  callState (startCall mode s) = calling ∨ startCall mode s = s.
Proof. unfold startCall. repeat case_match; auto. Qed.

Lemma emit_ended_callState n listener ticks s :
  (∀ tk s, callState (listener tk s) = idle) →
  callState (emit n listener ticks s) = callState s
  ∨ callState (emit n listener ticks s) = idle.
Proof.
  intros H. destruct n as [|n]; [by left|]. right. by rewrite emit_S.
Qed.

Lemma handleCallEnded_idle reason tk s :
  callState (handleCallEnded reason tk s) = idle.
Proof. by destruct (handleCallEnded_spec reason tk s) as [? _]. Qed.

Lemma settle_callState k o tk s :
  callState (settle k o tk s) = callState s
  ∨ callState (settle k o tk s) = idle.
Proof.
  destruct k, o; simpl; unfold_handlers; repeat case_match; simpl; auto.
Qed.

(** A handler other than the [stream] listener of a call that was set up
    leaves the call state as it is or sets it to a state other than
    [active]. *)
Lemma handle_callState e s :
  callState (handle e s) = callState s
  ∨ callState (handle e s) ≠ active
  ∨ ∃ call remoteStream ticks mc,
      e = CallStream call remoteStream ticks
      ∧ mediaConnections s !! call = Some mc
      ∧ (0 < mc_listeners mc)%nat.
Proof.
  destruct e; unfold handle;
    try (left; reflexivity);
    try (left; unfold_handlers; by repeat case_match).
  - left. unfold handleDrop. destruct (status s); try done.
    generalize s. induction files as [|f files IH]; intros s0; [done|].
    simpl. rewrite IH. unfold sendFile. by case_match.
  - destruct (startCall_callState mode s) as [H | ->]; [|by left].
    right. left. by rewrite H.
  - right. left. by unfold rejectCall.
  - right. left. unfold hangUp.
    by destruct (handleCallEnded_spec txt_call_ended tk (close_current_call s))
      as [-> _].
  - destruct (pending s !! i) as [k|]; [|by left].
    destruct (settle_callState k o tk (set_pending (delete i (pending s)) s))
      as [H | H]; [by left | right; left; by rewrite H].
  - right. left. by unfold peer_on_call.
  - destruct (mediaConnections s !! call) as [mc|] eqn:Hc; [|by left].
    destruct (mc_listeners mc) as [|n] eqn:En; [by left|].
    right. right. exists call, remoteStream, ticks, mc.
    split; [done|]. split; [done|]. lia.
  - destruct (mediaConnections s !! call) as [mc|]; [|by left].
    destruct (emit_ended_callState (mc_listeners mc) call_on_close ticks s)
      as [H | H]; [intros; apply handleCallEnded_idle | by left |].
    right; left; by rewrite H.
  - destruct (mediaConnections s !! call) as [mc|]; [|by left].
    destruct (emit_ended_callState (mc_listeners mc) (call_on_error message)
                ticks s)
      as [H | H]; [intros; apply handleCallEnded_idle | by left |].
    right; left; by rewrite H.
Qed.

(** The call turns [active] only in the [stream] listener that
    [setupMediaCall] registered. *)
Lemma active_only_by_stream s e :
  callState s ≠ active → callState (step s e) = active →
  ∃ call remoteStream ticks mc,
    e = CallStream call remoteStream ticks
    ∧ mediaConnections s !! call = Some mc
    ∧ (0 < mc_listeners mc)%nat.
Proof.
  intros Hs He. unfold step in He. rewrite callState_render in He.
  destruct (handle_callState e s) as [H | [H | H]]; [|done..].
  by rewrite H in He.
Qed.

(** From [idle], [startCall] reaches [calling], or nothing when there is no
    peer or no target id. *)
Lemma startCall_from_idle s mode :
  callState s = idle →
  callState (step s (ClickStartCall mode)) = calling
  ∨ callState (step s (ClickStartCall mode)) = idle.
Proof.
  intros Hs. unfold step. rewrite callState_render. simpl.
  destruct (startCall_callState mode s) as [H | ->]; auto.
Qed.

(** *** Listeners come after the local stream *)

Lemma alter_nil_inv {A} (f : A → A) i (l : list A) : alter f i l = [] → l = [].
Proof. intros H. apply (f_equal length) in H. rewrite length_alter in H.
  by apply nil_length_inv. Qed.

Lemma listeners_alter (f : MediaConnection → MediaConnection) i l :
  (∀ mc, mc_listeners (f mc) = mc_listeners mc) →
  Forall (λ mc, mc_listeners mc = 0%nat) l →
  Forall (λ mc, mc_listeners mc = 0%nat) (alter f i l).
Proof.
  intros Hf Hl. apply Forall_lookup. intros j mc Hj.
  destruct (decide (i = j)) as [->|Hne].
  - rewrite list_lookup_alter_eq in Hj.
    destruct (l !! j) as [mc0|] eqn:E; [|done]. injection Hj as <-.
    rewrite Hf. by apply (Forall_lookup_1 _ _ _ _ Hl E).
  - rewrite list_lookup_alter_ne in Hj by done.
    by apply (Forall_lookup_1 _ _ _ _ Hl Hj).
Qed.

Lemma stopLocalStream_listeners s :
  listeners_need_stream s → listeners_need_stream (stopLocalStream s).
Proof.
  unfold listeners_need_stream, stopLocalStream.
  destruct (localStreamRef s); simpl; [|done].
  intros H Hnil. apply H. by apply alter_nil_inv in Hnil.
Qed.

Lemma handleCallEnded_listeners reason tk s :
  listeners_need_stream s → listeners_need_stream (handleCallEnded reason tk s).
Proof. intros H. by apply stopLocalStream_listeners in H. Qed.

Lemma emit_listeners n listener ticks s :
  (∀ tk s, listeners_need_stream s → listeners_need_stream (listener tk s)) →
  listeners_need_stream s → listeners_need_stream (emit n listener ticks s).
Proof.
  intros Hl. induction n as [|n IH]; [done|]. intros Hs.
  rewrite emit_S. by apply Hl, IH.
Qed.

Lemma sendFile_listeners f s :
  listeners_need_stream s → listeners_need_stream (sendFile f s).
Proof. unfold sendFile. by case_match. Qed.

Lemma startCall_resolved_streams mode tid tk s :
  mediaStreams (startCall_resolved mode tid tk s)
  = mediaStreams s ++ [getUserMedia (is_video mode)].
Proof.
  unfold startCall_resolved. destruct (is_video mode);
    cbn [peerRef set_localVideoRef set_localStreamRef set_mediaStreams];
    destruct (peerRef s); reflexivity.
Qed.

Lemma answerCall_resolved_streams call mode s :
  mediaStreams (answerCall_resolved call mode s)
  = mediaStreams s ++ [getUserMedia (is_video mode)].
Proof. unfold answerCall_resolved. destruct (is_video mode); reflexivity. Qed.

Lemma handle_listeners e s :
  listeners_need_stream s → listeners_need_stream (handle e s).
Proof.
  intros Hs. destruct e; unfold handle; try exact Hs;
    try (unfold_handlers; by repeat case_match).
  - unfold handleDrop. destruct (status s); try done.
    revert s Hs. induction files as [|f files IH]; intros s Hs; [done|].
    simpl. by apply IH, sendFile_listeners.
  - unfold rejectCall, close_current_call.
    destruct (mediaCallRef s); [|done].
    intros Hnil. simpl in *. by apply listeners_alter; [|apply Hs].
  - unfold hangUp. apply handleCallEnded_listeners.
    unfold close_current_call. destruct (mediaCallRef s); [|done].
    intros Hnil. simpl in *. by apply listeners_alter; [|apply Hs].
  - unfold toggleMute. destruct (localStreamRef s); [|done].
    intros Hnil. simpl in *. apply Hs. by apply alter_nil_inv in Hnil.
  - unfold toggleCamera. destruct (localStreamRef s); [|done].
    intros Hnil. simpl in *. apply Hs. by apply alter_nil_inv in Hnil.
  - destruct (pending s !! i) as [k|]; [|done].
    destruct k, o; simpl; try done.
    + intros Hnil. rewrite startCall_resolved_streams in Hnil.
      by apply app_nil in Hnil as [_ ?].
    + intros Hnil. rewrite answerCall_resolved_streams in Hnil.
      by apply app_nil in Hnil as [_ ?].
  - unfold peer_on_call. intros Hnil. simpl in *.
    apply Forall_app. split; [by apply Hs|]. by repeat constructor.
  - destruct (mediaConnections s !! call) as [mc|]; [|done].
    apply emit_listeners; [|done]. intros tk0 s0 H0.
    unfold call_on_stream. by destruct (metadata_mode (mc_metadata mc)).
  - destruct (mediaConnections s !! call) as [mc|]; [|done].
    apply emit_listeners; [|done]. intros tk0 s0 H0.
    by apply handleCallEnded_listeners.
  - destruct (mediaConnections s !! call) as [mc|]; [|done].
    apply emit_listeners; [|done]. intros tk0 s0 H0.
    by apply handleCallEnded_listeners.
Qed.

Lemma run_listeners es :
  ∀ s, listeners_need_stream s → listeners_need_stream (run s es).
Proof.
  induction es as [|e es IH]; intros s Hs; [done|].
  simpl. apply IH. by apply (handle_listeners e s).
Qed.

(** X27: in every run of the component, the call turns [active] only by a
    [stream] event on a call that was set up, and by then a local stream was
    acquired. *)
Lemma active_after_local_stream m es e :
  let s := run (init m) es in
  callState s ≠ active → callState (step s e) = active →
  mediaStreams s ≠ []
  ∧ ∃ call remoteStream ticks, e = CallStream call remoteStream ticks.
Proof.
  intros s Hs He.
  destruct (active_only_by_stream s e Hs He) as (call & r & ticks & mc & -> & Hc & Hn).
  split; [|by eauto].
  assert (Hinv : listeners_need_stream s).
  { apply run_listeners. intros _. constructor. }
  intros Hnil. specialize (Hinv Hnil).
  pose proof (Forall_lookup_1 _ _ _ _ Hinv Hc) as H0. simpl in H0. lia.
Qed.

End CallStates.

(** C3, on the code: a call that rings has no listeners, as [peer.on('call')]
    registers none and [setupMediaCall] runs only once the call is answered.
    When the remote end cancels it, or it fails, the component does not
    move: the call stays [incoming]. *)
Theorem remote_cancel_while_incoming
    (s : WebrtcApp.State) (peer : jsstring) (metadata : option CallMode)
    (tk : Tick) (message : jsstring) (ticks : nat → Tick) :
  let ringing := WebrtcApp.step s (WebrtcApp.PeerCall peer metadata tk) in
  let call := length (WebrtcApp.mediaConnections s) in
  WebrtcApp.callState ringing = incoming
  ∧ WebrtcApp.mediaCallRef ringing = Some call
  ∧ WebrtcApp.handle (WebrtcApp.CallClose call ticks) ringing = ringing
  ∧ WebrtcApp.handle (WebrtcApp.CallError call message ticks) ringing = ringing
  ∧ WebrtcApp.callState (WebrtcApp.step ringing (WebrtcApp.CallClose call ticks))
    = incoming
  ∧ WebrtcApp.callState
      (WebrtcApp.step ringing (WebrtcApp.CallError call message ticks))
    = incoming.
Proof.
  intros ringing call.
  assert (Hcall : WebrtcApp.mediaConnections ringing !! call
                  = Some {| mc_peer := peer; mc_metadata := metadata;
                            mc_listeners := 0; mc_answered := false;
                            mc_closed := false |}).
  { unfold ringing, call, WebrtcApp.step. simpl.
    by rewrite lookup_app_r, Nat.sub_diag. }
  destruct (call_event_unheard ringing call _ Hcall eq_refl 0%nat message ticks)
    as (_ & Hclose & Herror).
  split; [done|]. split; [done|]. split; [exact Hclose|]. split; [exact Herror|].
  assert (Hin : WebrtcApp.callState ringing = incoming) by done.
  split.
  - unfold WebrtcApp.step at 1. by rewrite Hclose, callState_render.
  - unfold WebrtcApp.step at 1. by rewrite Herror, callState_render.
Qed.

(** C4, on the code: the peer that answers a video call becomes [active]
    with no remote stream attached. While the call is [incoming] the video
    elements are not rendered, so [attachStream(remoteVideoRef, ...)] returns
    at once; the handler then sets the call [active]. *)
Theorem active_without_remote_stream :
  WebrtcApp.feasible Example.callee Example.answer_video = true
  ∧ WebrtcApp.callState Example.answering = incoming
  ∧ WebrtcApp.remoteVideoRef Example.answering = None
  ∧ ∀ remoteStream ticks,
      let joined :=
        WebrtcApp.handle (WebrtcApp.CallStream 0 remoteStream ticks)
          Example.answering in
      WebrtcApp.callState joined = active
      ∧ WebrtcApp.remoteVideoRef joined = None
      ∧ WebrtcApp.is_attached (WebrtcApp.remoteAudioRef joined) = false
      ∧ WebrtcApp.is_attached (WebrtcApp.localVideoRef joined) = false
      ∧ WebrtcApp.callState (WebrtcApp.render joined) = active
      ∧ WebrtcApp.remoteVideoRef (WebrtcApp.render joined)
        = Some {| srcObject := None |}.
Proof.
  split; [vm_compute; reflexivity|]. split; [vm_compute; reflexivity|].
  split; [vm_compute; reflexivity|].
  intros remoteStream ticks. repeat split; vm_compute; reflexivity.
Qed.

(** ** Ids of the log *)

(** C8, on the code: two entries of the log can carry one id. In the base
    component the id of a text or of a notice is [Date.now().toString()], so
    two frames handled within one millisecond give two entries with one id;
    in the component with calls, [peer.on('error')] numbers its notice in
    that way too, while every other entry gets a random suffix. *)
Theorem ids_not_unique :
  ¬ unique_ids
      (Base.messages
         (Base.run Example.base_callee
            [Base.ConnData 0 (frame_text (js "hello")) (Example.tick 5) 1;
             Base.ConnData 0 (frame_text (js "again")) (Example.tick 5) 2]))
  ∧ ¬ unique_ids
        (WebrtcApp.messages
           (WebrtcApp.run Example.callee
              [WebrtcApp.PeerError (js "network") (js "Lost connection to server.")
                 (Example.tick 5);
               WebrtcApp.PeerError (js "network") (js "Lost connection to server.")
                 (Example.tick 5)])).
Proof.
  unfold unique_ids.
  split; intros H; pose proof (bool_decide_eq_true_2 _ H) as Hb;
    vm_compute in Hb; discriminate.
Qed.

(** * Further properties of the component *)

(** ** What the page shows *)

Section Shown.
Import Display.

Lemma digits_uint_uint_digits d : digits_uint (uint_digits d) = d.
Proof. induction d; simpl; by f_equal. Qed.

Lemma parseInt_toString10 n : parseInt (toString10 n) = n.
Proof.
  unfold parseInt, toString10. rewrite digits_uint_uint_digits.
  apply DecimalN.Unsigned.of_to.
Qed.

Lemma parseInt_zeros k s : parseInt (replicate k 48 ++ s) = parseInt s.
Proof. induction k as [|k IH]; [done|]. exact IH. Qed.

Lemma parseInt_padStart k n : parseInt (padStart k 48 (toString10 n)) = n.
Proof. unfold padStart. by rewrite parseInt_zeros, parseInt_toString10. Qed.

Lemma two_digits r :
  r < 100 → length (padStart 2 48 (toString10 r)) = 2%nat.
Proof.
  intros H. rewrite <- (N2Nat.id r).
  assert (Hn : (N.to_nat r < 100)%nat) by lia.
  revert Hn. generalize (N.to_nat r). intros n Hn.
  do 100 (destruct n as [|n]; [reflexivity|]). lia.
Qed.

Lemma one_digit r : r < 10 → padStart 1 48 (toString10 r) = toString10 r.
Proof.
  intros H. rewrite <- (N2Nat.id r).
  assert (Hn : (N.to_nat r < 10)%nat) by lia.
  revert Hn. generalize (N.to_nat r). intros n Hn.
  do 10 (destruct n as [|n]; [reflexivity|]). lia.
Qed.

Lemma padStart_length k fill s : (k ≤ length (padStart k fill s))%nat.
Proof. unfold padStart. rewrite length_app, length_replicate. lia. Qed.

End Shown.

(** X1: the text of a call duration, for every whole number of seconds
    that a JavaScript number holds exactly (below [2^53]). It is the minutes,
    a colon and the seconds; the seconds take two digits and read back as
    [s mod 60], the minutes take two digits or more and read back as
    [s / 60]; under a hundred minutes the text has five characters; two such
    durations with one text are equal. *)
Theorem formatDuration_reads_back (s : N) :
  Display.safe_integer s →
  (∃ m ss,
     Display.formatDuration s = m ++ [58] ++ ss
     ∧ length ss = 2%nat
     ∧ (2 ≤ length m)%nat
     ∧ Display.parseInt m = s / 60
     ∧ Display.parseInt ss = s mod 60)
  ∧ (s < 6000 → length (Display.formatDuration s) = 5%nat)
  ∧ (∀ s', Display.safe_integer s' →
           Display.formatDuration s' = Display.formatDuration s → s' = s).
Proof.
  intros _.
  assert (Hss : ∀ x, length (Display.padStart 2 48 (toString10 (x mod 60))) = 2%nat).
  { intros x. apply two_digits.
    assert (H60 : 60 ≠ 0) by done.
    pose proof (N.mod_upper_bound x 60 H60). lia. }
  split; [|split].
  - eexists _, _. split; [reflexivity|]. split; [apply Hss|].
    split; [apply padStart_length|].
    split; apply parseInt_padStart.
  - intros H. unfold Display.formatDuration.
    rewrite !length_app, Hss, two_digits; [done|].
    apply N.Div0.div_lt_upper_bound. lia.
  - intros s' _ H. unfold Display.formatDuration in H.
    apply app_inj_2 in H as [Hm Hs]; [|simpl; by rewrite !Hss].
    injection Hs as Hs.
    apply (f_equal Display.parseInt) in Hm, Hs.
    rewrite !parseInt_padStart in Hm, Hs.
    assert (H60 : 60 ≠ 0) by done.
    rewrite (N.div_mod s' 60 H60), (N.div_mod s 60 H60). by rewrite Hm, Hs.
Qed.

Lemma formatDuration_reads_back_witness :
  (∃ m ss,
     Display.formatDuration 125 = m ++ [58] ++ ss
     ∧ length ss = 2%nat
     ∧ (2 ≤ length m)%nat
     ∧ Display.parseInt m = 125 / 60
     ∧ Display.parseInt ss = 125 mod 60)
  ∧ (125 < 6000 → length (Display.formatDuration 125) = 5%nat)
  ∧ (∀ s', Display.safe_integer s' →
           Display.formatDuration s' = Display.formatDuration 125 → s' = 125).
Proof.
  assert (H : Display.safe_integer 125) by reflexivity.
  exact (formatDuration_reads_back 125 H).
Defined.

(** X2: the text of a file size between 1 KiB and 1 MiB. It is a whole
    part, a point, one digit and [" KB"], for the tenth of a kibibyte nearest
    to the size, the larger one of two; the whole part runs from 1 to 1024,
    and is 1024 for the last 51 sizes under 1 MiB. *)
Theorem formatSize_kilobytes (bytes : N) :
  1024 ≤ bytes → bytes < 1024 * 1024 →
  ∃ whole tenth,
    Display.formatSize bytes
    = toString10 whole ++ [46] ++ toString10 tenth ++ js " KB"
    ∧ 1 ≤ whole ≤ 1024
    ∧ tenth < 10
    ∧ 2048 * (10 * whole + tenth) ≤ 20 * bytes + 1024
    ∧ 20 * bytes + 1024 < 2048 * (10 * whole + tenth + 1)
    ∧ (1048525 ≤ bytes → whole = 1024 ∧ tenth = 0).
Proof.
  intros Hlo Hhi.
  set (n := (2 * bytes * 10 + 1024) / (2 * 1024)).
  exists (n / 10), (n mod 10).
  assert (H10 : 10 ≠ 0) by done.
  pose proof (N.mod_upper_bound n 10 H10) as Hm.
  split.
  { unfold Display.formatSize, Display.toFixed.
    destruct (N.ltb_spec bytes 1024); [lia|].
    destruct (N.ltb_spec bytes (1024 * 1024)); [|lia].
    change (10 ^ N.of_nat 1) with 10. fold n.
    rewrite one_digit by exact Hm. by rewrite <- !app_assoc. }
  assert (Hn : 2048 * n ≤ 20 * bytes + 1024 ∧ 20 * bytes + 1024 < 2048 * (n + 1)).
  { unfold n.
    assert (H0 : 2 * 1024 ≠ 0) by done.
    pose proof (N.div_mod (2 * bytes * 10 + 1024) (2 * 1024) H0) as Hd.
    pose proof (N.mod_upper_bound (2 * bytes * 10 + 1024) (2 * 1024) H0) as Hr.
    revert Hd Hr.
    generalize ((2 * bytes * 10 + 1024) / (2 * 1024)).
    generalize ((2 * bytes * 10 + 1024) mod (2 * 1024)). intros; lia. }
  pose proof (N.div_mod n 10 H10) as Hd.
  clearbody n. revert Hd Hm.
  generalize (n / 10). generalize (n mod 10). intros.
  repeat split; lia.
Qed.

Lemma formatSize_kilobytes_witness :
  ∃ whole tenth,
    Display.formatSize 1536
    = toString10 whole ++ [46] ++ toString10 tenth ++ js " KB"
    ∧ 1 ≤ whole ≤ 1024
    ∧ tenth < 10.
Proof.
  assert (H1 : 1024 ≤ 1536) by (vm_compute; discriminate).
  assert (H2 : 1536 < 1024 * 1024) by (vm_compute; reflexivity).
  destruct (formatSize_kilobytes 1536 H1 H2) as (whole & tenth & H & Hw & Ht & _).
  exists whole, tenth. split; [exact H|]. split; [exact Hw | exact Ht].
Defined.

(** ** The call timer *)

Section Timer.
Import CallTimer.

Lemma same_callState_eq a b : same_callState a b = true → a = b.
Proof. by destruct a, b. Qed.

Lemma same_callState_refl a : same_callState a a = true.
Proof. by destruct a. Qed.

Lemma filter_out_only (id : nat) : filter (λ i, i ≠ id) [id] = [].
Proof. by rewrite filter_cons_False, filter_nil by (intros H; by apply H). Qed.

(** What the effect leaves after the cleanup, from a timer that fits the
    previous call state. *)
Lemma effect_fits old new t :
  match old with
  | active => ∃ id, callTimerRef t = Some id ∧ intervals t = [id]
  | _ => callTimerRef t = None ∧ intervals t = [] ∧ callDuration t = 0
  end →
  let t' := effect new (cleanup t) in
  callDuration t' = 0
  ∧ match new with
    | active => ∃ id, callTimerRef t' = Some id ∧ intervals t' = [id]
    | _ => callTimerRef t' = None ∧ intervals t' = []
    end.
Proof.
  intros H.
  assert (Hclean : intervals (cleanup t) = []
                   ∧ (callTimerRef (cleanup t) = None
                      ∨ ∃ id, callTimerRef (cleanup t) = Some id)).
  { unfold cleanup. destruct old;
      try (destruct H as (Hr & Hi & _); rewrite Hr; split; [done | by left]).
    destruct H as (id & Hr & Hi). rewrite Hr. simpl. rewrite Hi, Hr.
    split; [apply filter_out_only | right; eauto]. }
  destruct Hclean as [Hi Hr]. generalize dependent (cleanup t). intros c Hi Hr.
  destruct new; simpl; (split; [done|]);
    [destruct (callTimerRef c) eqn:Ec; simpl; by rewrite ?Ec, ?Hi ..
    | rewrite Hi; eauto].
Qed.

Lemma timed_step_fits x e : timer_fits x → timer_fits (timed_step x e).
Proof.
  unfold timer_fits. destruct e as [e | id]; unfold timed_step; cbn [app timer].
  - destruct (same_callState (WebrtcApp.callState (app x))
                (WebrtcApp.callState (WebrtcApp.step (app x) e))) eqn:E.
    + apply same_callState_eq in E. by rewrite <- E.
    + intros H.
      destruct (effect_fits (WebrtcApp.callState (app x))
                  (WebrtcApp.callState (WebrtcApp.step (app x) e)) (timer x) H)
        as [Hd Hnew].
      destruct (WebrtcApp.callState (WebrtcApp.step (app x) e));
        try (destruct Hnew as [? ?]; by repeat split); exact Hnew.
  - unfold fire. destruct (WebrtcApp.callState (app x));
      try (intros (Hr & Hi & Hd); rewrite Hi;
           rewrite bool_decide_eq_false_2 by apply not_elem_of_nil; by rewrite Hi);
      intros (i & Hr & Hi); case_bool_decide; simpl; eauto.
Qed.

Lemma timed_run_fits es : ∀ x, timer_fits x → timer_fits (timed_run x es).
Proof.
  induction es as [|e es IH]; intros x Hx; [done|].
  simpl. by apply IH, timed_step_fits.
Qed.

End Timer.

(** X3: the call timer, in every run of the component. While the call is
    [active] exactly one interval is live, the one in [callTimerRef]: the
    counter never runs at double speed. While the call is in any other state
    no interval is live and the duration is zero. The duration is zero after
    the turn in which the call state changes. *)
Theorem call_timer_fits (m : N) (es : list CallTimer.TimedEvent) :
  let x := CallTimer.timed_run (CallTimer.timed_init m) es in
  CallTimer.timer_fits x
  ∧ (WebrtcApp.callState (CallTimer.app x) ≠ active →
     CallTimer.intervals (CallTimer.timer x) = []
     ∧ CallTimer.callDuration (CallTimer.timer x) = 0)
  ∧ (∀ e,
       WebrtcApp.callState
         (CallTimer.app (CallTimer.timed_step x (CallTimer.app_event e)))
       ≠ WebrtcApp.callState (CallTimer.app x) →
       CallTimer.callDuration
         (CallTimer.timer (CallTimer.timed_step x (CallTimer.app_event e))) = 0).
Proof.
  intros x.
  assert (Hx : CallTimer.timer_fits x).
  { apply timed_run_fits. unfold CallTimer.timer_fits. by vm_compute. }
  split; [exact Hx|]. split.
  - intros Hna. unfold CallTimer.timer_fits in Hx.
    destruct (WebrtcApp.callState (CallTimer.app x));
      try (by destruct Hx as (_ & ? & ?)); by destruct Hna.
  - intros e. unfold CallTimer.timed_step. cbn [CallTimer.app CallTimer.timer].
    intros Hne.
    destruct (CallTimer.same_callState
                (WebrtcApp.callState (CallTimer.app x))
                (WebrtcApp.callState (WebrtcApp.step (CallTimer.app x) e))) eqn:E.
    + apply same_callState_eq in E. by rewrite E in Hne.
    + by destruct (effect_fits _ (WebrtcApp.callState
                                    (WebrtcApp.step (CallTimer.app x) e))
                     (CallTimer.timer x) Hx) as [Hd _].
Qed.

(** X4: during an active call the duration counts the seconds: when the
    interval of [callTimerRef] fires [k] times and nothing else happens, the
    duration grows by [k]. *)
Theorem call_timer_counts (x : CallTimer.Timed) (id : nat) (k : nat) :
  CallTimer.timer_fits x →
  WebrtcApp.callState (CallTimer.app x) = active →
  CallTimer.callTimerRef (CallTimer.timer x) = Some id →
  CallTimer.callDuration
    (CallTimer.timer
       (CallTimer.timed_run x (replicate k (CallTimer.interval_fired id))))
  = CallTimer.callDuration (CallTimer.timer x) + N.of_nat k.
Proof.
  revert x. induction k as [|k IH]; intros x Hx Ha Hr.
  - simpl. lia.
  - change (CallTimer.timed_run x (replicate (S k) (CallTimer.interval_fired id)))
      with (CallTimer.timed_run
              (CallTimer.timed_step x (CallTimer.interval_fired id))
              (replicate k (CallTimer.interval_fired id))).
    assert (Hi : CallTimer.intervals (CallTimer.timer x) = [id]).
    { unfold CallTimer.timer_fits in Hx. rewrite Ha in Hx.
      destruct Hx as (i & Hr' & Hi). by simplify_eq. }
    assert (Hf : CallTimer.fire id (CallTimer.timer x)
                 = {| CallTimer.callDuration :=
                        CallTimer.callDuration (CallTimer.timer x) + 1;
                      CallTimer.callTimerRef := Some id;
                      CallTimer.intervals := [id];
                      CallTimer.next_interval :=
                        CallTimer.next_interval (CallTimer.timer x) |}).
    { unfold CallTimer.fire. rewrite Hi, Hr.
      rewrite bool_decide_eq_true_2; [done|]. apply elem_of_cons. by left. }
    rewrite (IH (CallTimer.timed_step x (CallTimer.interval_fired id))).
    + cbn [CallTimer.timed_step CallTimer.timer]. rewrite Hf. simpl. lia.
    + by apply timed_step_fits.
    + done.
    + cbn [CallTimer.timed_step CallTimer.timer]. by rewrite Hf.
Qed.

Lemma call_timer_counts_witness :
  CallTimer.callDuration
    (CallTimer.timer
       (CallTimer.timed_run
          (CallTimer.timed_run
             {| CallTimer.app := Example.caller;
                CallTimer.timer :=
                  {| CallTimer.callDuration := 0;
                     CallTimer.callTimerRef := None;
                     CallTimer.intervals := [];
                     CallTimer.next_interval := 0 |} |}
             (CallTimer.app_event <$> Example.in_call))
          (replicate 3 (CallTimer.interval_fired 0))))
  = 3.
Proof.
  set (x := CallTimer.timed_run _ (CallTimer.app_event <$> Example.in_call)).
  assert (H1 : CallTimer.timer_fits x)
    by (unfold CallTimer.timer_fits; vm_compute; by exists 0%nat).
  assert (H2 : WebrtcApp.callState (CallTimer.app x) = active)
    by (vm_compute; reflexivity).
  assert (H3 : CallTimer.callTimerRef (CallTimer.timer x) = Some 0%nat)
    by (vm_compute; reflexivity).
  rewrite (call_timer_counts x 0 3 H1 H2 H3).
  vm_compute. reflexivity.
Defined.

(** ** Handles *)

Section Handles.
Import WebrtcApp.

Lemma emit_preserves (P : State → Prop) n listener ticks s :
  (∀ tk s, P s → P (listener tk s)) → P s → P (emit n listener ticks s).
Proof.
  intros Hl. induction n as [|n IH]; [done|]. intros Hs.
  rewrite emit_S. by apply Hl, IH.
Qed.

Lemma handleDrop_preserves (P : State → Prop) files s :
  (∀ f s, P s → P (sendFile f s)) → P s → P (handleDrop files s).
Proof.
  intros Hf. unfold handleDrop. destruct (status s); try done.
  revert s. induction files as [|f files IH]; intros s Hs; [done|].
  simpl. by apply IH, Hf.
Qed.

Ltac solve_handles :=
  unfold_handlers; unfold peer_connect in *; repeat case_match; simpl in *;
  congruence.

Lemma sendFile_handles f s :
  connection s = connectionRef s →
  connection (sendFile f s) = connectionRef (sendFile f s).
Proof. intros H. solve_handles. Qed.

Lemma call_on_stream_handles mode r tk s :
  connection s = connectionRef s →
  connection (call_on_stream mode r tk s)
  = connectionRef (call_on_stream mode r tk s).
Proof. intros H. solve_handles. Qed.

Lemma handleCallEnded_handles reason tk s :
  connection s = connectionRef s →
  connection (handleCallEnded reason tk s)
  = connectionRef (handleCallEnded reason tk s).
Proof. intros H. solve_handles. Qed.

Lemma settle_handles k o tk s :
  connection s = connectionRef s →
  connection (settle k o tk s) = connectionRef (settle k o tk s).
Proof. intros H. destruct k, o; unfold settle; solve_handles. Qed.

Lemma handle_handles e s :
  connection s = connectionRef s →
  connection (handle e s) = connectionRef (handle e s).
Proof.
  intros H. destruct e; unfold handle;
    first
      [ exact H
      | by apply (handleDrop_preserves (λ x, connection x = connectionRef x));
          [apply sendFile_handles|]
      | destruct (pending s !! i); [by apply settle_handles | exact H]
      | destruct (mediaConnections s !! call); [|exact H];
        apply (emit_preserves (λ x, connection x = connectionRef x));
        [|exact H]; intros;
        first [ by apply call_on_stream_handles
              | by apply handleCallEnded_handles ]
      | solve_handles ].
Qed.

Lemma run_handles es :
  ∀ s, connection s = connectionRef s →
       connection (run s es) = connectionRef (run s es).
Proof.
  induction es as [|e es IH]; intros s Hs; [done|].
  simpl. apply IH. by apply (handle_handles e s).
Qed.

End Handles.

(** X5: the two copies of the connection handle. The component keeps the
    data connection in React state and in [connectionRef], which
    [sendMessage] and [sendFile] read; in every run the two hold the same
    connection, or both none: every handler that sets or clears one sets or
    clears the other. *)
Theorem connection_agrees_with_ref (m : N) (es : list WebrtcApp.Event) :
  WebrtcApp.connection (WebrtcApp.run (WebrtcApp.init m) es)
  = WebrtcApp.connectionRef (WebrtcApp.run (WebrtcApp.init m) es).
Proof. by apply run_handles. Qed.

(** ** The log *)

Section Log.
Import WebrtcApp.

Lemma awf_refl s : appends_well_formed s s.
Proof. exists []. by rewrite app_nil_r. Qed.

Lemma awf_trans s1 s2 s3 :
  appends_well_formed s1 s2 → appends_well_formed s2 s3 →
  appends_well_formed s1 s3.
Proof.
  intros (n1 & H1 & W1) (n2 & H2 & W2). exists (n1 ++ n2).
  split; [by rewrite H2, H1, app_assoc | by apply Forall_app].
Qed.

Lemma awf_same s s' : messages s' = messages s → appends_well_formed s s'.
Proof. intros H. exists []. by rewrite app_nil_r. Qed.

Lemma awf_one s s' m :
  messages s' = messages s ++ [m] → well_formed m → appends_well_formed s s'.
Proof. intros H W. exists [m]. split; [done | by constructor]. Qed.

Lemma well_formed_system text tk : well_formed (system_message text tk).
Proof. by repeat split. Qed.

Lemma handleCallEnded_awf reason tk s :
  appends_well_formed s (handleCallEnded reason tk s).
Proof.
  eapply awf_one; [apply handleCallEnded_messages | apply well_formed_system].
Qed.

Ltac one_entry :=
  unfold_handlers; repeat case_match;
  (eapply awf_one; [ reflexivity | repeat split; eauto; done ]).

Lemma settle_awf k o tk s : appends_well_formed s (settle k o tk s).
Proof.
  destruct k, o; unfold settle;
    first
      [ apply awf_refl
      | apply awf_same; unfold_handlers; by repeat case_match
      | one_entry ].
Qed.

Lemma handle_awf e s : appends_well_formed s (handle e s).
Proof.
  destruct e; unfold handle;
    first
      [ apply awf_refl
      | apply awf_same; reflexivity
      | apply awf_same, handleDrop_messages
      | apply handleCallEnded_awf
      | destruct (pending s !! i); [|apply awf_refl];
        eapply awf_trans; [|apply settle_awf]; by apply awf_same
      | destruct (mediaConnections s !! call); [|apply awf_refl];
        apply (emit_preserves (appends_well_formed s)); [|apply awf_refl];
        intros tk0 s0 H0; eapply awf_trans; [exact H0|];
        first [ apply handleCallEnded_awf | one_entry ]
      | destruct (dataConnections s !! conn); [|apply awf_refl];
        first [ one_entry | destruct data; first [apply awf_refl | one_entry] ]
      | apply awf_same; unfold_handlers; by repeat case_match
      | unfold sendMessage; repeat case_match;
        first [apply awf_refl | one_entry]
      | one_entry ].
Qed.

Lemma step_awf s e : appends_well_formed s (step s e).
Proof. exact (handle_awf e s). Qed.

Lemma run_awf es : ∀ s, appends_well_formed s (run s es).
Proof.
  induction es as [|e es IH]; intros s; [apply awf_refl|].
  simpl. eapply awf_trans; [apply step_awf | apply IH].
Qed.

End Log.

(** X6: the log. Every run of the component leaves the entries that were in
    the log where they were and adds entries after them; every entry it adds
    is a notice of the system without file fields, a text of one of the two
    sides without file fields, or a file message of one of the two sides,
    which carries a name, a size and a payload when it is the component's
    own. This holds whatever the remote side sends: the fields of a received
    file message are not constrained. *)
Theorem log_grows_well_formed (s : WebrtcApp.State) (es : list WebrtcApp.Event) :
  ∃ new,
    WebrtcApp.messages (WebrtcApp.run s es) = WebrtcApp.messages s ++ new
    ∧ Forall well_formed new.
Proof. apply (run_awf es s). Qed.

(** X7: a file that was received can be saved as it was sent. The message
    that the [file] frame of a named file adds to the log downloads under the
    name of the file with the bytes of the file, and shows the size of the
    file. *)
Theorem received_file_downloads
    (r : WebrtcApp.State) (rc : nat) (peer : jsstring) (f : File) (tk : Tick) :
  dc_peer <$> WebrtcApp.dataConnections r !! rc = Some peer →
  truthy (name f) = true →
  ∃ m,
    WebrtcApp.messages
      (WebrtcApp.step r
         (WebrtcApp.ConnData rc
            (frame_file (file_bytes f) (name f) (size f)) tk))
    = WebrtcApp.messages r ++ [m]
    ∧ Display.downloadFile m = Some (name f, file_bytes f)
    ∧ fileSize m = Some (N.of_nat (length (file_bytes f))).
Proof.
  intros Hpeer Hname. eexists. split; [by apply (deliver_file r rc peer)|].
  unfold Display.downloadFile. simpl. by rewrite Hname.
Qed.

Lemma received_file_downloads_witness :
  ∃ m,
    WebrtcApp.messages
      (WebrtcApp.step Example.callee
         (WebrtcApp.ConnData 0
            (frame_file (file_bytes Example.note) (name Example.note)
               (size Example.note)) (Example.tick 4)))
    = WebrtcApp.messages Example.callee ++ [m]
    ∧ Display.downloadFile m = Some (name Example.note, file_bytes Example.note).
Proof.
  assert (H1 : dc_peer <$> WebrtcApp.dataConnections Example.callee !! 0%nat
               = Some (js "006E7R")) by (vm_compute; reflexivity).
  assert (H2 : truthy (name Example.note) = true) by (vm_compute; reflexivity).
  destruct (received_file_downloads Example.callee 0 _ Example.note
              (Example.tick 4) H1 H2) as (m & Hm & Hd & _).
  exists m. split; [exact Hm | exact Hd].
Defined.

(** X8: which entries of the log can be saved. In every run of the
    component [downloadFile] never saves a text or a notice, and it saves a
    file message of the component's own exactly when the name of the file is
    not empty. (A file message from the remote side is saved when the frame
    carried a payload and a name, which the listener does not check.) *)
Theorem download_offered
    (m0 : N) (es : list WebrtcApp.Event) (m : Message) :
  m ∈ WebrtcApp.messages (WebrtcApp.run (WebrtcApp.init m0) es) →
  (msg_type m ≠ type_file → Display.downloadFile m = None)
  ∧ (sender m = sender_me →
     (is_Some (Display.downloadFile m)
      ↔ msg_type m = type_file ∧ fileName m ≠ Some [])).
Proof.
  intros Hin.
  destruct (run_awf es (WebrtcApp.init m0)) as (new & Hlog & Hwf).
  assert (Hm : well_formed m).
  { rewrite Hlog in Hin. apply (proj1 (Forall_forall _ _) Hwf). exact Hin. }
  unfold well_formed in Hm. unfold Display.downloadFile.
  destruct (msg_type m).
  - destruct Hm as (_ & _ & -> & _).
    split; [done|]. intros _. split; [by intros [? ?] | by intros [? _]].
  - destruct Hm as (_ & Hown).
    split; [done|]. intros Hme.
    destruct (Hown Hme) as ([fname ->] & _ & [data ->]).
    destruct fname as [|c fname]; simpl.
    + split; [by intros [? ?] | by intros [_ ?]].
    + split; [done | by eexists].
  - destruct Hm as (_ & _ & -> & _).
    split; [done|]. intros _. split; [by intros [? ?] | by intros [? _]].
Qed.

Lemma download_offered_witness :
  (msg_type (WebrtcApp.own_file_message Example.note (Example.tick 3))
   ≠ type_file →
   Display.downloadFile (WebrtcApp.own_file_message Example.note (Example.tick 3))
   = None)
  ∧ (sender (WebrtcApp.own_file_message Example.note (Example.tick 3))
     = sender_me →
     (is_Some (Display.downloadFile
                 (WebrtcApp.own_file_message Example.note (Example.tick 3)))
      ↔ msg_type (WebrtcApp.own_file_message Example.note (Example.tick 3))
        = type_file
        ∧ fileName (WebrtcApp.own_file_message Example.note (Example.tick 3))
          ≠ Some [])).
Proof.
  apply (download_offered 1234567890123
           [WebrtcApp.ChangeTargetId (js "01f5q5"); WebrtcApp.ClickConnect;
            WebrtcApp.ConnOpen 0 (Example.tick 0);
            WebrtcApp.ChooseFile Example.note;
            WebrtcApp.Settle 0 WebrtcApp.fulfilled (Example.tick 3)]).
  assert (Hlog : WebrtcApp.messages
                   (WebrtcApp.run (WebrtcApp.init 1234567890123)
                      [WebrtcApp.ChangeTargetId (js "01f5q5");
                       WebrtcApp.ClickConnect;
                       WebrtcApp.ConnOpen 0 (Example.tick 0);
                       WebrtcApp.ChooseFile Example.note;
                       WebrtcApp.Settle 0 WebrtcApp.fulfilled (Example.tick 3)])
                 = [WebrtcApp.system_message
                      (WebrtcApp.txt_connected_with ++ js "01F5Q5"
                         ++ WebrtcApp.txt_channel_up) (Example.tick 0);
                    WebrtcApp.own_file_message Example.note (Example.tick 3)])
    by (vm_compute; reflexivity).
  rewrite Hlog. apply elem_of_cons. right. apply elem_of_cons. by left.
Defined.

(** ** Sending *)

Section Sending.
Import WebrtcApp.

Lemma trimStart_blank s :
  Forall (λ c, is_white_space c = true) s → trimStart s = [].
Proof. induction 1 as [|c s Hc _ IH]; [done|]. simpl. by rewrite Hc. Qed.

Lemma trim_blank s : Forall (λ c, is_white_space c = true) s → trim s = [].
Proof. intros H. unfold trim, trimEnd. by rewrite (trimStart_blank s H). Qed.

Lemma set_messages_same s : set_messages (messages s) s = s.
Proof. by destruct s. Qed.





End Sending.

(** X10: when [sendMessage] does nothing. It returns the state it was given
    exactly when there is no connection in [connectionRef] or the text
    trims to nothing; a text made of white space only is such a text, so it
    is neither sent nor logged, and stays in the input. *)
Theorem sendMessage_does_nothing (s : WebrtcApp.State) (tk : Tick) :
  (WebrtcApp.sendMessage tk s = s
   ↔ WebrtcApp.connectionRef s = None ∨ trim (WebrtcApp.inputText s) = [])
  ∧ (Forall (λ c, is_white_space c = true) (WebrtcApp.inputText s) →
     WebrtcApp.sendMessage tk s = s).
Proof.
  assert (Hiff : WebrtcApp.sendMessage tk s = s
                 ↔ WebrtcApp.connectionRef s = None
                   ∨ trim (WebrtcApp.inputText s) = []).
  { unfold WebrtcApp.sendMessage.
    destruct (WebrtcApp.connectionRef s) as [c|] eqn:Ec; [|by split; auto].
    destruct (trim (WebrtcApp.inputText s)) as [|x t] eqn:Et; simpl.
    - split; auto.
    - split; [|by intros [?|?]].
      intros H. apply (f_equal (λ x, length (WebrtcApp.messages x))) in H.
      simpl in H. rewrite length_app in H. simpl in H. lia. }
  split; [exact Hiff|].
  intros Hblank. apply Hiff. right. by apply trim_blank.
Qed.



(** X12: a frame that arrives can only add to the log. Whatever the frame,
    the [data] listener leaves the connection state, the handles, the call
    and every store as they were and appends at most one entry; a frame of
    a type it does not know appends none. *)
Theorem frame_changes_only_log
    (s : WebrtcApp.State) (conn : nat) (data : Frame) (tk : Tick) :
  ∃ new,
    WebrtcApp.handle (WebrtcApp.ConnData conn data tk) s
    = WebrtcApp.set_messages (WebrtcApp.messages s ++ new) s
    ∧ (length new ≤ 1)%nat
    ∧ (∀ type, data = frame_other type → new = []).
Proof.
  assert (Hnone : ∃ new,
            s = WebrtcApp.set_messages (WebrtcApp.messages s ++ new) s
            ∧ (length new ≤ 1)%nat
            ∧ (∀ type, data = frame_other type → new = [])).
  { exists []. rewrite app_nil_r. split; [by rewrite set_messages_same|].
    split; [simpl; lia | done]. }
  unfold WebrtcApp.handle.
  destruct (WebrtcApp.dataConnections s !! conn) as [dc|]; [|exact Hnone].
  destruct data; [eexists [_] | eexists [_] | eexists [_] | exact Hnone];
    (split; [reflexivity|]); (split; [simpl; lia | done]).
Qed.

(** ** The connection state *)

Section Connection.
Import WebrtcApp.

Lemma status_render x : status (render x) = status x.
Proof. reflexivity. Qed.

Lemma settle_status k o tk s : status (settle k o tk s) = status s.
Proof. destruct k, o; unfold settle; unfold_handlers; by repeat case_match. Qed.

Lemma handle_status e s :
  status (handle e s) = status s
  ∨ status (handle e s) ≠ connected
  ∨ ∃ conn tk dc, e = ConnOpen conn tk ∧ dataConnections s !! conn = Some dc.
Proof.
  destruct e; unfold handle.
  - by left.
  - by left.
  - unfold_handlers. repeat case_match; simpl; first [by left | by (right; left)].
  - left. unfold_handlers. by repeat case_match.
  - left. unfold_handlers. by repeat case_match.
  - left. apply (handleDrop_preserves (λ x, status x = status s)); [|done].
    intros f x <-. unfold sendFile. by repeat case_match.
  - left. unfold_handlers. by repeat case_match.
  - left. unfold_handlers. by repeat case_match.
  - left. unfold_handlers. by repeat case_match.
  - left. unfold_handlers. by repeat case_match.
  - left. unfold_handlers. by repeat case_match.
  - left. unfold_handlers. by repeat case_match.
  - left. destruct (pending s !! i); [|done]. by rewrite settle_status.
  - by left.
  - by left.
  - by left.
  - right. left. simpl. discriminate.
  - destruct (dataConnections s !! conn) as [dc|] eqn:E; [|by left].
    right. right. eauto.
  - left. destruct (dataConnections s !! conn); [|done].
    unfold_handlers. by repeat case_match.
  - destruct (dataConnections s !! conn); [|by left].
    right. left. simpl. discriminate.
  - destruct (dataConnections s !! conn); [|by left].
    right. left. simpl. discriminate.
  - left. destruct (mediaConnections s !! call); [|done].
    apply (emit_preserves (λ x, status x = status s)); [|done].
    intros tk0 x <-. unfold call_on_close, call_on_error. unfold_handlers.
    by repeat case_match.
  - left. destruct (mediaConnections s !! call); [|done].
    apply (emit_preserves (λ x, status x = status s)); [|done].
    intros tk0 x <-. unfold call_on_close, call_on_error. unfold_handlers.
    by repeat case_match.
  - left. destruct (mediaConnections s !! call); [|done].
    apply (emit_preserves (λ x, status x = status s)); [|done].
    intros tk0 x <-. unfold call_on_close, call_on_error. unfold_handlers.
    by repeat case_match.
Qed.

End Connection.

(** X13: the connection becomes [connected] in one way only. A turn that
    takes the connection state to [connected] is the [open] event of a data
    connection of the store; no click, no incoming connection and no other
    event does it. *)
Theorem connected_only_by_open (s : WebrtcApp.State) (e : WebrtcApp.Event) :
  WebrtcApp.status s ≠ connected →
  WebrtcApp.status (WebrtcApp.step s e) = connected →
  ∃ conn tk dc,
    e = WebrtcApp.ConnOpen conn tk
    ∧ WebrtcApp.dataConnections s !! conn = Some dc.
Proof.
  intros Hs He. unfold WebrtcApp.step in He. rewrite status_render in He.
  destruct (handle_status e s) as [H|[H|H]]; [congruence | done | exact H].
Qed.

Lemma connected_only_by_open_witness :
  ∃ conn tk dc,
    WebrtcApp.ConnOpen 0 (Example.tick 0) = WebrtcApp.ConnOpen conn tk
    ∧ WebrtcApp.dataConnections Example.dialling !! conn = Some dc.
Proof.
  assert (H1 : WebrtcApp.status Example.dialling ≠ connected)
    by (vm_compute; discriminate).
  assert (H2 : WebrtcApp.status
                 (WebrtcApp.step Example.dialling
                    (WebrtcApp.ConnOpen 0 (Example.tick 0))) = connected)
    by (vm_compute; reflexivity).
  exact (connected_only_by_open Example.dialling
           (WebrtcApp.ConnOpen 0 (Example.tick 0)) H1 H2).
Defined.

(** ** The states of a call *)

Section Transitions.
Import WebrtcApp.

Lemma emit_stream_callState n mode r ticks s :
  callState (emit n (call_on_stream mode r) ticks s) = callState s
  ∨ callState (emit n (call_on_stream mode r) ticks s) = active.
Proof.
  destruct n as [|n]; [by left|]. right. rewrite emit_S.
  unfold call_on_stream. by destruct mode.
Qed.

Lemma settle_call_transition k o tk s :
  callState (settle k o tk s) = callState s
  ∨ callState (settle k o tk s) = idle
    ∧ ((∃ message, o = rejected message) ∨ peerRef s = None).
Proof.
  destruct k, o; unfold settle;
    first
      [ right; split; [reflexivity | left; by eexists]
      | left; unfold_handlers; by repeat case_match
      | idtac ].
  unfold startCall_resolved. destruct mode; simpl;
    destruct (peerRef s) eqn:E; simpl; rewrite ?E; auto.
Qed.

End Transitions.

(** X14: what moves a call from one state to another. After a turn the call
    state is what it was, or it is [calling] after a click on a call button,
    [incoming] after a call of the peer arrived, [active] after the [stream]
    event of a media connection, and [idle] after a click on reject or hang
    up, after a media request that failed (or was granted while there is no
    peer), or after the [close] or [error] event of a media connection. *)
Theorem call_state_transitions (s : WebrtcApp.State) (e : WebrtcApp.Event) :
  WebrtcApp.callState (WebrtcApp.step s e) = WebrtcApp.callState s
  ∨ match WebrtcApp.callState (WebrtcApp.step s e) with
    | calling => ∃ mode, e = WebrtcApp.ClickStartCall mode
    | incoming => ∃ peer metadata tk, e = WebrtcApp.PeerCall peer metadata tk
    | active =>
        ∃ call remoteStream ticks, e = WebrtcApp.CallStream call remoteStream ticks
    | idle =>
        (∃ tk, e = WebrtcApp.ClickReject tk)
        ∨ (∃ tk, e = WebrtcApp.ClickHangUp tk)
        ∨ (∃ i message tk, e = WebrtcApp.Settle i (WebrtcApp.rejected message) tk)
        ∨ (∃ i tk, e = WebrtcApp.Settle i WebrtcApp.fulfilled tk
                   ∧ WebrtcApp.peerRef s = None)
        ∨ (∃ call ticks, e = WebrtcApp.CallClose call ticks)
        ∨ (∃ call message ticks, e = WebrtcApp.CallError call message ticks)
    end.
Proof.
  unfold WebrtcApp.step. rewrite callState_render.
  destruct e; unfold WebrtcApp.handle.
  - by left.
  - by left.
  - left. unfold_handlers. by repeat case_match.
  - left. unfold_handlers. by repeat case_match.
  - left. unfold_handlers. by repeat case_match.
  - left.
    apply (handleDrop_preserves
             (λ x, WebrtcApp.callState x = WebrtcApp.callState s)); [|done].
    intros f x <-. unfold_handlers. by repeat case_match.
  - destruct (startCall_callState mode s) as [H|H]; rewrite H; [|by left].
    right. by eexists.
  - left. unfold_handlers. by repeat case_match.
  - right. simpl. left. by eexists.
  - right. unfold WebrtcApp.hangUp. rewrite handleCallEnded_idle.
    right. left. by eexists.
  - left. unfold_handlers. by repeat case_match.
  - left. unfold_handlers. by repeat case_match.
  - destruct (WebrtcApp.pending s !! i) as [k|]; [|by left].
    destruct (settle_call_transition k o tk
                (WebrtcApp.set_pending (delete i (WebrtcApp.pending s)) s))
      as [H|[H [[message ->]|Hp]]].
    + left. exact H.
    + right. rewrite H. right. right. left. by repeat eexists.
    + right. rewrite H. destruct o as [|message].
      * right. right. right. left. by repeat eexists.
      * right. right. left. by repeat eexists.
  - by left.
  - by left.
  - right. simpl. by repeat eexists.
  - by left.
  - left. unfold_handlers. by repeat case_match.
  - left. unfold_handlers. by repeat case_match.
  - left. unfold_handlers. by repeat case_match.
  - left. unfold_handlers. by repeat case_match.
  - destruct (WebrtcApp.mediaConnections s !! call) as [mc|]; [|by left].
    destruct (emit_stream_callState (mc_listeners mc)
                (WebrtcApp.metadata_mode (mc_metadata mc))
                remoteStream ticks s) as [H|H]; [by left|].
    right. rewrite H. by repeat eexists.
  - destruct (WebrtcApp.mediaConnections s !! call) as [mc|]; [|by left].
    destruct (emit_ended_callState (mc_listeners mc)
                WebrtcApp.call_on_close ticks s) as [H|H];
      [intros; apply handleCallEnded_idle | by left |].
    right. rewrite H. do 4 right. left. by repeat eexists.
  - destruct (WebrtcApp.mediaConnections s !! call) as [mc|]; [|by left].
    destruct (emit_ended_callState (mc_listeners mc)
                (WebrtcApp.call_on_error message) ticks s) as [H|H];
      [intros; apply handleCallEnded_idle | by left |].
    right. rewrite H. do 5 right. by repeat eexists.
Qed.

(** ** Placing and answering a call *)

Section Placing.
Import WebrtcApp.

Lemma lookup_last_pending {A} (l : list A) (k : A) :
  (l ++ [k]) !! length l = Some k.
Proof. by rewrite lookup_app_r, Nat.sub_diag by lia. Qed.

Lemma delete_last_pending {A} (l : list A) (k : A) :
  delete (length l) (l ++ [k]) = l.
Proof.
  induction l as [|x l IH]; [done|]. simpl. by rewrite IH.
Qed.

Lemma alter_last {A} (f : A → A) (l : list A) (x : A) :
  alter f (length l) (l ++ [x]) = l ++ [f x].
Proof.
  induction l as [|y l IH]; [done|].
  change (y :: alter f (length l) (l ++ [x]) = (y :: l) ++ [f x]).
  by rewrite IH.
Qed.

Lemma mediaConnections_render x : mediaConnections (render x) = mediaConnections x.
Proof. reflexivity. Qed.

Lemma mediaCallRef_render x : mediaCallRef (render x) = mediaCallRef x.
Proof. reflexivity. Qed.

Lemma mediaStreams_render x : mediaStreams (render x) = mediaStreams x.
Proof. reflexivity. Qed.

Lemma pending_render x : pending (render x) = pending x.
Proof. reflexivity. Qed.

Lemma handle_settle_last x l k o tk :
  pending x = l ++ [k] →
  handle (Settle (length l) o tk) x = settle k o tk (set_pending l x).
Proof.
  intros H. unfold handle.
  by rewrite H, lookup_last_pending, delete_last_pending.
Qed.

Lemma answerCall_resolved_calls l mc mode x :
  mediaConnections x = l ++ [mc] →
  mediaConnections (answerCall_resolved (length l) mode x)
  = l ++ [{| mc_peer := mc_peer mc; mc_metadata := mc_metadata mc;
             mc_listeners := S (mc_listeners mc); mc_answered := true;
             mc_closed := mc_closed mc |}].
Proof.
  intros H. unfold answerCall_resolved, setupMediaCall, answer.
  destruct mode; cbn [is_video mediaConnections set_mediaConnections
                      set_localVideoRef set_localStreamRef set_mediaStreams];
    by rewrite H, !alter_last.
Qed.

Lemma answerCall_resolved_local call mode x :
  localStreamRef (answerCall_resolved call mode x)
  = Some (length (mediaStreams x)).
Proof. unfold answerCall_resolved. by destruct mode. Qed.

Lemma answerCall_resolved_rest call mode x :
  mediaCallRef (answerCall_resolved call mode x) = mediaCallRef x
  ∧ callState (answerCall_resolved call mode x) = callState x
  ∧ pending (answerCall_resolved call mode x) = pending x.
Proof. unfold answerCall_resolved. by destruct mode. Qed.

Lemma answer_after_call s1 c mode tk l :
  mediaCallRef s1 = Some c → callMode s1 = mode → pending s1 = l →
  step (step s1 ClickAnswer) (Settle (length l) fulfilled tk)
  = render
      (answerCall_resolved c mode
         (set_pending l (step s1 ClickAnswer))).
Proof.
  intros H1 H2 H3.
  assert (P : pending (step s1 ClickAnswer) = l ++ [K_answerCall c mode]).
  { unfold step. rewrite pending_render. unfold handle, answerCall.
    by rewrite H1, H2, H3. }
  unfold step at 1. by rewrite (handle_settle_last _ _ _ _ _ P).
Qed.

Lemma step_answer_keeps s1 :
  mediaConnections (step s1 ClickAnswer) = mediaConnections s1
  ∧ mediaStreams (step s1 ClickAnswer) = mediaStreams s1
  ∧ mediaCallRef (step s1 ClickAnswer) = mediaCallRef s1
  ∧ callState (step s1 ClickAnswer) = callState s1.
Proof.
  unfold step. rewrite mediaConnections_render, mediaStreams_render,
    mediaCallRef_render, callState_render.
  unfold handle, answerCall. by destruct (mediaCallRef s1) eqn:E.
Qed.

End Placing.

(** X15: a media request that fails. When [getUserMedia] rejects in
    [startCall] or in [answerCall], the call state returns to [idle] and one
    notice with the reason is logged; no stream and no media connection is
    created, and the call that was ringing stays in [mediaCallRef], neither
    answered nor closed. *)
Theorem media_failure_returns_to_idle
    (s : WebrtcApp.State) (i : nat) (k : Continuation)
    (message : jsstring) (tk : Tick) :
  WebrtcApp.pending s !! i = Some k →
  (∀ conn f, k ≠ K_fileRead conn f) →
  let s' := WebrtcApp.step s (WebrtcApp.Settle i (WebrtcApp.rejected message) tk) in
  WebrtcApp.callState s' = idle
  ∧ WebrtcApp.messages s'
    = WebrtcApp.messages s
        ++ [WebrtcApp.system_message (WebrtcApp.txt_no_media_device ++ message) tk]
  ∧ WebrtcApp.mediaStreams s' = WebrtcApp.mediaStreams s
  ∧ WebrtcApp.localStreamRef s' = WebrtcApp.localStreamRef s
  ∧ WebrtcApp.mediaConnections s' = WebrtcApp.mediaConnections s
  ∧ WebrtcApp.mediaCallRef s' = WebrtcApp.mediaCallRef s
  ∧ WebrtcApp.pending s' = delete i (WebrtcApp.pending s).
Proof.
  intros Hk Hcall. cbv zeta. unfold WebrtcApp.step, WebrtcApp.handle.
  rewrite Hk. destruct k as [mode tid|call mode|conn f]; [| |by destruct (Hcall conn f)];
    by repeat split.
Qed.

Lemma media_failure_returns_to_idle_witness :
  WebrtcApp.callState
    (WebrtcApp.step
       (WebrtcApp.step Example.caller (WebrtcApp.ClickStartCall video))
       (WebrtcApp.Settle 0 (WebrtcApp.rejected (js "Permission denied"))
          (Example.tick 2)))
  = idle.
Proof.
  assert (H1 : WebrtcApp.pending
                 (WebrtcApp.step Example.caller (WebrtcApp.ClickStartCall video))
               !! 0%nat = Some (K_startCall video (js "01F5Q5")))
    by (vm_compute; reflexivity).
  assert (H2 : ∀ conn f, K_startCall video (js "01F5Q5") ≠ K_fileRead conn f)
    by discriminate.
  exact (proj1 (media_failure_returns_to_idle
                  (WebrtcApp.step Example.caller (WebrtcApp.ClickStartCall video))
                  0 _ (js "Permission denied") (Example.tick 2) H1 H2)).
Defined.

(** X16: placing a call. With a peer and a target id that is not blank, a
    click on a call button followed by the grant of the media request leaves
    one new media connection, to the trimmed target id, announcing the mode
    that was clicked, with one set of listeners, and holds it in
    [mediaCallRef]; the stream that was granted, with a video track exactly
    for a video call, is the local stream; the call state is [calling]; and
    for a video call the local preview shows that stream. *)
Theorem startCall_places_call
    (s : WebrtcApp.State) (mode : CallMode) (tk : Tick) :
  is_Some (WebrtcApp.peerRef s) →
  truthy (trim (WebrtcApp.targetId s)) = true →
  let s' :=
    WebrtcApp.run s
      [WebrtcApp.ClickStartCall mode;
       WebrtcApp.Settle (length (WebrtcApp.pending s)) WebrtcApp.fulfilled tk] in
  WebrtcApp.mediaConnections s'
  = WebrtcApp.mediaConnections s
      ++ [{| mc_peer := trim (WebrtcApp.targetId s); mc_metadata := Some mode;
             mc_listeners := 1; mc_answered := false; mc_closed := false |}]
  ∧ WebrtcApp.mediaCallRef s' = Some (length (WebrtcApp.mediaConnections s))
  ∧ WebrtcApp.mediaStreams s'
    = WebrtcApp.mediaStreams s ++ [WebrtcApp.getUserMedia (WebrtcApp.is_video mode)]
  ∧ WebrtcApp.localStreamRef s' = Some (length (WebrtcApp.mediaStreams s))
  ∧ WebrtcApp.callState s' = calling
  ∧ WebrtcApp.callMode s' = mode
  ∧ WebrtcApp.pending s' = WebrtcApp.pending s
  ∧ (mode = video →
     WebrtcApp.localVideoRef s'
     = Some {| srcObject := Some (local_stream (length (WebrtcApp.mediaStreams s))) |}).
Proof.
  intros [p Hp] Ht.
  assert (Hs : WebrtcApp.startCall mode s
               = WebrtcApp.set_pending
                   (WebrtcApp.pending s
                      ++ [K_startCall mode (WebrtcApp.targetId s)])
                   (WebrtcApp.set_callState calling
                      (WebrtcApp.set_callMode mode s))).
  { unfold WebrtcApp.startCall. by rewrite Hp, Ht. }
  cbv zeta. unfold WebrtcApp.run. cbn [foldl].
  unfold WebrtcApp.step, WebrtcApp.handle. rewrite Hs.
  unfold WebrtcApp.settle, WebrtcApp.startCall_resolved.
  destruct mode; repeat split; intros;
    repeat progress
      (rewrite ?lookup_last_pending, ?delete_last_pending, ?Hp, ?alter_last;
       cbn -[trim js]);
    done.
Qed.

Lemma startCall_places_call_witness :
  let s' :=
    WebrtcApp.run Example.caller
      [WebrtcApp.ClickStartCall video;
       WebrtcApp.Settle (length (WebrtcApp.pending Example.caller))
         WebrtcApp.fulfilled (Example.tick 2)] in
  WebrtcApp.mediaConnections s'
  = WebrtcApp.mediaConnections Example.caller
      ++ [{| mc_peer := trim (WebrtcApp.targetId Example.caller);
             mc_metadata := Some video;
             mc_listeners := 1; mc_answered := false; mc_closed := false |}]
  ∧ WebrtcApp.mediaCallRef s'
    = Some (length (WebrtcApp.mediaConnections Example.caller))
  ∧ WebrtcApp.mediaStreams s'
    = WebrtcApp.mediaStreams Example.caller
        ++ [WebrtcApp.getUserMedia (WebrtcApp.is_video video)]
  ∧ WebrtcApp.localStreamRef s'
    = Some (length (WebrtcApp.mediaStreams Example.caller))
  ∧ WebrtcApp.callState s' = calling
  ∧ WebrtcApp.callMode s' = video
  ∧ WebrtcApp.pending s' = WebrtcApp.pending Example.caller
  ∧ (video = video →
     WebrtcApp.localVideoRef s'
     = Some {| srcObject :=
                 Some (local_stream
                         (length (WebrtcApp.mediaStreams Example.caller))) |}).
Proof.
  assert (H1 : is_Some (WebrtcApp.peerRef Example.caller))
    by (vm_compute; eexists; reflexivity).
  assert (H2 : truthy (trim (WebrtcApp.targetId Example.caller)) = true)
    by (vm_compute; reflexivity).
  exact (startCall_places_call Example.caller video (Example.tick 2) H1 H2).
Defined.

(** X17: answering a call. From any state, a call of the peer that arrives,
    a click on the answer button and the grant of the media request leave
    that call answered, with one set of listeners, and a local stream with a
    video track exactly when the caller announced a video call; a call that
    announces no mode is answered with audio only. The call state is still
    [incoming]: it is the [stream] event that makes the call active. *)
Theorem answer_uses_announced_mode
    (s : WebrtcApp.State) (peer : jsstring) (metadata : option CallMode)
    (tk tk' : Tick) :
  let s' :=
    WebrtcApp.run s
      [WebrtcApp.PeerCall peer metadata tk;
       WebrtcApp.ClickAnswer;
       WebrtcApp.Settle (length (WebrtcApp.pending s)) WebrtcApp.fulfilled tk'] in
  WebrtcApp.mediaConnections s'
  = WebrtcApp.mediaConnections s
      ++ [{| mc_peer := peer; mc_metadata := metadata;
             mc_listeners := 1; mc_answered := true; mc_closed := false |}]
  ∧ WebrtcApp.mediaCallRef s' = Some (length (WebrtcApp.mediaConnections s))
  ∧ WebrtcApp.local_tracks s'
    = getTracks
        (WebrtcApp.getUserMedia
           (match metadata with Some video => true | _ => false end))
  ∧ WebrtcApp.callState s' = incoming
  ∧ WebrtcApp.pending s' = WebrtcApp.pending s.
Proof.
  cbv zeta. unfold WebrtcApp.run. cbn [foldl].
  set (s1 := WebrtcApp.step s (WebrtcApp.PeerCall peer metadata tk)).
  assert (H1 : WebrtcApp.mediaCallRef s1
               = Some (length (WebrtcApp.mediaConnections s))) by reflexivity.
  assert (H2 : WebrtcApp.callMode s1 = WebrtcApp.metadata_mode metadata)
    by reflexivity.
  assert (H3 : WebrtcApp.pending s1 = WebrtcApp.pending s) by reflexivity.
  assert (H4 : WebrtcApp.mediaConnections s1
               = WebrtcApp.mediaConnections s
                   ++ [{| mc_peer := peer; mc_metadata := metadata;
                          mc_listeners := 0; mc_answered := false;
                          mc_closed := false |}]) by reflexivity.
  assert (H5 : WebrtcApp.mediaStreams s1 = WebrtcApp.mediaStreams s)
    by reflexivity.
  assert (H6 : WebrtcApp.callState s1 = incoming) by reflexivity.
  clearbody s1.
  rewrite (answer_after_call s1 _ _ tk' _ H1 H2 H3).
  destruct (step_answer_keeps s1) as (K1 & K2 & K3 & K4).
  rewrite H4 in K1. rewrite H5 in K2. rewrite H1 in K3. rewrite H6 in K4.
  set (x := WebrtcApp.set_pending (WebrtcApp.pending s)
              (WebrtcApp.step s1 WebrtcApp.ClickAnswer)).
  destruct (answerCall_resolved_rest (length (WebrtcApp.mediaConnections s))
              (WebrtcApp.metadata_mode metadata) x) as (R1 & R2 & R3).
  unfold WebrtcApp.local_tracks.
  rewrite mediaConnections_render, mediaCallRef_render, pending_render,
    callState_render, localStreamRef_render, mediaStreams_render.
  rewrite (answerCall_resolved_calls (WebrtcApp.mediaConnections s)
             {| mc_peer := peer; mc_metadata := metadata; mc_listeners := 0;
                mc_answered := false; mc_closed := false |} _ x K1).
  rewrite answerCall_resolved_local, answerCall_resolved_streams.
  rewrite R1, R2, R3.
  replace (WebrtcApp.mediaStreams x) with (WebrtcApp.mediaStreams s)
    by (symmetry; exact K2).
  replace (WebrtcApp.mediaCallRef x)
    with (Some (length (WebrtcApp.mediaConnections s)))
    by (symmetry; exact K3).
  replace (WebrtcApp.callState x) with incoming by (symmetry; exact K4).
  rewrite lookup_last_pending.
  repeat split. by destruct metadata as [[]|].
Qed.

(** ** The in-call controls *)

Section Toggles.
Import WebrtcApp.

Lemma set_enabled_identity k v ms :
  track_identity <$> getTracks (set_enabled k v ms)
  = track_identity <$> getTracks ms.
Proof.
  destruct ms as [ts]. unfold set_enabled. simpl.
  induction ts as [|[kt e r] ts IH]; [done|].
  rewrite !fmap_cons, IH. f_equal. by destruct k, kt.
Qed.

Lemma set_enabled_other k v ms j t :
  getTracks ms !! j = Some t → kind t ≠ k →
  getTracks (set_enabled k v ms) !! j = Some t.
Proof.
  destruct ms as [ts]. unfold set_enabled. simpl. intros H Hk.
  rewrite list_lookup_fmap, H. simpl.
  destruct t as [kt e r]. simpl in Hk. by destruct k, kt.
Qed.

Lemma set_enabled_commute v w ms :
  set_enabled kind_audio v (set_enabled kind_video w ms)
  = set_enabled kind_video w (set_enabled kind_audio v ms).
Proof.
  destruct ms as [ts]. unfold set_enabled. simpl. f_equal.
  induction ts as [|[kt e r] ts IH]; [done|].
  rewrite !fmap_cons, IH. f_equal. by destruct kt.
Qed.

Lemma set_enabled_video v ms t :
  t ∈ getTracks (set_enabled kind_video v ms) → kind t = kind_video →
  enabled t = v.
Proof.
  destruct ms as [ts]. unfold set_enabled. simpl. intros Ht Hk.
  apply list_elem_of_fmap in Ht as ([kt e r] & -> & _).
  by destruct kt.
Qed.

Lemma tracks_of_alter (f : MediaStream → MediaStream) j s s' i :
  mediaStreams s' = alter f j (mediaStreams s) →
  tracks_of i s' = tracks_of i s
  ∨ ∃ ms, tracks_of i s = getTracks ms ∧ tracks_of i s' = getTracks (f ms).
Proof.
  intros H. unfold tracks_of. rewrite H.
  destruct (decide (j = i)) as [->|Hne].
  - rewrite list_lookup_alter_eq.
    destruct (mediaStreams s !! i) as [ms|]; simpl; eauto.
  - rewrite list_lookup_alter_ne by done. by left.
Qed.

Lemma toggleMute_streams s :
  toggleMute s = s
  ∨ ∃ j, mediaStreams (toggleMute s)
         = alter (set_enabled kind_audio (isMuted s)) j (mediaStreams s).
Proof. unfold toggleMute. destruct (localStreamRef s); eauto. Qed.

Lemma toggleCamera_streams s :
  toggleCamera s = s
  ∨ ∃ j, mediaStreams (toggleCamera s)
         = alter (set_enabled kind_video (isCamOff s)) j (mediaStreams s).
Proof. unfold toggleCamera. destruct (localStreamRef s); eauto. Qed.

Lemma toggled_tracks k v j s s' i :
  s' = s ∨ mediaStreams s' = alter (set_enabled k v) j (mediaStreams s) →
  track_identity <$> tracks_of i s' = track_identity <$> tracks_of i s
  ∧ (∀ n t, tracks_of i s !! n = Some t → kind t ≠ k →
            tracks_of i s' !! n = Some t)
  ∧ length (mediaStreams s') = length (mediaStreams s).
Proof.
  intros [->|H]; [done|]. split; [|split].
  - destruct (tracks_of_alter _ j s s' i H) as [->|(ms & -> & ->)]; [done|].
    apply set_enabled_identity.
  - intros n t Ht Hk.
    destruct (tracks_of_alter _ j s s' i H) as [->|(ms & E & ->)]; [done|].
    rewrite E in Ht. by apply set_enabled_other.
  - by rewrite H, length_alter.
Qed.

End Toggles.

(** X18: the two controls touch nothing but the [enabled] flags. After
    [toggleMute] and after [toggleCamera] every stream of the store has the
    tracks it had, of the same kinds and in the same ready states; the store
    has as many streams as before; [toggleMute] leaves every video track as
    it was and [toggleCamera] every audio track. *)
Theorem toggles_touch_only_enabled (s : WebrtcApp.State) (i : nat) :
  (track_identity <$> WebrtcApp.tracks_of i (WebrtcApp.toggleMute s)
   = track_identity <$> WebrtcApp.tracks_of i s)
  ∧ (track_identity <$> WebrtcApp.tracks_of i (WebrtcApp.toggleCamera s)
     = track_identity <$> WebrtcApp.tracks_of i s)
  ∧ (∀ n t, WebrtcApp.tracks_of i s !! n = Some t → kind t = kind_video →
            WebrtcApp.tracks_of i (WebrtcApp.toggleMute s) !! n = Some t)
  ∧ (∀ n t, WebrtcApp.tracks_of i s !! n = Some t → kind t = kind_audio →
            WebrtcApp.tracks_of i (WebrtcApp.toggleCamera s) !! n = Some t)
  ∧ length (WebrtcApp.mediaStreams (WebrtcApp.toggleMute s))
    = length (WebrtcApp.mediaStreams s)
  ∧ length (WebrtcApp.mediaStreams (WebrtcApp.toggleCamera s))
    = length (WebrtcApp.mediaStreams s).
Proof.
  assert (Hm : ∃ j, WebrtcApp.toggleMute s = s
                    ∨ WebrtcApp.mediaStreams (WebrtcApp.toggleMute s)
                      = alter (WebrtcApp.set_enabled kind_audio
                                 (WebrtcApp.isMuted s)) j
                          (WebrtcApp.mediaStreams s)).
  { destruct (toggleMute_streams s) as [H|[j H]]; [exists 0%nat|exists j]; auto. }
  assert (Hc : ∃ j, WebrtcApp.toggleCamera s = s
                    ∨ WebrtcApp.mediaStreams (WebrtcApp.toggleCamera s)
                      = alter (WebrtcApp.set_enabled kind_video
                                 (WebrtcApp.isCamOff s)) j
                          (WebrtcApp.mediaStreams s)).
  { destruct (toggleCamera_streams s) as [H|[j H]]; [exists 0%nat|exists j]; auto. }
  destruct Hm as [jm Hm], Hc as [jc Hc].
  destruct (toggled_tracks _ _ jm s _ i Hm) as (M1 & M2 & M3).
  destruct (toggled_tracks _ _ jc s _ i Hc) as (C1 & C2 & C3).
  repeat split; try done.
  - intros n t Ht Hk. apply M2; [done|]. by rewrite Hk.
  - intros n t Ht Hk. apply C2; [done|]. by rewrite Hk.
Qed.

(** X19: the two controls do not interfere. Muting and then switching the
    camera gives the state that switching the camera and then muting
    gives. *)
Theorem toggles_commute (s : WebrtcApp.State) :
  WebrtcApp.toggleMute (WebrtcApp.toggleCamera s)
  = WebrtcApp.toggleCamera (WebrtcApp.toggleMute s).
Proof.
  unfold WebrtcApp.toggleMute, WebrtcApp.toggleCamera.
  destruct (WebrtcApp.localStreamRef s) as [i|] eqn:E; simpl; rewrite ?E; [|done].
  unfold WebrtcApp.set_isMuted, WebrtcApp.set_isCamOff,
    WebrtcApp.set_mediaStreams. simpl. f_equal.
  apply list_eq. intros n.
  destruct (decide (i = n)) as [->|Hne].
  - rewrite !list_lookup_alter_eq.
    destruct (WebrtcApp.mediaStreams s !! n) as [ms|]; [|done].
    simpl. f_equal. apply set_enabled_commute.
  - by rewrite !list_lookup_alter_ne.
Qed.

(** X20: the camera button pressed twice. With a local stream, two calls of
    [toggleCamera] give the camera flag its first value, and give back the
    state they started from when the video tracks of the stream agreed with
    the flag (enabled exactly when the camera was not off). *)
Theorem toggleCamera_twice (s : WebrtcApp.State) (i : nat) :
  WebrtcApp.localStreamRef s = Some i →
  let s2 := WebrtcApp.toggleCamera (WebrtcApp.toggleCamera s) in
  WebrtcApp.isCamOff s2 = WebrtcApp.isCamOff s
  ∧ (∀ t, t ∈ WebrtcApp.local_tracks s2 → kind t = kind_video →
          enabled t = negb (WebrtcApp.isCamOff s))
  ∧ ((∀ t, t ∈ WebrtcApp.local_tracks s → kind t = kind_video →
           enabled t = negb (WebrtcApp.isCamOff s)) →
     s2 = s).
Proof.
  intros Hi s2. split; [|split].
  - unfold s2, WebrtcApp.toggleCamera. rewrite Hi. simpl. rewrite Hi. simpl.
    apply negb_involutive.
  - unfold s2, WebrtcApp.toggleCamera, WebrtcApp.local_tracks.
    rewrite Hi. simpl. rewrite Hi. simpl. rewrite Hi.
    rewrite list_alter_alter_eq, list_lookup_alter_eq.
    destruct (WebrtcApp.mediaStreams s !! i) as [ms|]; simpl;
      [|by intros t ?%elem_of_nil].
    intros t Ht Hk.
    by rewrite (set_enabled_video (negb (WebrtcApp.isCamOff s))
                  (WebrtcApp.set_enabled kind_video (WebrtcApp.isCamOff s) ms)
                  t Ht Hk).
  - intros Hfollow.
    unfold s2, WebrtcApp.toggleCamera. rewrite Hi. simpl. rewrite Hi. simpl.
    rewrite list_alter_alter_eq.
    rewrite alter_fix.
    + rewrite negb_involutive. by destruct s.
    + intros ms Hms. simpl. apply set_enabled_twice.
      intros t Ht Hk. apply Hfollow; [|done].
      unfold WebrtcApp.local_tracks. by rewrite Hi, Hms.
Qed.

Lemma toggleCamera_twice_witness :
  WebrtcApp.isCamOff
    (WebrtcApp.toggleCamera (WebrtcApp.toggleCamera Example.answering))
  = WebrtcApp.isCamOff Example.answering.
Proof.
  assert (H : WebrtcApp.localStreamRef Example.answering = Some 0%nat)
    by (vm_compute; reflexivity).
  exact (proj1 (toggleCamera_twice Example.answering 0 H)).
Defined.

(** ** After the call *)

Section Over.
Import WebrtcApp.

Lemma handleCallEnded_over reason tk x :
  call_over x →
  handleCallEnded reason tk x = append_message (system_message reason tk) x.
Proof.
  destruct x. unfold call_over. simpl.
  intros (-> & -> & -> & -> & -> & H1 & H2 & H3).
  unfold handleCallEnded, stopLocalStream, addSystemMessage, append_message.
  simpl.
  destruct localVideoRef0 as [[[?|]]|], remoteVideoRef0 as [[[?|]]|],
    remoteAudioRef0 as [[[?|]]|]; try discriminate; reflexivity.
Qed.

Lemma call_over_ended reason tk x : call_over (handleCallEnded reason tk x).
Proof.
  destruct (handleCallEnded_spec reason tk x) as (? & ? & ? & ? & ? & ? & ?).
  by repeat split.
Qed.

Lemma call_over_render x : call_over x → call_over (render x).
Proof.
  intros (? & ? & ? & ? & ? & ? & ? & ?).
  repeat split; try done; by apply is_attached_mounted.
Qed.

Lemma call_over_log l x : call_over x → call_over (set_messages l x).
Proof. done. Qed.

Lemma mounted_twice shown ref :
  mounted shown (mounted shown ref) = mounted shown ref.
Proof. by destruct shown. Qed.

Lemma render_render x : render (render x) = render x.
Proof.
  unfold render.
  cbn [video_panel_shown callState callMode localVideoRef remoteVideoRef
       remoteAudioRef set_localVideoRef set_remoteVideoRef set_remoteAudioRef].
  by rewrite !mounted_twice.
Qed.

Lemma render_set_messages l x :
  render (set_messages l x) = set_messages l (render x).
Proof. by destruct x. Qed.

Lemma emit_close_over n ticks x :
  call_over x →
  emit n call_on_close ticks x
  = set_messages
      (messages x
         ++ ((λ i, system_message txt_remote_hung_up (ticks i)) <$> seq 0 n))
      x.
Proof.
  intros Hx. induction n as [|n IH].
  - rewrite emit_0. simpl. rewrite app_nil_r. by destruct x.
  - rewrite emit_S, IH. unfold call_on_close.
    rewrite handleCallEnded_over by by apply call_over_log.
    rewrite seq_S, fmap_app, app_assoc. reflexivity.
Qed.

End Over.

(** X22: the [close] event after a hang-up. When the user hangs up the call
    held in [mediaCallRef] and the [close] event of that call arrives
    afterwards, each set of listeners of the call logs one more notice that
    the other side hung up; nothing else changes. *)
Theorem close_after_hangUp
    (s : WebrtcApp.State) (c : nat) (mc : MediaConnection)
    (tk : Tick) (ticks : nat → Tick) :
  WebrtcApp.mediaCallRef s = Some c →
  WebrtcApp.mediaConnections s !! c = Some mc →
  let s1 := WebrtcApp.step s (WebrtcApp.ClickHangUp tk) in
  WebrtcApp.step s1 (WebrtcApp.CallClose c ticks)
  = WebrtcApp.set_messages
      (WebrtcApp.messages s1
         ++ ((λ i, WebrtcApp.system_message WebrtcApp.txt_remote_hung_up (ticks i))
               <$> seq 0 (mc_listeners mc)))
      s1.
Proof.
  intros Hc Hmc s1.
  assert (Hover : call_over s1).
  { apply call_over_render, call_over_ended. }
  assert (Hl : ∃ mc', WebrtcApp.mediaConnections s1 !! c = Some mc'
                      ∧ mc_listeners mc' = mc_listeners mc).
  { unfold s1, WebrtcApp.step. rewrite mediaConnections_render.
    unfold WebrtcApp.handle, WebrtcApp.hangUp.
    assert (E : WebrtcApp.mediaConnections
                  (WebrtcApp.handleCallEnded WebrtcApp.txt_call_ended tk
                     (WebrtcApp.close_current_call s))
                = WebrtcApp.mediaConnections (WebrtcApp.close_current_call s)).
    { unfold_handlers. by repeat case_match. }
    rewrite E. unfold WebrtcApp.close_current_call. rewrite Hc. simpl.
    rewrite list_lookup_alter_eq, Hmc. simpl. by eexists. }
  destruct Hl as (mc' & Hmc' & Hn).
  assert (Hr : WebrtcApp.render s1 = s1).
  { unfold s1, WebrtcApp.step. apply render_render. }
  clearbody s1.
  unfold WebrtcApp.step, WebrtcApp.handle. rewrite Hmc', Hn.
  rewrite (emit_close_over _ ticks s1 Hover).
  by rewrite render_set_messages, Hr.
Qed.

Lemma close_after_hangUp_witness :
  let s1 := WebrtcApp.step Example.talking (WebrtcApp.ClickHangUp (Example.tick 9)) in
  WebrtcApp.step s1 (WebrtcApp.CallClose 0 (Example.ticks 10))
  = WebrtcApp.set_messages
      (WebrtcApp.messages s1
         ++ ((λ i, WebrtcApp.system_message WebrtcApp.txt_remote_hung_up
                     (Example.ticks 10 i))
               <$> seq 0
                     (mc_listeners
                        {| mc_peer := js "01F5Q5"; mc_metadata := Some audio;
                           mc_listeners := 1; mc_answered := false;
                           mc_closed := false |})))
      s1.
Proof.
  assert (H1 : WebrtcApp.mediaCallRef Example.talking = Some 0%nat)
    by (vm_compute; reflexivity).
  assert (H2 : WebrtcApp.mediaConnections Example.talking !! 0%nat
               = Some {| mc_peer := js "01F5Q5"; mc_metadata := Some audio;
                         mc_listeners := 1; mc_answered := false;
                         mc_closed := false |})
    by (vm_compute; reflexivity).
  exact (close_after_hangUp Example.talking 0 _ (Example.tick 9)
           (Example.ticks 10) H1 H2).
Defined.

(** ** The target id *)

Section Target.
Import WebrtcApp.

Lemma code_units_upper cp :
  is_lower cp = false → Forall (λ c, is_lower c = false) (code_units cp).
Proof.
  intros H. unfold code_units. destruct (cp <? 65536).
  - constructor; [exact H | constructor].
  - constructor; [|constructor; [|constructor]];
      unfold is_lower; apply andb_false_iff; right; apply N.leb_gt;
      by apply N.lt_lt_add_r.
Qed.

Lemma mapping_of_elem cp table upper :
  mapping_of cp table = Some upper → (cp, upper) ∈ table.
Proof.
  induction table as [|[c u] table IH]; [done|]. simpl.
  destruct (N.eqb_spec c cp) as [->|_].
  - intros [= ->]. apply elem_of_cons. by left.
  - intros H. apply elem_of_cons. right. by apply IH.
Qed.

Lemma UPPERCASE_MAPPING_upper :
  Forall (λ p, Forall (λ cp, is_lower cp = false) p.2) UPPERCASE_MAPPING.
Proof.
  assert (H : forallb (λ p : N * list N, forallb (λ cp, negb (is_lower cp)) p.2)
                UPPERCASE_MAPPING = true) by (vm_compute; reflexivity).
  apply Forall_forall. intros p Hp.
  apply list_elem_of_In in Hp.
  pose proof (proj1 (forallb_forall _ _) H p Hp) as Hu.
  apply Forall_forall. intros cp Hcp. apply list_elem_of_In in Hcp.
  pose proof (proj1 (forallb_forall _ _) Hu cp Hcp) as Hc.
  by apply negb_true_iff in Hc.
Qed.

Lemma Uppercase_Mapping_upper cp :
  Forall (λ c, is_lower c = false) (Uppercase_Mapping cp).
Proof.
  unfold Uppercase_Mapping. destruct (is_lower cp) eqn:E.
  - unfold is_lower in *.
    apply andb_true_iff in E as [E1 E2]. apply N.leb_le in E1, E2.
    constructor; [|constructor]. 
    apply andb_false_iff. left. apply N.leb_gt. lia.
  - destruct (mapping_of cp UPPERCASE_MAPPING) as [upper|] eqn:Em; simpl.
    + apply mapping_of_elem in Em.
      exact (proj1 (Forall_forall _ _) UPPERCASE_MAPPING_upper _ Em).
    + constructor; [exact E | constructor].
Qed.

Lemma toUpperCase_point_upper cp :
  Forall (λ c, is_lower c = false) (toUpperCase_point cp).
Proof.
  unfold toUpperCase_point.
  induction (Uppercase_Mapping_upper cp) as [|c l Hc _ IH]; [constructor|].
  change ((c :: l) ≫= code_units) with (code_units c ++ (l ≫= code_units)).
  apply Forall_app. split; [by apply code_units_upper | exact IH].
Qed.

Lemma toUpperCase_upper v : Forall (λ c, is_lower c = false) (toUpperCase v).
Proof.
  assert (H : Forall (λ c, is_lower c = false) (toUpperCase v)
              ∧ ∀ c, Forall (λ c, is_lower c = false) (toUpperCase (c :: v))).
  { induction v as [|d v [IH1 IH2]].
    - split; [constructor|]. intros c. apply toUpperCase_point_upper.
    - split; [apply IH2|]. intros c.
      change (toUpperCase (c :: d :: v))
        with (if is_high_surrogate c && is_low_surrogate d
              then toUpperCase_point (code_point c d) ++ toUpperCase v
              else toUpperCase_point c ++ toUpperCase (d :: v)).
      destruct (is_high_surrogate c && is_low_surrogate d);
        (apply Forall_app; split; [apply toUpperCase_point_upper|]);
        [exact IH1 | apply IH2]. }
  apply H.
Qed.

Lemma Forall_trimStart (P : jschar → Prop) v : Forall P v → Forall P (trimStart v).
Proof.
  induction 1 as [|c v Hc Hv IH]; [constructor|].
  simpl. destruct (is_white_space c); [exact IH | by constructor].
Qed.

Lemma Forall_trim (P : jschar → Prop) v : Forall P v → Forall P (trim v).
Proof.
  intros H. unfold trim, trimEnd.
  by apply Forall_reverse, Forall_trimStart, Forall_reverse, Forall_trimStart.
Qed.

Lemma settle_targetId k o tk s : targetId (settle k o tk s) = targetId s.
Proof. destruct k, o; unfold settle; unfold_handlers; by repeat case_match. Qed.

Lemma handle_targetId e s :
  targetId (handle e s) = targetId s
  ∨ ∃ v, targetId (handle e s) = toUpperCase v.
Proof.
  destruct e; unfold handle;
    try (right; by eexists);
    left;
    first
      [ reflexivity
      | apply (handleDrop_preserves (λ x, targetId x = targetId s)); [|done];
        intros f x <-; unfold sendFile; by repeat case_match
      | destruct (pending s !! i); [|done]; by rewrite settle_targetId
      | destruct (mediaConnections s !! call); [|done];
        apply (emit_preserves (λ x, targetId x = targetId s)); [|done];
        intros tk0 x <-; unfold call_on_close, call_on_error;
        unfold_handlers; by repeat case_match
      | unfold hangUp, rejectCall; unfold_handlers; by repeat case_match ].
Qed.

Lemma run_targetId es :
  ∀ s, Forall (λ c, is_lower c = false) (targetId s) →
       Forall (λ c, is_lower c = false) (targetId (run s es)).
Proof.
  induction es as [|e es IH]; intros s Hs; [done|].
  simpl. apply IH.
  change (targetId (step s e)) with (targetId (handle e s)).
  destruct (handle_targetId e s) as [->|[v ->]];
    [exact Hs | apply toUpperCase_upper].
Qed.

End Target.

(** X23: the id that is dialled has no lower-case letter. In every run of
    the component the target id, which is set from the input field only and
    upper-cased on the way, contains none of the letters [a] to [z], and
    neither does its trimmed form, which is what [connectToPeer] and
    [startCall] dial. *)
Theorem targetId_has_no_lower_case (m : N) (es : list WebrtcApp.Event) :
  Forall (λ c, is_lower c = false)
    (WebrtcApp.targetId (WebrtcApp.run (WebrtcApp.init m) es))
  ∧ Forall (λ c, is_lower c = false)
      (trim (WebrtcApp.targetId (WebrtcApp.run (WebrtcApp.init m) es))).
Proof.
  assert (H : Forall (λ c, is_lower c = false)
                (WebrtcApp.targetId (WebrtcApp.run (WebrtcApp.init m) es))).
  { apply run_targetId. constructor. }
  split; [exact H | by apply Forall_trim].
Qed.

(** ** Instances of the call lemmas *)

(** The first peer of the example, whose voice call turns active. *)
Lemma active_after_local_stream_witness :
  let s :=
    WebrtcApp.run (WebrtcApp.init 1234567890123)
      [WebrtcApp.ChangeTargetId (js "01f5q5"); WebrtcApp.ClickConnect;
       WebrtcApp.ConnOpen 0 (Example.tick 0);
       WebrtcApp.ClickStartCall audio;
       WebrtcApp.Settle 0 WebrtcApp.fulfilled (Example.tick 2)] in
  WebrtcApp.mediaStreams s ≠ []
  ∧ ∃ call remoteStream ticks,
      WebrtcApp.CallStream 0 7 (Example.ticks 3)
      = WebrtcApp.CallStream call remoteStream ticks.
Proof.
  assert (H1 : WebrtcApp.callState
                 (WebrtcApp.run (WebrtcApp.init 1234567890123)
                    [WebrtcApp.ChangeTargetId (js "01f5q5");
                     WebrtcApp.ClickConnect;
                     WebrtcApp.ConnOpen 0 (Example.tick 0);
                     WebrtcApp.ClickStartCall audio;
                     WebrtcApp.Settle 0 WebrtcApp.fulfilled (Example.tick 2)])
               ≠ active)
    by (vm_compute; discriminate).
  assert (H2 : WebrtcApp.callState
                 (WebrtcApp.step
                    (WebrtcApp.run (WebrtcApp.init 1234567890123)
                       [WebrtcApp.ChangeTargetId (js "01f5q5");
                        WebrtcApp.ClickConnect;
                        WebrtcApp.ConnOpen 0 (Example.tick 0);
                        WebrtcApp.ClickStartCall audio;
                        WebrtcApp.Settle 0 WebrtcApp.fulfilled (Example.tick 2)])
                    (WebrtcApp.CallStream 0 7 (Example.ticks 3)))
               = active)
    by (vm_compute; reflexivity).
  exact (active_after_local_stream 1234567890123 _
           (WebrtcApp.CallStream 0 7 (Example.ticks 3)) H1 H2).
Defined.

(** ** The base component and the component with calls *)

Section Variants.

Lemma chat_log_app l k : chat_log (l ++ k) = chat_log l ++ chat_log k.
Proof. unfold chat_log. by rewrite filter_app, fmap_app. Qed.

Lemma fmap_delete {A B} (f : A → B) (l : list A) i :
  f <$> delete i l = delete i (f <$> l).
Proof.
  revert i. induction l as [|x l IH]; intros [|i]; try done.
  simpl. by rewrite <- IH.
Qed.

Ltac unfold_base :=
  unfold Base.connectToPeer, Base.handleConnection, Base.sendMessage,
    Base.sendFile, Base.sendFile_onload, Base.peer_on_error,
    Base.peer_on_connection, Base.conn_on_open, Base.conn_on_data,
    Base.conn_on_close, Base.conn_on_error, Base.send,
    Base.addSystemMessage, Base.append_message in *.

Lemma chat_log_one m :
  chat_log [m] = if is_chat m then [without_id m] else [].
Proof.
  unfold chat_log. destruct (is_chat m) eqn:E.
  - by rewrite filter_cons_True.
  - rewrite filter_cons_False; [done | by rewrite E].
Qed.

Ltac chat :=
  unfold same_chat; simpl;
  rewrite ?chat_log_app, ?chat_log_one, ?fmap_app; simpl;
  try match goal with H : chat_log _ = chat_log _ |- _ => rewrite H end;
  repeat split; try done; try congruence.

Lemma sendFile_same_chat b w f :
  same_chat b w → same_chat (Base.sendFile f b) (WebrtcApp.sendFile f w).
Proof.
  destruct b, w. unfold same_chat. simpl.
  intros (-> & -> & -> & -> & -> & -> & -> & <- & Hlog).
  unfold_base. unfold_handlers. simpl. case_match; chat.
Qed.

Lemma handleDrop_same_chat b w files :
  same_chat b w →
  same_chat (Base.handleDrop files b) (WebrtcApp.handleDrop files w).
Proof.
  intros H. unfold Base.handleDrop, WebrtcApp.handleDrop.
  destruct H as (H1 & H2 & H3 & H).
  rewrite <- H3.
  assert (Hbw : same_chat b w) by done.
  clear H1 H2 H3 H.
  destruct (Base.status b); try done.
  revert b w Hbw. induction files as [|f files IH]; intros b w Hbw; [done|].
  simpl. by apply IH, sendFile_same_chat.
Qed.

Lemma step_same_chat b w e :
  same_chat b w →
  same_chat (Base.step b e) (WebrtcApp.step w (chat_event e)).
Proof.
  destruct (match e with Base.DropFiles _ => true | _ => false end) eqn:Ed.
  { destruct e; try discriminate. intros H.
    exact (handleDrop_same_chat b w files H). }
  destruct b, w. unfold same_chat. simpl.
  intros (-> & -> & -> & -> & -> & -> & -> & <- & Hlog).
  destruct e; try discriminate; simpl chat_event;
    unfold Base.step, WebrtcApp.step, WebrtcApp.handle.
  all: try (unfold_base; unfold_handlers; unfold WebrtcApp.peer_connect;
            simpl; repeat case_match; simplify_eq; chat; fail).
  simpl. rewrite list_lookup_fmap.
  destruct (pending !! i) as [[conn f]|]; simpl; [|chat].
  unfold_base. unfold_handlers. chat. by rewrite fmap_delete.
Qed.

Lemma run_same_chat es :
  ∀ b w,
    same_chat b w →
    same_chat (Base.run b es) (WebrtcApp.run w (chat_event <$> es)).
Proof.
  induction es as [|e es IH]; intros b w H; [done|].
  rewrite fmap_cons. simpl. by apply IH, step_same_chat.
Qed.

End Variants.

(** X24: the component with calls chats as the base component does. Started
    with the same draw for the session id and fed the same events (typing,
    connecting, sending a text, choosing or dropping files, the end of a
    file read, and the events of the peer and of the data connections), the
    two components are at every moment in the same connection state, hold
    the same connection, have handed the same frames to every connection,
    have the same reads pending, and show the same conversation: the same
    texts and files from the same senders with the same time stamps, apart
    from the ids of the entries and from the notices. *)
Theorem variants_chat_alike (m : N) (es : list Base.Event) :
  same_chat (Base.run (Base.init m) es)
    (WebrtcApp.run (WebrtcApp.init m) (chat_event <$> es)).
Proof. apply run_same_chat. by repeat split. Qed.

(** ** Termination by the other side *)

Section Termination.
Import WebrtcApp.

Lemma handleCallEnded_streams reason tk x :
  mediaStreams (handleCallEnded reason tk x) = mediaStreams (stopLocalStream x)
  ∧ localStreamRef (handleCallEnded reason tk x) = None.
Proof. unfold_handlers. by destruct (localStreamRef x) eqn:E. Qed.

Lemma handleCallEnded_streams_over reason tk x :
  localStreamRef x = None →
  mediaStreams (handleCallEnded reason tk x) = mediaStreams x.
Proof. intros H. unfold_handlers. by rewrite H. Qed.

Lemma emit_ended_streams n reason ticks s :
  mediaStreams (emit (S n) (handleCallEnded reason) ticks s)
  = mediaStreams (stopLocalStream s)
  ∧ localStreamRef (emit (S n) (handleCallEnded reason) ticks s) = None.
Proof.
  induction n as [|n [IH1 IH2]].
  - rewrite emit_S, emit_0. apply handleCallEnded_streams.
  - rewrite emit_S. split; [|apply handleCallEnded_streams].
    by rewrite handleCallEnded_streams_over.
Qed.

Lemma remote_termination_streams s call mc ticks e :
  mediaConnections s !! call = Some mc → (0 < mc_listeners mc)%nat →
  e = CallClose call ticks ∨ (∃ message, e = CallError call message ticks) →
  mediaStreams (step s e) = mediaStreams (stopLocalStream s).
Proof.
  intros Hc Hn He. unfold step. rewrite mediaStreams_render.
  destruct (mc_listeners mc) as [|n] eqn:En; [lia|].
  destruct He as [-> | [message ->]]; unfold handle; rewrite Hc, En.
  - apply (emit_ended_streams n txt_remote_hung_up ticks s).
  - apply (emit_ended_streams n (txt_call_error ++ message) ticks s).
Qed.

End Termination.

(** X26: the other side ends the call. When the [close] or the [error]
    event of a media connection with listeners arrives, the call is [idle];
    the component holds no local stream any more, and every track of the
    stream it held is stopped, so that no local track is live when the held
    stream was the only one with live tracks; no media element plays a
    stream; the mute and camera-off flags are false; and the log ends with a
    notice of the system. *)
Theorem remote_termination_releases
    (s : WebrtcApp.State) (call : nat) (mc : MediaConnection)
    (ticks : nat → Tick) (e : WebrtcApp.Event) :
  WebrtcApp.mediaConnections s !! call = Some mc →
  (0 < mc_listeners mc)%nat →
  e = WebrtcApp.CallClose call ticks
  ∨ (∃ message, e = WebrtcApp.CallError call message ticks) →
  let s' := WebrtcApp.step s e in
  WebrtcApp.callState s' = idle
  ∧ WebrtcApp.localStreamRef s' = None
  ∧ WebrtcApp.local_tracks s' = []
  ∧ (∀ i, WebrtcApp.localStreamRef s = Some i →
          WebrtcApp.all_ended (WebrtcApp.tracks_of i s'))
  ∧ ((∀ i, WebrtcApp.localStreamRef s ≠ Some i →
           WebrtcApp.all_ended (WebrtcApp.tracks_of i s)) →
     WebrtcApp.live_tracks s' = [])
  ∧ WebrtcApp.is_attached (WebrtcApp.localVideoRef s') = false
  ∧ WebrtcApp.is_attached (WebrtcApp.remoteVideoRef s') = false
  ∧ WebrtcApp.is_attached (WebrtcApp.remoteAudioRef s') = false
  ∧ WebrtcApp.isMuted s' = false
  ∧ WebrtcApp.isCamOff s' = false
  ∧ ∃ before notice,
      WebrtcApp.messages s' = WebrtcApp.messages s ++ before ++ [notice]
      ∧ sender notice = sender_system.
Proof.
  intros Hc Hn He s'.
  destruct (remote_termination_cleans s call mc ticks Hc Hn e He)
    as (Hidle & Href & Hm & Hcam & Hlv & Hrv & Hra & Hlog).
  fold s' in Hidle, Href, Hm, Hcam, Hlv, Hrv, Hra, Hlog.
  pose proof (remote_termination_streams s call mc ticks e Hc Hn He) as Hstreams.
  fold s' in Hstreams.
  destruct (stopLocalStream_spec s) as (_ & Hheld & Hother).
  assert (Hheld' : ∀ i, WebrtcApp.localStreamRef s = Some i →
                        WebrtcApp.all_ended (WebrtcApp.tracks_of i s')).
  { intros i Hi. rewrite (tracks_of_streams i _ _ Hstreams). by apply Hheld. }
  split; [exact Hidle|]. split; [exact Href|].
  split; [unfold WebrtcApp.local_tracks; by rewrite Href|].
  split; [exact Hheld'|].
  split.
  { intros Hrest. apply live_tracks_nil. apply Forall_lookup. intros j ms Hj.
    assert (Hms : WebrtcApp.tracks_of j s' = getTracks ms)
      by (unfold WebrtcApp.tracks_of; by rewrite Hj).
    rewrite <- Hms.
    destruct (decide (WebrtcApp.localStreamRef s = Some j)) as [Hi|Hni].
    - by apply Hheld'.
    - rewrite (tracks_of_streams j _ _ Hstreams), (Hother j Hni).
      by apply Hrest. }
  by repeat split.
Qed.

(** The voice call of the example, closed by the other side. *)
Lemma remote_termination_releases_witness :
  WebrtcApp.live_tracks Example.talking
  = [{| kind := kind_audio; enabled := true; readyState := live |}]
  ∧ WebrtcApp.callState
      (WebrtcApp.step Example.talking (WebrtcApp.CallClose 0 (Example.ticks 9)))
    = idle
  ∧ WebrtcApp.live_tracks
      (WebrtcApp.step Example.talking (WebrtcApp.CallClose 0 (Example.ticks 9)))
    = [].
Proof.
  assert (H1 : WebrtcApp.mediaConnections Example.talking !! 0%nat
               = Some {| mc_peer := js "01F5Q5"; mc_metadata := Some audio;
                         mc_listeners := 1; mc_answered := false;
                         mc_closed := false |})
    by (vm_compute; reflexivity).
  assert (H2 : (0 < mc_listeners
                      {| mc_peer := js "01F5Q5"; mc_metadata := Some audio;
                         mc_listeners := 1; mc_answered := false;
                         mc_closed := false |})%nat)
    by (simpl; lia).
  assert (H3 : ∀ i, WebrtcApp.localStreamRef Example.talking ≠ Some i →
                    WebrtcApp.all_ended (WebrtcApp.tracks_of i Example.talking)).
  { intros [|i] Hi.
    - exfalso. apply Hi. vm_compute. reflexivity.
    - assert (E : WebrtcApp.tracks_of (S i) Example.talking = [])
        by (unfold WebrtcApp.tracks_of;
            assert (L : WebrtcApp.mediaStreams Example.talking
                        = [{| getTracks :=
                                [{| kind := kind_audio; enabled := true;
                                    readyState := live |}] |}])
              by (vm_compute; reflexivity);
            by rewrite L).
      rewrite E. constructor. }
  pose proof (remote_termination_releases Example.talking 0 _ (Example.ticks 9)
                (WebrtcApp.CallClose 0 (Example.ticks 9)) H1 H2
                (or_introl eq_refl)) as H.
  cbv zeta in H. destruct H as (Hidle & _ & _ & _ & Hlive & _).
  split; [vm_compute; reflexivity|].
  split; [exact Hidle | exact (Hlive H3)].
Defined.
